(** * k8s-pod-rightsizer: recommendation engine and reconciliation controller

    A shallow embedding of [pkg/analyzer/engine.go] (the recommendation
    engine) and of [internal/controller/podrightsizing_controller.go] (the
    reconcile pass), with the properties the design document states about
    them.

    Conventions of the embedding:
    - Go [int] and [int64] are [Z]; the two [math.MaxInt32] guards of
      [Reconcile] are written out, and the conversion of a float beyond the
      64-bit range, which Go leaves to the platform, is outside this
      development.
    - Go [float64] is read as exact rational arithmetic ([Q]): the design
      document states its numbers ([5.5], [9.1], [9.55]) at that level and the
      repository's own test compares them with [assert.InDelta]. Rounding of
      IEEE binary64 is therefore outside this development. [math.Sqrt], which
      leaves the rationals, is a parameter of the engine section: every
      theorem holds for any function put in its place.
    - [resource.Quantity] is the pair of an integer and a decimal exponent
      (the library's [int64Amount]).
    - The cluster API is an in-memory store with resource versions, fault
      injection and a trace of the calls made. *)

From Stdlib Require Import ZArith QArith Qround Qminmax Lia Lqa List Ascii.
From Stdlib Require Import Sorting.Sorted Permutation.
From stdpp Require Import base option list strings gmap pretty.

Set Default Proof Using "Type".

(** ** Idealised [float64] *)

Module Float64.

Local Open Scope Q_scope.

Definition float64 : Type := Q.

(** [float64(n)] for an integer [n]. *)
Definition of_int (n : Z) : float64 := inject_Z n.

(** [int(x)], [int64(x)]: conversion truncates towards zero. *)
Definition to_int (x : float64) : Z := Z.quot (Qnum x) (Z.pos (Qden x)).

(** [math.Floor], [math.Ceil], [math.Min]. *)
Definition Floor (x : float64) : float64 := inject_Z (Qfloor x).
Definition Ceil (x : float64) : float64 := inject_Z (Qceiling x).
Definition Min (x y : float64) : float64 := if Qle_bool x y then x else y.

(** Comparisons as the code writes them. *)
Definition ltb (x y : float64) : bool := negb (Qle_bool y x).
Definition leb (x y : float64) : bool := Qle_bool x y.

(** A rational stand-in for [math.Sqrt], exact on squares of numbers with at
    most nine decimals and within [10^-9] elsewhere; the examples are
    evaluated with it. *)
Definition Sqrt (x : float64) : float64 :=
  Z.sqrt (Qnum x * Z.pos (Qden x) * 10 ^ 18) # (Qden x * 10 ^ 9).

End Float64.

(** ** Results of fallible calls

    A Go function returning [(T, error)] returns [Ok t] for [(t, nil)] and
    [Err e] for [(zero, e)]. *)

Inductive result (E A : Type) : Type :=
  | Ok (a : A)
  | Err (e : E).
Arguments Ok {E A} a.
Arguments Err {E A} e.

Definition is_ok {E A} (r : result E A) : bool :=
  match r with Ok _ => true | Err _ => false end.

(** [len(s)] of a slice, as a Go [int]. *)
Definition len {A} (s : list A) : Z := Z.of_nat (length s).

(** [s[i]] on a slice of floats; every use below is shown to be in range. *)
Definition at_index (s : list Q) (i : Z) : Q := nth (Z.to_nat i) s 0%Q.

(** ** [sort.Float64s] *)

Module sort.

Fixpoint insert (x : Q) (s : list Q) : list Q :=
  match s with
  | [] => [x]
  | y :: s' => if Qle_bool x y then x :: y :: s' else y :: insert x s'
  end.

Definition Float64s (s : list Q) : list Q := foldr insert [] s.

End sort.

(** ** [k8s.io/apimachinery/pkg/api/resource]: quantities *)

Module resource.

Local Open Scope Q_scope.

(** [value * 10^scale]. *)
Record Quantity : Type := mkQuantity { value : Z; scale : Z }.

#[global] Instance Quantity_eq_dec : EqDecision Quantity.
Proof. solve_decision. Defined.

Definition NewMilliQuantity (v : Z) : Quantity := mkQuantity v (-3).
Definition NewQuantity (v : Z) : Quantity := mkQuantity v 0.

Definition AsApproximateFloat64 (q : Quantity) : Q :=
  if (scale q =? 0)%Z then inject_Z (value q)
  else inject_Z (value q) * Qpower 10 (scale q).

(** [q.Cmp(p) <= 0] and [q.Equal(p)]: comparison of the denoted numbers. *)
Definition le (q p : Quantity) : Prop :=
  AsApproximateFloat64 q <= AsApproximateFloat64 p.
Definition Equal (q p : Quantity) : bool :=
  Qeq_bool (AsApproximateFloat64 q) (AsApproximateFloat64 p).

(** [q.Add(p)], on the finer of the two scales. *)
Definition Add (q p : Quantity) : Quantity :=
  let s := Z.min (scale q) (scale p) in
  mkQuantity (value q * 10 ^ (scale q - s) + value p * 10 ^ (scale p - s)) s.

End resource.

(** ** [k8s.io/apimachinery/pkg/apis/meta/v1]: object metadata and label
    selectors *)

Module metav1.

Record OwnerReference : Type := mkOwnerReference {
  OwnerKind : string;
  OwnerName : string;
}.

Record ObjectMeta : Type := mkObjectMeta {
  Name : string;
  Namespace : string;
  Labels : gmap string string;
  OwnerReferences : list OwnerReference;
  ResourceVersion : Z;
}.

Record LabelSelectorRequirement : Type := mkLabelSelectorRequirement {
  Key : string;
  Operator : string;
  Values : list string;
}.

Record LabelSelector : Type := mkLabelSelector {
  MatchLabels : list (string * string);
  MatchExpressions : list LabelSelectorRequirement;
}.

(** A selector is the list of requirements it checks; [labels.Everything()]
    checks none. *)
Definition Selector : Type := list LabelSelectorRequirement.
Definition Everything : Selector := [].

Definition eqs (a b : string) : bool := bool_decide (a = b).

(** The operators a requirement may carry, with the number of values each
    one takes. *)
Definition validRequirement (q : LabelSelectorRequirement) : bool :=
  if eqs (Operator q) "In" || eqs (Operator q) "NotIn" then
    negb (bool_decide (Values q = []))
  else if eqs (Operator q) "Exists" || eqs (Operator q) "DoesNotExist" then
    bool_decide (Values q = [])
  else false.

(** [LabelSelectorAsSelector]: fails on an unknown operator or a wrong
    number of values (the syntax checks on keys and values are left out). *)
Definition LabelSelectorAsSelector (ps : LabelSelector) : option Selector :=
  let fromLabels :=
    map (fun kv => mkLabelSelectorRequirement kv.1 "In" [kv.2]) (MatchLabels ps) in
  if forallb validRequirement (MatchExpressions ps)
  then Some (fromLabels ++ MatchExpressions ps)
  else None.

Definition matchesRequirement (labels : gmap string string)
    (q : LabelSelectorRequirement) : bool :=
  if eqs (Operator q) "In" then
    match labels !! Key q with
    | Some v => existsb (eqs v) (Values q)
    | None => false
    end
  else if eqs (Operator q) "NotIn" then
    match labels !! Key q with
    | Some v => negb (existsb (eqs v) (Values q))
    | None => true
    end
  else if eqs (Operator q) "Exists" then bool_decide (is_Some (labels !! Key q))
  else if eqs (Operator q) "DoesNotExist" then
    negb (bool_decide (is_Some (labels !! Key q)))
  else false.

(** [selector.Matches(labels.Set(l))]. *)
Definition Matches (sel : Selector) (labels : gmap string string) : bool :=
  forallb (matchesRequirement labels) sel.

End metav1.

(** ** [k8s.io/api/core/v1]: resource lists *)

Module corev1.

Definition ResourceCPU : string := "cpu".
Definition ResourceMemory : string := "memory".

Abbreviation ResourceList := (gmap string resource.Quantity).

Record ResourceRequirements : Type := mkResourceRequirements {
  Limits : ResourceList;
  Requests : ResourceList;
}.

Record Container : Type := mkContainer {
  ContainerName : string;
  Resources : ResourceRequirements;
}.

Inductive PodPhase : Type :=
  | PodPending | PodRunning | PodSucceeded | PodFailed | PodUnknown.

#[global] Instance PodPhase_eq_dec : EqDecision PodPhase.
Proof. solve_decision. Defined.

(** A pod: its metadata, [Spec.Containers] and [Status.Phase]. *)
Record Pod : Type := mkPod {
  PodMeta : metav1.ObjectMeta;
  Containers : list Container;
  Phase : PodPhase;
}.

Record Namespace : Type := mkNamespace {
  NamespaceMeta : metav1.ObjectMeta;
}.

End corev1.

(** ** [k8s.io/api/apps/v1]: replica sets and the three workload kinds the
    controller patches *)

Module appsv1.

Record ReplicaSet : Type := mkReplicaSet {
  ReplicaSetMeta : metav1.ObjectMeta;
}.

(** A Deployment, StatefulSet or DaemonSet: its metadata and the containers
    of [Spec.Template.Spec]. *)
Record Workload : Type := mkWorkload {
  WorkloadMeta : metav1.ObjectMeta;
  TemplateContainers : list corev1.Container;
}.

End appsv1.

(** ** [pkg/metrics]: what a metrics provider returns *)

Module metrics.

Record ResourceUsage : Type := mkResourceUsage {
  Timestamp : Z;
  Value : Q;
  Unit : string;
}.

Record PodMetrics : Type := mkPodMetrics {
  PodName : string;
  Namespace : string;
  CPUUsageHistory : list ResourceUsage;
  MemUsageHistory : list ResourceUsage;
}.

Record WorkloadMetrics : Type := mkWorkloadMetrics {
  WorkloadName : string;
  WorkloadType : string;
  WorkloadNamespace : string;
  Pods : list PodMetrics;
}.

End metrics.

(** ** [api/v1alpha1]: the parts of the policy object the engine reads and
    writes *)

Module v1alpha1.

Record ResourceThresholds : Type := mkResourceThresholds {
  CPUUtilizationPercentile : Z;
  MemoryUtilizationPercentile : Z;
  MinCPU : option resource.Quantity;
  MaxCPU : option resource.Quantity;
  MinMemory : option resource.Quantity;
  MaxMemory : option resource.Quantity;
  SafetyMargin : Z;
  MinChangeThreshold : Z;
}.


(** The zero value [ResourceThresholds{}]. *)
Definition noThresholds : ResourceThresholds :=
  mkResourceThresholds 0 0 None None None None 0 0.

Record PodReference : Type := mkPodReference {
  Name : string;
  Namespace : string;
  WorkloadType : string;
  WorkloadName : string;
}.

Record PodRecommendation : Type := mkPodRecommendation {
  PodRef : PodReference;
  CurrentResources : corev1.ResourceRequirements;
  RecommendedResources : corev1.ResourceRequirements;
  Reason : string;
  Confidence : Z;
  Applied : bool;
}.

Record TargetSpec : Type := mkTargetSpec {
  TargetNamespace : string;
  LabelSelector : option metav1.LabelSelector;
  NamespaceSelector : option metav1.LabelSelector;
  ExcludeNamespaces : list string;
  IncludeWorkloadTypes : list string;
}.

Inductive UpdateStrategy : Type :=
  | UpdateStrategyImmediate | UpdateStrategyGradual | UpdateStrategyManual.

#[global] Instance UpdateStrategy_eq_dec : EqDecision UpdateStrategy.
Proof. solve_decision. Defined.

Record UpdatePolicy : Type := mkUpdatePolicy {
  Strategy : UpdateStrategy;
}.

Record PodRightSizingSpec : Type := mkPodRightSizingSpec {
  Target : TargetSpec;
  AnalysisWindow : string;
  Policy : UpdatePolicy;
  Thresholds : ResourceThresholds;
  DryRun : bool;
}.

(** The phases; [PhaseUnset] is the empty string of a fresh object. *)
Inductive RightSizingPhase : Type :=
  | PhaseUnset
  | PhaseInitializing
  | PhaseAnalyzing
  | PhaseRecommending
  | PhaseUpdating
  | PhaseCompleted
  | PhaseError.

#[global] Instance RightSizingPhase_eq_dec : EqDecision RightSizingPhase.
Proof. solve_decision. Defined.

(** Times are nanoseconds since the epoch, durations are nanoseconds. *)
Record PodRightSizingStatus : Type := mkPodRightSizingStatus {
  Phase : RightSizingPhase;
  Message : string;
  LastAnalysisTime : option Z;
  LastUpdateTime : option Z;
  TargetedPods : Z;
  UpdatedPods : Z;
  Recommendations : list PodRecommendation;
}.

Record PodRightSizing : Type := mkPodRightSizing {
  Meta : metav1.ObjectMeta;
  Spec : PodRightSizingSpec;
  Status : PodRightSizingStatus;
}.

End v1alpha1.

(** ** [pkg/analyzer/engine.go] *)

Module analyzer.

Import Float64 resource corev1 metrics.
Local Open Scope Q_scope.

Record RecommendationEngine : Type := mkRecommendationEngine {
  DefaultSafetyMargin : Z;
  DefaultConfidenceThreshold : Z;
  MinDataPoints : Z;
  CPURequestMultiplier : Q;
  MemoryRequestMultiplier : Q;
}.

Definition NewRecommendationEngine : RecommendationEngine :=
  {| DefaultSafetyMargin := 20;
     DefaultConfidenceThreshold := 70;
     MinDataPoints := 10;
     CPURequestMultiplier := 0.8;
     MemoryRequestMultiplier := 0.9 |}.

Record ResourceRecommendation : Type := mkResourceRecommendation {
  Request : option Quantity;
  Limit : option Quantity;
  Percentile : Q;
  Confidence : Z;
  DataPoints : Z;
  Reason : string;
}.

(** The errors the engine creates with [fmt.Errorf]. *)
Inductive error : Type :=
  | NoPodMetrics
  | InsufficientCPU (have need : Z)
  | InsufficientMemory (have need : Z).

Definition Error (e : error) : string :=
  match e with
  | NoPodMetrics => "no pod metrics provided"
  | InsufficientCPU n m =>
      "insufficient CPU data points: " +:+ pretty n +:+ " < " +:+ pretty m
  | InsufficientMemory n m =>
      "insufficient memory data points: " +:+ pretty n +:+ " < " +:+ pretty m
  end.

Definition calculatePercentile (sortedValues : list Q) (percentile : Q) : Q :=
  if (len sortedValues =? 0)%Z then 0
  else if leb percentile 0 then at_index sortedValues 0
  else if leb 100 percentile then at_index sortedValues (len sortedValues - 1)
  else
    let index := (percentile / 100) * of_int (len sortedValues - 1) in
    let lower := to_int (Floor index) in
    let upper := to_int (Ceil index) in
    if (lower =? upper)%Z then at_index sortedValues lower
    else
      let weight := index - of_int lower in
      at_index sortedValues lower * (1 - weight)
      + at_index sortedValues upper * weight.

Definition calculateMean (values : list Q) : Q :=
  if (len values =? 0)%Z then 0
  else
    let sum := foldl (fun sum v => sum + v) 0 values in
    sum / of_int (len values).

Section Engine.

(** [math.Sqrt]. *)
Variable Sqrt : Q -> Q.

Definition calculateStandardDeviation (values : list Q) (mean : Q) : Q :=
  if (len values <? 2)%Z then 0
  else
    let sumSquaredDiff :=
      foldl (fun acc v => let diff := v - mean in acc + diff * diff) 0 values in
    let variance := sumSquaredDiff / of_int (len values - 1) in
    Sqrt variance.

Definition calculateConfidence (values : list Q) (percentileValue : Q) : Z :=
  if (len values <? 2)%Z then 50%Z
  else
    let mean := calculateMean values in
    let stdDev := calculateStandardDeviation values mean in
    let cv := if ltb 0 mean then stdDev / mean else 0 in
    let confidence :=
      if ltb 0.5 cv then
        (30 + to_int (20 * (1 - Min (cv - 0.5) 0.5 / 0.5))%Q)%Z
      else if ltb 0.3 cv then
        (70 + to_int (25 * (1 - (cv - 0.3) / 0.2))%Q)%Z
      else if ltb 0.1 cv then
        (95 + to_int (5 * (1 - (cv - 0.1) / 0.2))%Q)%Z
      else 100%Z in
    let dataPointBoost := Min (of_int (len values) / 100) 0.1 in
    to_int (Min (of_int confidence * (1 + dataPointBoost)) 100).

Definition percentileReason (percentile n : Z) : string :=
  "Based on " +:+ pretty percentile +:+ "th percentile of " +:+ pretty n
  +:+ " data points".

Definition analyzeCPUUsage (r : RecommendationEngine)
    (cpuHistory : list ResourceUsage)
    (thresholds : v1alpha1.ResourceThresholds)
  : result error (ResourceRecommendation * Z) :=
  if (len cpuHistory <? MinDataPoints r)%Z then
    Err (InsufficientCPU (len cpuHistory) (MinDataPoints r))
  else
    let values := sort.Float64s (map Value cpuHistory) in
    let percentile :=
      if (0 <? v1alpha1.CPUUtilizationPercentile thresholds)%Z
      then v1alpha1.CPUUtilizationPercentile thresholds else 95%Z in
    let percentileValue := calculatePercentile values (of_int percentile) in
    let safetyMargin :=
      if (0 <? v1alpha1.SafetyMargin thresholds)%Z
      then v1alpha1.SafetyMargin thresholds else DefaultSafetyMargin r in
    let recommendedLimit := percentileValue * (1 + of_int safetyMargin / 100) in
    let recommendedLimit :=
      match v1alpha1.MinCPU thresholds with
      | Some q =>
          let minCPU := AsApproximateFloat64 q in
          if ltb recommendedLimit minCPU then minCPU else recommendedLimit
      | None => recommendedLimit
      end in
    let recommendedLimit :=
      match v1alpha1.MaxCPU thresholds with
      | Some q =>
          let maxCPU := AsApproximateFloat64 q in
          if ltb maxCPU recommendedLimit then maxCPU else recommendedLimit
      | None => recommendedLimit
      end in
    let confidence := calculateConfidence values percentileValue in
    let limitQuantity := NewMilliQuantity (to_int (recommendedLimit * 1000)) in
    Ok ({| Request := None;
           Limit := Some limitQuantity;
           Percentile := percentileValue;
           Confidence := confidence;
           DataPoints := len cpuHistory;
           Reason := percentileReason percentile (len cpuHistory) |},
        confidence).

Definition analyzeMemoryUsage (r : RecommendationEngine)
    (memoryHistory : list ResourceUsage)
    (thresholds : v1alpha1.ResourceThresholds)
  : result error (ResourceRecommendation * Z) :=
  if (len memoryHistory <? MinDataPoints r)%Z then
    Err (InsufficientMemory (len memoryHistory) (MinDataPoints r))
  else
    let values := sort.Float64s (map Value memoryHistory) in
    let percentile :=
      if (0 <? v1alpha1.MemoryUtilizationPercentile thresholds)%Z
      then v1alpha1.MemoryUtilizationPercentile thresholds else 95%Z in
    let percentileValue := calculatePercentile values (of_int percentile) in
    let safetyMargin :=
      if (0 <? v1alpha1.SafetyMargin thresholds)%Z
      then v1alpha1.SafetyMargin thresholds else DefaultSafetyMargin r in
    let recommendedLimit := percentileValue * (1 + of_int safetyMargin / 100) in
    let recommendedLimit :=
      match v1alpha1.MinMemory thresholds with
      | Some q =>
          let minMemory := AsApproximateFloat64 q in
          if ltb recommendedLimit minMemory then minMemory else recommendedLimit
      | None => recommendedLimit
      end in
    let recommendedLimit :=
      match v1alpha1.MaxMemory thresholds with
      | Some q =>
          let maxMemory := AsApproximateFloat64 q in
          if ltb maxMemory recommendedLimit then maxMemory else recommendedLimit
      | None => recommendedLimit
      end in
    let confidence := calculateConfidence values percentileValue in
    let limitQuantity := NewQuantity (to_int recommendedLimit) in
    Ok ({| Request := None;
           Limit := Some limitQuantity;
           Percentile := percentileValue;
           Confidence := confidence;
           DataPoints := len memoryHistory;
           Reason := percentileReason percentile (len memoryHistory) |},
        confidence).

(** [cpuRec] and [memRec] are never [nil] where the engine calls this. *)
Definition buildReasonString (r : RecommendationEngine)
    (cpuRec memRec : option ResourceRecommendation)
    (thresholds : v1alpha1.ResourceThresholds) : string :=
  let reasons :=
    match cpuRec with Some c => ["CPU: " +:+ Reason c] | None => [] end
    ++ match memRec with Some m => ["Memory: " +:+ Reason m] | None => [] end in
  let safetyMargin :=
    if (0 <? v1alpha1.SafetyMargin thresholds)%Z
    then v1alpha1.SafetyMargin thresholds else DefaultSafetyMargin r in
  let reasonStr := "Recommendations based on historical usage analysis. " in
  let reasonStr :=
    match reasons with
    | [] => reasonStr
    | [r0] => reasonStr +:+ r0 +:+ ". "
    | r0 :: r1 :: _ => (reasonStr +:+ r0 +:+ ". ") +:+ r1 +:+ ". "
    end in
  reasonStr +:+ "Applied " +:+ pretty safetyMargin +:+ "% safety margin.".

Definition generatePodRecommendation (r : RecommendationEngine)
    (podMetrics : PodMetrics) (thresholds : v1alpha1.ResourceThresholds)
  : result error (option v1alpha1.PodRecommendation) :=
  match analyzeCPUUsage r (CPUUsageHistory podMetrics) thresholds with
  | Err err => Err err
  | Ok (cpuRec, cpuConfidence) =>
  match analyzeMemoryUsage r (MemUsageHistory podMetrics) thresholds with
  | Err err => Err err
  | Ok (memoryRec, memoryConfidence) =>
    let overallConfidence :=
      to_int (Min (of_int cpuConfidence) (of_int memoryConfidence)) in
    if (overallConfidence <? DefaultConfidenceThreshold r)%Z then Ok None
    else
      let requests : ResourceList := ∅ in
      let limits : ResourceList := ∅ in
      let '(requests, limits) :=
        match Limit cpuRec with
        | Some l =>
            let limitValue := AsApproximateFloat64 l in
            let requestValue := limitValue * CPURequestMultiplier r in
            (<[ResourceCPU := NewMilliQuantity (to_int (requestValue * 1000))]>
               requests,
             <[ResourceCPU := l]> limits)
        | None => (requests, limits)
        end in
      let '(requests, limits) :=
        match Limit memoryRec with
        | Some l =>
            let limitValue := AsApproximateFloat64 l in
            let requestValue := limitValue * MemoryRequestMultiplier r in
            (<[ResourceMemory := NewQuantity (to_int requestValue)]> requests,
             <[ResourceMemory := l]> limits)
        | None => (requests, limits)
        end in
      Ok (Some
        {| v1alpha1.PodRef :=
             {| v1alpha1.Name := PodName podMetrics;
                v1alpha1.Namespace := Namespace podMetrics;
                v1alpha1.WorkloadType := "";
                v1alpha1.WorkloadName := "" |};
           v1alpha1.CurrentResources := mkResourceRequirements ∅ ∅;
           v1alpha1.RecommendedResources :=
             {| Requests := requests; Limits := limits |};
           v1alpha1.Confidence := overallConfidence;
           v1alpha1.Reason :=
             buildReasonString r (Some cpuRec) (Some memoryRec) thresholds;
           v1alpha1.Applied := false |})
  end
  end.

Definition GenerateRecommendations (r : RecommendationEngine)
    (workloadMetrics : WorkloadMetrics)
    (thresholds : v1alpha1.ResourceThresholds)
  : result error (list v1alpha1.PodRecommendation) :=
  if (len (Pods workloadMetrics) =? 0)%Z then Err NoPodMetrics
  else
    Ok (foldl
          (fun recommendations podMetrics =>
             match generatePodRecommendation r podMetrics thresholds with
             | Err _ => recommendations
             | Ok None => recommendations
             | Ok (Some recommendation) => recommendations ++ [recommendation]
             end)
          [] (Pods workloadMetrics)).

End Engine.

End analyzer.

(** ** Order statistics: what the percentile is measured against *)

Module stats.

Import Float64.
Local Open Scope Q_scope.

(** Least and greatest element of a sample ([0] on the empty one). *)
Definition list_min (s : list Q) : Q :=
  match s with [] => 0 | x :: s' => foldr Qmin x s' end.
Definition list_max (s : list Q) : Q :=
  match s with [] => 0 | x :: s' => foldr Qmax x s' end.

End stats.

(** ** The confidence formula as the design document words it

    Section 4.2, step 6: the score read off the coefficient of variation,
    then the relative boost for the sample size. The document rounds with
    [floor]; the code converts with [int]. *)

Module design.

Local Open Scope Q_scope.

Definition confidence_of_cv (cv : Q) : Z :=
  if Float64.ltb 0.5 cv then
    (30 + Qfloor (20 * (1 - Qmin (cv - 0.5) 0.5 / 0.5)))%Z
  else if Float64.ltb 0.3 cv then
    (70 + Qfloor (25 * (1 - (cv - 0.3) / 0.2)))%Z
  else if Float64.ltb 0.1 cv then
    (95 + Qfloor (5 * (1 - (cv - 0.1) / 0.2)))%Z
  else 100%Z.

Definition boosted (confidence n : Z) : Z :=
  Z.min (Qfloor (inject_Z confidence * (1 + Qmin (inject_Z n / 100) 0.1))) 100.

End design.

(** ** [sigs.k8s.io/controller-runtime/pkg/client]: the cluster API

    An in-memory API server. [faults] says which calls the server refuses
    and with what error; a status write is accepted only when the object
    written carries the resource version of the stored one (optimistic
    concurrency); every call is appended, with its outcome, to [trace]. *)

Module client.

(** Namespace and name of an object. *)
Definition NamespacedName : Type := (string * string)%type.

Definition keyOf (m : metav1.ObjectMeta) : NamespacedName :=
  (metav1.Namespace m, metav1.Name m).

Inductive APIError : Type :=
  | NotFound
  | Conflict
  | ServerError (message : string).

#[global] Instance APIError_eq_dec : EqDecision APIError.
Proof. solve_decision. Defined.

Definition IsNotFound (e : APIError) : bool :=
  match e with NotFound => true | _ => false end.

Inductive Call : Type :=
  | GetPodRightSizing (key : NamespacedName)
  | UpdateStatus (key : NamespacedName) (phase : v1alpha1.RightSizingPhase)
  | ListNamespaces
  | ListPods (namespace : string)
  | GetReplicaSet (key : NamespacedName)
  | GetWorkload (kind : string) (key : NamespacedName)
  | UpdateWorkload (kind : string) (key : NamespacedName).

#[global] Instance Call_eq_dec : EqDecision Call.
Proof. solve_decision. Defined.

(** A call and the error it ended with, if any. *)
Record Event : Type := mkEvent {
  call : Call;
  failure : option APIError;
}.

Record Cluster : Type := mkCluster {
  policies : gmap NamespacedName v1alpha1.PodRightSizing;
  namespaces : list corev1.Namespace;
  pods : list corev1.Pod;
  replicaSets : list appsv1.ReplicaSet;
  workloads : gmap (string * NamespacedName) appsv1.Workload;
  now : Z;
  faults : Call -> option APIError;
  trace : list Event;
}.

Definition withPolicies (p : gmap NamespacedName v1alpha1.PodRightSizing)
    (w : Cluster) : Cluster :=
  mkCluster p (namespaces w) (pods w) (replicaSets w) (workloads w) (now w)
    (faults w) (trace w).

Definition withWorkloads (x : gmap (string * NamespacedName) appsv1.Workload)
    (w : Cluster) : Cluster :=
  mkCluster (policies w) (namespaces w) (pods w) (replicaSets w) x (now w)
    (faults w) (trace w).

Definition logged (e : Event) (w : Cluster) : Cluster :=
  mkCluster (policies w) (namespaces w) (pods w) (replicaSets w) (workloads w)
    (now w) (faults w) (trace w ++ [e]).

(** Computations that talk to the cluster. *)
Definition M (A : Type) : Type := Cluster -> A * Cluster.

Definition ret {A} (a : A) : M A := fun w => (a, w).

Definition bind {A B} (m : M A) (k : A -> M B) : M B :=
  fun w => let (a, w') := m w in k a w'.

#[global] Instance M_ret : MRet M := @ret.
#[global] Instance M_bind : MBind M := fun A B k m => bind m k.

Definition errorOf {A} (r : result APIError A) : option APIError :=
  match r with Ok _ => None | Err e => Some e end.

(** One call: refused when [faults] says so, served otherwise, logged with
    its outcome either way. *)
Definition served {A} (c : Call) (serve : Cluster -> result APIError A * Cluster)
  : M (result APIError A) :=
  fun w =>
    match faults w c with
    | Some e => (Err e, logged (mkEvent c (Some e)) w)
    | None =>
        let (r, w') := serve w in
        (r, logged (mkEvent c (errorOf r)) w')
    end.

(** [time.Now()]; the clock stands still during a pass. *)
Definition Now : M Z := fun w => (now w, w).

(** [r.Get] of the policy object. *)
Definition Get (key : NamespacedName) : M (result APIError v1alpha1.PodRightSizing) :=
  served (GetPodRightSizing key)
    (fun w =>
       (match policies w !! key with
        | Some obj => Ok obj
        | None => Err NotFound
        end, w)).

Definition bumped (m : metav1.ObjectMeta) : metav1.ObjectMeta :=
  metav1.mkObjectMeta (metav1.Name m) (metav1.Namespace m) (metav1.Labels m)
    (metav1.OwnerReferences m) (metav1.ResourceVersion m + 1).

(** [r.Status().Update]: the stored object takes the status of [obj] and a
    new resource version, and that is what the caller's copy becomes; a
    refused or conflicting write changes nothing. *)
Definition StatusUpdate (obj : v1alpha1.PodRightSizing)
  : M (result APIError v1alpha1.PodRightSizing) :=
  let key := keyOf (v1alpha1.Meta obj) in
  served (UpdateStatus key (v1alpha1.Phase (v1alpha1.Status obj)))
    (fun w =>
       match policies w !! key with
       | None => (Err NotFound, w)
       | Some stored =>
           if (metav1.ResourceVersion (v1alpha1.Meta stored)
               =? metav1.ResourceVersion (v1alpha1.Meta obj))%Z
           then
             let updated :=
               v1alpha1.mkPodRightSizing (bumped (v1alpha1.Meta stored))
                 (v1alpha1.Spec stored) (v1alpha1.Status obj) in
             (Ok updated, withPolicies (<[key := updated]> (policies w)) w)
           else (Err Conflict, w)
       end).

(** [r.List] of namespaces under a selector. *)
Definition ListNamespacesMatching (sel : metav1.Selector)
  : M (result APIError (list corev1.Namespace)) :=
  served ListNamespaces
    (fun w =>
       (Ok (List.filter
              (fun ns => metav1.Matches sel (metav1.Labels (corev1.NamespaceMeta ns)))
              (namespaces w)), w)).

(** [r.List] of pods under a label selector, in one namespace
    ([client.InNamespace]) or, for the empty name, in all of them. *)
Definition ListPodsMatching (sel : metav1.Selector) (ns : string)
  : M (result APIError (list corev1.Pod)) :=
  served (ListPods ns)
    (fun w =>
       (Ok (List.filter
              (fun pod =>
                 metav1.Matches sel (metav1.Labels (corev1.PodMeta pod))
                 && (metav1.eqs ns ""
                     || metav1.eqs (metav1.Namespace (corev1.PodMeta pod)) ns))
              (pods w)), w)).

Definition GetReplicaSetNamed (key : NamespacedName)
  : M (result APIError appsv1.ReplicaSet) :=
  served (GetReplicaSet key)
    (fun w =>
       (match
          List.find (fun rs => bool_decide (keyOf (appsv1.ReplicaSetMeta rs) = key))
            (replicaSets w)
        with
        | Some rs => Ok rs
        | None => Err NotFound
        end, w)).

Definition GetWorkloadNamed (kind : string) (key : NamespacedName)
  : M (result APIError appsv1.Workload) :=
  served (GetWorkload kind key)
    (fun w =>
       (match workloads w !! (kind, key) with
        | Some obj => Ok obj
        | None => Err NotFound
        end, w)).

(** [r.Update] of a workload just fetched. *)
Definition UpdateWorkloadNamed (kind : string) (obj : appsv1.Workload)
  : M (result APIError unit) :=
  let key := keyOf (appsv1.WorkloadMeta obj) in
  served (UpdateWorkload kind key)
    (fun w =>
       match workloads w !! (kind, key) with
       | None => (Err NotFound, w)
       | Some _ => (Ok tt, withWorkloads (<[(kind, key) := obj]> (workloads w)) w)
       end).

End client.

(** ** [strings]: [SplitN] on the separator ["/"] *)

Module strings_go.

(** The text before the first ["/"] and the text after it. *)
Fixpoint breakAtSlash (s : string) : option (string * string) :=
  match s with
  | EmptyString => None
  | String a s' =>
      if Ascii.eqb a "/"%char then Some (EmptyString, s')
      else match breakAtSlash s' with
           | Some (x, y) => Some (String a x, y)
           | None => None
           end
  end.

(** [strings.SplitN(s, "/", n)] for [n >= 0]: at most [n] pieces, the last
    one unsplit. *)
Fixpoint SplitN (s : string) (n : nat) : list string :=
  match n with
  | O => []
  | S O => [s]
  | S n' =>
      match breakAtSlash s with
      | Some (x, y) => x :: SplitN y n'
      | None => [s]
      end
  end.

End strings_go.

(** ** [time]: durations *)

Module time.

Definition Second : Z := 1000000000.
Definition Minute : Z := 60 * Second.
Definition Hour : Z := 60 * Minute.

Definition digit (c : ascii) : option Z :=
  let n := Z.of_N (N_of_ascii c) in
  if (48 <=? n)%Z && (n <=? 57)%Z then Some (n - 48)%Z else None.

(** The decimal number a string starts with, and the rest of the string. *)
Fixpoint leadingNumber (s : string) (acc : option Z) : option Z * string :=
  match s with
  | EmptyString => (acc, s)
  | String c s' =>
      match digit c with
      | Some d => leadingNumber s' (Some (10 * default 0%Z acc + d)%Z)
      | None => (acc, s)
      end
  end.

(** A stand-in for [time.ParseDuration] on whole numbers of hours, minutes
    or seconds (["168h"], ["30m"], ["45s"]); the examples are evaluated with
    it. *)
Definition ParseDuration (s : string) : option Z :=
  match leadingNumber s None with
  | (Some n, rest) =>
      if metav1.eqs rest "h" then Some (n * Hour)%Z
      else if metav1.eqs rest "m" then Some (n * Minute)%Z
      else if metav1.eqs rest "s" then Some (n * Second)%Z
      else None
  | (None, _) => None
  end.

End time.

(** ** [internal/controller/podrightsizing_controller.go] *)

Module controller.

Import client.

Definition WorkloadTypeDeployment : string := "Deployment".
Definition WorkloadTypeStatefulSet : string := "StatefulSet".
Definition WorkloadTypeDaemonSet : string := "DaemonSet".

Definition MaxInt32 : Z := 2147483647.
Definition Minute : Z := time.Minute.
Definition Hour : Z := time.Hour.

(** [ctrl.Result]. *)
Record Result : Type := mkResult { RequeueAfter : Z }.
Definition noRequeue : Result := mkResult 0.

(** The metrics provider, [analyzer.MetricsClientInterface]: namespace,
    workload name, workload type and window to the workload's metrics or
    the provider's error text. *)
Definition MetricsClientInterface : Type :=
  string -> string -> string -> Z -> result string metrics.WorkloadMetrics.

Record PodRightSizingReconciler : Type := mkReconciler {
  MetricsClient : MetricsClientInterface;
  RecommendEngine : analyzer.RecommendationEngine;
}.

(** The errors the controller returns or logs. Where the code wraps an error
    of the selector library, that error's own text is not reproduced. *)
Inductive error : Type :=
  | APIFailure (e : APIError)
  | InvalidLabelSelector
  | InvalidNamespaceSelector
  | ListNamespacesFailed (e : APIError)
  | ListPodsFailed (namespace : string) (e : APIError)
  | TooManyTargetPods (n : Z)
  | TooManyUpdatedPods (n : Z)
  | InvalidWorkloadKey (key : string)
  | MetricsFailure (message : string)
  | NoMetricsFound (key : string)
  | EngineFailure (e : analyzer.error)
  | GetWorkloadFailed (kind namespace name : string) (e : APIError)
  | UpdateWorkloadFailed (kind namespace name : string) (e : APIError).

Definition APIErrorText (e : APIError) : string :=
  match e with
  | NotFound => "not found"
  | Conflict => "the object has been modified"
  | ServerError message => message
  end.

Definition Error (e : error) : string :=
  match e with
  | APIFailure e => APIErrorText e
  | InvalidLabelSelector => "invalid label selector"
  | InvalidNamespaceSelector => "invalid namespace selector"
  | ListNamespacesFailed e => "failed to list namespaces: " +:+ APIErrorText e
  | ListPodsFailed ns e =>
      "failed to list pods in namespace " +:+ ns +:+ ": " +:+ APIErrorText e
  | TooManyTargetPods n =>
      "too many target pods: " +:+ pretty n +:+ " exceeds int32 limit"
  | TooManyUpdatedPods n =>
      "too many updated pods: " +:+ pretty n +:+ " exceeds int32 limit"
  | InvalidWorkloadKey key => "invalid workload key: " +:+ key
  | MetricsFailure message => message
  | NoMetricsFound key => "no metrics found for workload " +:+ key
  | EngineFailure e => analyzer.Error e
  | GetWorkloadFailed kind ns name e =>
      "failed to get " +:+ kind +:+ " " +:+ ns +:+ "/" +:+ name +:+ ": "
      +:+ APIErrorText e
  | UpdateWorkloadFailed kind ns name e =>
      "failed to update " +:+ kind +:+ " " +:+ ns +:+ "/" +:+ name +:+ ": "
      +:+ APIErrorText e
  end.

Definition withStatus (st : v1alpha1.PodRightSizingStatus)
    (prs : v1alpha1.PodRightSizing) : v1alpha1.PodRightSizing :=
  v1alpha1.mkPodRightSizing (v1alpha1.Meta prs) (v1alpha1.Spec prs) st.

(** [isNamespaceExcluded]. *)
Definition isNamespaceExcluded (namespace : string) (excludeList : list string) : bool :=
  existsb (fun excludeNs => metav1.eqs namespace excludeNs) excludeList.

(** [getWorkloadType]: the first owner of a known kind decides. *)
Fixpoint workloadTypeOf (owners : list metav1.OwnerReference) : string :=
  match owners with
  | [] => "Pod"
  | owner :: owners' =>
      let kind := metav1.OwnerKind owner in
      if metav1.eqs kind "ReplicaSet" then WorkloadTypeDeployment
      else if metav1.eqs kind "StatefulSet" then WorkloadTypeStatefulSet
      else if metav1.eqs kind "DaemonSet" then WorkloadTypeDaemonSet
      else if metav1.eqs kind "Job" then "Job"
      else if metav1.eqs kind "CronJob" then "CronJob"
      else workloadTypeOf owners'
  end.

Definition getWorkloadType (pod : corev1.Pod) : string :=
  workloadTypeOf (metav1.OwnerReferences (corev1.PodMeta pod)).

(** [shouldIncludePod]. *)
Definition shouldIncludePod (pod : corev1.Pod) (prs : v1alpha1.PodRightSizing) : bool :=
  if negb (bool_decide (corev1.Phase pod = corev1.PodRunning)) then false
  else if (len (metav1.OwnerReferences (corev1.PodMeta pod)) =? 0)%Z then false
  else
    let includeTypes :=
      v1alpha1.IncludeWorkloadTypes (v1alpha1.Target (v1alpha1.Spec prs)) in
    if (0 <? len includeTypes)%Z
       && negb (existsb (fun allowedType => metav1.eqs (getWorkloadType pod) allowedType)
                  includeTypes)
    then false
    else
      existsb
        (fun container =>
           (0 <? Z.of_nat (size (corev1.Requests (corev1.Resources container))))%Z
           || (0 <? Z.of_nat (size (corev1.Limits (corev1.Resources container))))%Z)
        (corev1.Containers pod).

(** The loop of [discoverTargetPods] over the target namespaces. *)
Fixpoint listTargetPods (selector : metav1.Selector) (prs : v1alpha1.PodRightSizing)
    (namespaces : list string) (pods : list corev1.Pod)
  : M (result error (list corev1.Pod)) :=
  match namespaces with
  | [] => mret (Ok pods)
  | ns :: namespaces' =>
      if isNamespaceExcluded ns
           (v1alpha1.ExcludeNamespaces (v1alpha1.Target (v1alpha1.Spec prs)))
      then listTargetPods selector prs namespaces' pods
      else
        podList ← ListPodsMatching selector ns;
        match podList with
        | Err err => mret (Err (ListPodsFailed ns err))
        | Ok items =>
            listTargetPods selector prs namespaces'
              (pods ++ List.filter (fun pod => shouldIncludePod pod prs) items)
        end
  end.

(** [discoverTargetPods]. *)
Definition discoverTargetPods (prs : v1alpha1.PodRightSizing)
  : M (result error (list corev1.Pod)) :=
  let target := v1alpha1.Target (v1alpha1.Spec prs) in
  let selector :=
    match v1alpha1.LabelSelector target with
    | Some ls => metav1.LabelSelectorAsSelector ls
    | None => Some metav1.Everything
    end in
  match selector with
  | None => mret (Err InvalidLabelSelector)
  | Some selector =>
      match v1alpha1.NamespaceSelector target with
      | Some nsSel =>
          match metav1.LabelSelectorAsSelector nsSel with
          | None => mret (Err InvalidNamespaceSelector)
          | Some namespaceSelector =>
              namespaceList ← ListNamespacesMatching namespaceSelector;
              match namespaceList with
              | Err err => mret (Err (ListNamespacesFailed err))
              | Ok items =>
                  listTargetPods selector prs
                    (map (fun ns => metav1.Name (corev1.NamespaceMeta ns)) items) []
              end
          end
      | None =>
          if negb (metav1.eqs (v1alpha1.TargetNamespace target) "")
          then listTargetPods selector prs [v1alpha1.TargetNamespace target] []
          else listTargetPods selector prs [""] []
      end
  end.

(** The first owner of kind Deployment. *)
Fixpoint deploymentOwner (owners : list metav1.OwnerReference) : option string :=
  match owners with
  | [] => None
  | rsOwner :: owners' =>
      if metav1.eqs (metav1.OwnerKind rsOwner) "Deployment"
      then Some (metav1.OwnerName rsOwner)
      else deploymentOwner owners'
  end.

(** The loop of [getWorkloadName] over the owners of a pod. *)
Fixpoint workloadNameOf (pod : corev1.Pod) (owners : list metav1.OwnerReference)
  : M string :=
  match owners with
  | [] => mret (metav1.Name (corev1.PodMeta pod))
  | owner :: owners' =>
      if metav1.eqs (metav1.OwnerKind owner) "ReplicaSet" then
        rs ← GetReplicaSetNamed
                (metav1.Namespace (corev1.PodMeta pod), metav1.OwnerName owner);
        match rs with
        | Ok rs =>
            match deploymentOwner (metav1.OwnerReferences (appsv1.ReplicaSetMeta rs)) with
            | Some name => mret name
            | None => workloadNameOf pod owners'
            end
        | Err _ => workloadNameOf pod owners'
        end
      else mret (metav1.OwnerName owner)
  end.

Definition getWorkloadName (pod : corev1.Pod) : M string :=
  workloadNameOf pod (metav1.OwnerReferences (corev1.PodMeta pod)).

Definition workloadKey (namespace workloadType workloadName : string) : string :=
  namespace +:+ "/" +:+ workloadType +:+ "/" +:+ workloadName.

(** [groupPodsByWorkload]: the Go map from workload key to pods. *)
Fixpoint groupPods (pods : list corev1.Pod) (groups : gmap string (list corev1.Pod))
  : M (gmap string (list corev1.Pod)) :=
  match pods with
  | [] => mret groups
  | pod :: pods' =>
      workloadName ← getWorkloadName pod;
      let workloadType := getWorkloadType pod in
      let key :=
        workloadKey (metav1.Namespace (corev1.PodMeta pod)) workloadType workloadName in
      groupPods pods' (<[key := default [] (groups !! key) ++ [pod]]> groups)
  end.

Definition groupPodsByWorkload (pods : list corev1.Pod)
  : M (gmap string (list corev1.Pod)) :=
  groupPods pods ∅.

Definition splitWorkloadKey (key : string) : list string :=
  strings_go.SplitN key 3.

(** [addResourceToTotal]. *)
Definition addResourceToTotal (total source : corev1.ResourceList)
    (resourceType : string) : corev1.ResourceList :=
  match source !! resourceType with
  | Some quantity =>
      match total !! resourceType with
      | Some existing => <[resourceType := resource.Add existing quantity]> total
      | None => <[resourceType := quantity]> total
      end
  | None => total
  end.

(** [getCurrentResources]. *)
Definition getCurrentResources (pod : corev1.Pod) : corev1.ResourceRequirements :=
  let totals :=
    foldl
      (fun (totals : corev1.ResourceList * corev1.ResourceList) container =>
         let res := corev1.Resources container in
         let totalRequests :=
           addResourceToTotal
             (addResourceToTotal totals.1 (corev1.Requests res) corev1.ResourceCPU)
             (corev1.Requests res) corev1.ResourceMemory in
         let totalLimits :=
           addResourceToTotal
             (addResourceToTotal totals.2 (corev1.Limits res) corev1.ResourceCPU)
             (corev1.Limits res) corev1.ResourceMemory in
         (totalRequests, totalLimits))
      (∅, ∅) (corev1.Containers pod) in
  {| corev1.Requests := totals.1; corev1.Limits := totals.2 |}.

(** [resourcesEqual]. *)
Definition resourceListEqual (a b : corev1.ResourceList) : bool :=
  (Z.of_nat (size a) =? Z.of_nat (size b))%Z
  && forallb
       (fun entry : string * resource.Quantity =>
          match b !! entry.1 with
          | Some bQuantity => resource.Equal entry.2 bQuantity
          | None => false
          end)
       (map_to_list a).

Definition resourcesEqual (a b : corev1.ResourceRequirements) : bool :=
  resourceListEqual (corev1.Requests a) (corev1.Requests b)
  && resourceListEqual (corev1.Limits a) (corev1.Limits b).

(** [updateContainerResources]: the containers after the update and whether
    any of them changed. *)
Definition updateContainerResources (containers : list corev1.Container)
    (resources : corev1.ResourceRequirements) : list corev1.Container * bool :=
  (map (fun container =>
          if resourcesEqual (corev1.Resources container) resources then container
          else corev1.mkContainer (corev1.ContainerName container) resources)
     containers,
   existsb (fun container =>
              negb (resourcesEqual (corev1.Resources container) resources))
     containers).

(** [updateDeployment], [updateStatefulSet] and [updateDaemonSet] (the
    latter two through [updateWorkloadResources]) run the same steps. *)
Definition updateWorkload (kind namespace name : string)
    (resources : corev1.ResourceRequirements) : M (Z * option error) :=
  got ← GetWorkloadNamed kind (namespace, name);
  match got with
  | Err err => mret (0%Z, Some (GetWorkloadFailed kind namespace name err))
  | Ok obj =>
      let (containers, updated) :=
        updateContainerResources (appsv1.TemplateContainers obj) resources in
      if negb updated then mret (0%Z, None)
      else
        written ← UpdateWorkloadNamed kind
                     (appsv1.mkWorkload (appsv1.WorkloadMeta obj) containers);
        match written with
        | Err err => mret (0%Z, Some (UpdateWorkloadFailed kind namespace name err))
        | Ok _ => mret (1%Z, None)
        end
  end.

Definition updateDeployment := updateWorkload WorkloadTypeDeployment.
Definition updateStatefulSet := updateWorkload WorkloadTypeStatefulSet.
Definition updateDaemonSet := updateWorkload WorkloadTypeDaemonSet.

(** [calculateAverageRecommendation]: the first recommendation stands for
    the workload. *)
Definition calculateAverageRecommendation
    (recommendations : list v1alpha1.PodRecommendation) : corev1.ResourceRequirements :=
  match recommendations with
  | [] => corev1.mkResourceRequirements ∅ ∅
  | first :: _ => v1alpha1.RecommendedResources first
  end.

(** [applyWorkloadRecommendations]. *)
Definition applyWorkloadRecommendations (prs : v1alpha1.PodRightSizing)
    (key : string) (recommendations : list v1alpha1.PodRecommendation)
  : M (Z * option error) :=
  if bool_decide (v1alpha1.Strategy (v1alpha1.Policy (v1alpha1.Spec prs))
                  = v1alpha1.UpdateStrategyManual)
  then mret (0%Z, None)
  else if (len recommendations =? 0)%Z then mret (0%Z, None)
  else
    match splitWorkloadKey key with
    | [namespace; workloadType; workloadName] =>
        let avgRecommendation := calculateAverageRecommendation recommendations in
        if metav1.eqs workloadType "Deployment" then
          updateDeployment namespace workloadName avgRecommendation
        else if metav1.eqs workloadType "StatefulSet" then
          updateStatefulSet namespace workloadName avgRecommendation
        else if metav1.eqs workloadType "DaemonSet" then
          updateDaemonSet namespace workloadName avgRecommendation
        else mret (0%Z, None)
    | _ => mret (0%Z, Some (InvalidWorkloadKey key))
    end.

(** The grouping loop of [applyRecommendations]. *)
Definition groupRecommendations (recommendations : list v1alpha1.PodRecommendation)
  : gmap string (list v1alpha1.PodRecommendation) :=
  foldl
    (fun groups rec =>
       let ref := v1alpha1.PodRef rec in
       let key :=
         workloadKey (v1alpha1.Namespace ref) (v1alpha1.WorkloadType ref)
           (v1alpha1.WorkloadName ref) in
       <[key := default [] (groups !! key) ++ [rec]]> groups)
    ∅ recommendations.

(** The applying loop of [applyRecommendations]: failures are logged and
    passed over. *)
Fixpoint applyEach (prs : v1alpha1.PodRightSizing)
    (groups : list (string * list v1alpha1.PodRecommendation)) (updatedCount : Z)
  : M Z :=
  match groups with
  | [] => mret updatedCount
  | (key, workloadRecs) :: groups' =>
      '(updated, err) ← applyWorkloadRecommendations prs key workloadRecs;
      match err with
      | Some _ => applyEach prs groups' updatedCount
      | None => applyEach prs groups' (updatedCount + updated)%Z
      end
  end.

Definition applyRecommendations (prs : v1alpha1.PodRightSizing)
    (recommendations : list v1alpha1.PodRecommendation) : M Z :=
  applyEach prs (map_to_list (groupRecommendations recommendations)) 0%Z.

(** [updatePhase]: one status write; the caller's object keeps the new
    phase and message whether or not the write went through. *)
Definition updatePhase (prs : v1alpha1.PodRightSizing)
    (phase : v1alpha1.RightSizingPhase) (message : string)
  : M (v1alpha1.PodRightSizing * option error) :=
  let st := v1alpha1.Status prs in
  let prs :=
    withStatus
      (v1alpha1.mkPodRightSizingStatus phase message
         (v1alpha1.LastAnalysisTime st) (v1alpha1.LastUpdateTime st)
         (v1alpha1.TargetedPods st) (v1alpha1.UpdatedPods st)
         (v1alpha1.Recommendations st)) prs in
  written ← StatusUpdate prs;
  match written with
  | Ok prs' => mret (prs', None)
  | Err err => mret (prs, Some (APIFailure err))
  end.

Section Reconciler.

(** [math.Sqrt] and [time.ParseDuration]. *)
Variable Sqrt : Q -> Q.
Variable ParseDuration : string -> option Z.

(** [shouldRunAnalysis]. *)
Definition shouldRunAnalysis (now : Z) (prs : v1alpha1.PodRightSizing) : bool :=
  match v1alpha1.LastAnalysisTime (v1alpha1.Status prs) with
  | None => true
  | Some last =>
      let window := v1alpha1.AnalysisWindow (v1alpha1.Spec prs) in
      let interval :=
        if negb (metav1.eqs window "") then
          match ParseDuration window with
          | Some d => if (d <? 24 * Hour)%Z then Hour else (d ÷ 24)%Z
          | None => (24 * Hour)%Z
          end
        else (24 * Hour)%Z in
      (interval <=? now - last)%Z
  end.

(** [requeueAfter]. *)
Definition requeueAfter (prs : v1alpha1.PodRightSizing) : Result :=
  let window := v1alpha1.AnalysisWindow (v1alpha1.Spec prs) in
  let interval :=
    if negb (metav1.eqs window "") then
      match ParseDuration window with
      | Some d => if (24 * Hour <=? d)%Z then (24 * Hour)%Z else Hour
      | None => Hour
      end
    else Hour in
  mkResult interval.

(** The last loop of [generateWorkloadRecommendations]: name the workload
    and attach the current resources of the pod of the same name. *)
Definition enhance (workloadType workloadName : string) (pods : list corev1.Pod)
    (rec : v1alpha1.PodRecommendation) : v1alpha1.PodRecommendation :=
  let ref := v1alpha1.PodRef rec in
  let ref :=
    v1alpha1.mkPodReference (v1alpha1.Name ref) (v1alpha1.Namespace ref)
      workloadType workloadName in
  let current :=
    match
      List.find (fun pod => metav1.eqs (metav1.Name (corev1.PodMeta pod)) (v1alpha1.Name ref))
        pods
    with
    | Some pod => getCurrentResources pod
    | None => v1alpha1.CurrentResources rec
    end in
  v1alpha1.mkPodRecommendation ref current (v1alpha1.RecommendedResources rec)
    (v1alpha1.Reason rec) (v1alpha1.Confidence rec) (v1alpha1.Applied rec).

(** [generateWorkloadRecommendations]. *)
Definition generateWorkloadRecommendations (r : PodRightSizingReconciler)
    (prs : v1alpha1.PodRightSizing) (key : string) (pods : list corev1.Pod)
  : result error (list v1alpha1.PodRecommendation) :=
  match splitWorkloadKey key with
  | [namespace; workloadType; workloadName] =>
      let window :=
        match ParseDuration (v1alpha1.AnalysisWindow (v1alpha1.Spec prs)) with
        | Some d => d
        | None => (7 * 24 * Hour)%Z
        end in
      match MetricsClient r namespace workloadName workloadType window with
      | Err message => Err (MetricsFailure message)
      | Ok workloadMetrics =>
          if (len (metrics.Pods workloadMetrics) =? 0)%Z then Err (NoMetricsFound key)
          else
            match
              analyzer.GenerateRecommendations Sqrt (RecommendEngine r) workloadMetrics
                (v1alpha1.Thresholds (v1alpha1.Spec prs))
            with
            | Err err => Err (EngineFailure err)
            | Ok recommendations =>
                Ok (map (enhance workloadType workloadName pods) recommendations)
            end
      end
  | _ => Err (InvalidWorkloadKey key)
  end.

(** The loop of [Reconcile] over the workload groups: a workload whose
    recommendations cannot be generated is logged and passed over. Go ranges
    over a map in an order it does not specify; [Reconcile] below hands the
    groups over in the order of [map_to_list]. *)
Definition recommendAll (r : PodRightSizingReconciler) (prs : v1alpha1.PodRightSizing)
    (workloadGroups : list (string * list corev1.Pod))
  : list v1alpha1.PodRecommendation :=
  foldl
    (fun allRecommendations group =>
       match generateWorkloadRecommendations r prs group.1 group.2 with
       | Err _ => allRecommendations
       | Ok recommendations => allRecommendations ++ recommendations
       end)
    [] workloadGroups.

(** The end of [Reconcile]: the final status write. *)
Definition complete (prs : v1alpha1.PodRightSizing)
    (allRecommendations : list v1alpha1.PodRecommendation)
  : M (Result * option error) :=
  let message :=
    "Analysis completed. Found " +:+ pretty (len allRecommendations)
    +:+ " recommendations" in
  let message :=
    if v1alpha1.DryRun (v1alpha1.Spec prs) then message +:+ " (dry-run mode)"
    else message in
  '(prs, err) ← updatePhase prs v1alpha1.PhaseCompleted message;
  match err with
  | Some err => mret (noRequeue, Some err)
  | None => mret (requeueAfter prs, None)
  end.

(** [Reconcile]. *)
Definition Reconcile (r : PodRightSizingReconciler) (req : NamespacedName)
  : M (Result * option error) :=
  got ← Get req;
  match got with
  | Err err =>
      if IsNotFound err then mret (noRequeue, None)
      else mret (noRequeue, Some (APIFailure err))
  | Ok podRightSizing =>
  now ← Now;
  if negb (shouldRunAnalysis now podRightSizing)
  then mret (requeueAfter podRightSizing, None)
  else
  '(podRightSizing, err) ←
    updatePhase podRightSizing v1alpha1.PhaseAnalyzing "Starting resource analysis";
  match err with
  | Some err => mret (noRequeue, Some err)
  | None =>
  discovered ← discoverTargetPods podRightSizing;
  match discovered with
  | Err err =>
      _ ← updatePhase podRightSizing v1alpha1.PhaseError
             ("Failed to discover pods: " +:+ Error err);
      mret (mkResult (5 * Minute), Some err)
  | Ok targetPods =>
  if (MaxInt32 <? len targetPods)%Z
  then mret (noRequeue, Some (TooManyTargetPods (len targetPods)))
  else
  let st := v1alpha1.Status podRightSizing in
  let podRightSizing :=
    withStatus
      (v1alpha1.mkPodRightSizingStatus (v1alpha1.Phase st) (v1alpha1.Message st)
         (v1alpha1.LastAnalysisTime st) (v1alpha1.LastUpdateTime st)
         (len targetPods) (v1alpha1.UpdatedPods st) (v1alpha1.Recommendations st))
      podRightSizing in
  if (len targetPods =? 0)%Z then
    '(podRightSizing, err) ←
      updatePhase podRightSizing v1alpha1.PhaseCompleted "No matching pods found";
    match err with
    | Some err => mret (noRequeue, Some err)
    | None => mret (requeueAfter podRightSizing, None)
    end
  else
  workloadGroups ← groupPodsByWorkload targetPods;
  '(podRightSizing, err) ←
    updatePhase podRightSizing v1alpha1.PhaseRecommending "Generating recommendations";
  match err with
  | Some err => mret (noRequeue, Some err)
  | None =>
  let allRecommendations :=
    recommendAll r podRightSizing (map_to_list workloadGroups) in
  now ← Now;
  let st := v1alpha1.Status podRightSizing in
  let podRightSizing :=
    withStatus
      (v1alpha1.mkPodRightSizingStatus (v1alpha1.Phase st) (v1alpha1.Message st)
         (Some now) (v1alpha1.LastUpdateTime st)
         (v1alpha1.TargetedPods st) (v1alpha1.UpdatedPods st) allRecommendations)
      podRightSizing in
  if negb (v1alpha1.DryRun (v1alpha1.Spec podRightSizing)) then
    '(podRightSizing, err) ←
      updatePhase podRightSizing v1alpha1.PhaseUpdating "Applying recommendations";
    match err with
    | Some err => mret (noRequeue, Some err)
    | None =>
    updatedCount ← applyRecommendations podRightSizing allRecommendations;
    if (MaxInt32 <? updatedCount)%Z
    then mret (noRequeue, Some (TooManyUpdatedPods updatedCount))
    else
    now ← Now;
    let st := v1alpha1.Status podRightSizing in
    let podRightSizing :=
      withStatus
        (v1alpha1.mkPodRightSizingStatus (v1alpha1.Phase st) (v1alpha1.Message st)
           (v1alpha1.LastAnalysisTime st) (Some now)
           (v1alpha1.TargetedPods st) updatedCount (v1alpha1.Recommendations st))
        podRightSizing in
    complete podRightSizing allRecommendations
    end
  else complete podRightSizing allRecommendations
  end
  end
  end
  end.

End Reconciler.

End controller.

(** * Properties *)

(** ** Facts about the arithmetic *)

Module Float64_facts.

Import Float64.
Local Open Scope Q_scope.

Lemma ltb_lt x y : ltb x y = true <-> x < y.
Proof.
  unfold ltb. rewrite negb_true_iff, <- not_true_iff_false, Qle_bool_iff.
  split; [apply Qnot_le_lt | apply Qlt_not_le].
Qed.

Lemma ltb_ge x y : ltb x y = false <-> y <= x.
Proof.
  unfold ltb. rewrite negb_false_iff. apply Qle_bool_iff.
Qed.

Lemma leb_le x y : leb x y = true <-> x <= y.
Proof. apply Qle_bool_iff. Qed.

Lemma leb_gt x y : leb x y = false <-> y < x.
Proof.
  unfold leb. rewrite <- not_true_iff_false, Qle_bool_iff.
  split; [apply Qnot_le_lt | apply Qlt_not_le].
Qed.

Lemma to_int_of_int n : to_int (of_int n) = n.
Proof. unfold to_int, of_int; simpl. apply Z.quot_1_r. Qed.

(** Truncation agrees with the floor on non-negative numbers. *)
Lemma to_int_nonneg x : 0 <= x -> to_int x = Qfloor x.
Proof.
  destruct x as [n d]; unfold to_int, Qfloor, Qle; simpl; intros H.
  apply Z.quot_div_nonneg; lia.
Qed.

Lemma to_int_nonpos x : x <= 0 -> (to_int x <= 0)%Z.
Proof.
  destruct x as [n d]; unfold to_int, Qle; simpl; intros H.
  assert (n <= 0)%Z by lia.
  rewrite <- (Z.opp_involutive n), Z.quot_opp_l by lia.
  assert (0 <= Z.quot (- n) (Z.pos d))%Z by (apply Z.quot_pos; lia).
  lia.
Qed.


Lemma to_int_opp x : to_int x = Z.opp (to_int (- x)).
Proof.
  destruct x as [n d]; unfold to_int; simpl.
  rewrite Z.quot_opp_l by discriminate. lia.
Qed.


(** On a non-positive number truncation rounds up. *)
Lemma to_int_ge_nonpos x : x <= 0 -> x <= of_int (to_int x).
Proof.
  intros H. rewrite (to_int_opp x), to_int_nonneg by lra.
  unfold of_int. rewrite inject_Z_opp.
  pose proof (Qfloor_le (- x)). lra.
Qed.

End Float64_facts.

Module sort_facts.

Import sort.

Lemma insert_perm x s : Permutation (x :: s) (insert x s).
Proof.
  induction s as [|y s IH]; simpl; [reflexivity|].
  destruct (Qle_bool x y); [reflexivity|].
  rewrite perm_swap. constructor. exact IH.
Qed.

Lemma Float64s_perm s : Permutation s (Float64s s).
Proof.
  induction s as [|x s IH]; simpl; [constructor|].
  rewrite <- insert_perm. constructor. exact IH.
Qed.

Lemma insert_sorted x s :
  StronglySorted Qle s -> StronglySorted Qle (insert x s).
Proof.
  induction 1 as [|y s Hs IH Hy]; simpl.
  - repeat constructor.
  - destruct (Qle_bool x y) eqn:E.
    + apply Qle_bool_iff in E. constructor; [constructor; assumption|].
      constructor; [exact E|].
      eapply Forall_impl; [exact Hy|]. intros z Hz. eapply Qle_trans; eassumption.
    + apply Float64_facts.leb_gt in E. constructor; [exact IH|].
      apply (Permutation_Forall (insert_perm x s)).
      constructor; [apply Qlt_le_weak, E | exact Hy].
Qed.

Lemma Float64s_sorted s : StronglySorted Qle (Float64s s).
Proof.
  induction s as [|x s IH]; simpl; [constructor | apply insert_sorted, IH].
Qed.

End sort_facts.

Module resource_facts.

Import resource.
Local Open Scope Q_scope.



End resource_facts.

Module stats_facts.

Import Float64 Float64_facts stats.
Local Open Scope Q_scope.

Lemma foldr_min_le x s : foldr Qmin x s <= x /\ Forall (Qle (foldr Qmin x s)) s.
Proof.
  induction s as [|y s [IH1 IH2]]; simpl; [split; [apply Qle_refl | constructor]|].
  split; [eapply Qle_trans; [apply Q.le_min_r | exact IH1]|].
  constructor; [apply Q.le_min_l|].
  eapply Forall_impl; [exact IH2|]. intros z Hz.
  eapply Qle_trans; [apply Q.le_min_r | exact Hz].
Qed.

Lemma foldr_max_ge x s : x <= foldr Qmax x s /\ Forall (fun y => y <= foldr Qmax x s) s.
Proof.
  induction s as [|y s [IH1 IH2]]; simpl; [split; [apply Qle_refl | constructor]|].
  split; [eapply Qle_trans; [exact IH1 | apply Q.le_max_r]|].
  constructor; [apply Q.le_max_l|].
  eapply Forall_impl; [exact IH2|]. intros z Hz. simpl in Hz.
  eapply Qle_trans; [exact Hz | apply Q.le_max_r].
Qed.

Lemma list_min_le s : Forall (Qle (list_min s)) s.
Proof.
  destruct s as [|x s]; [constructor|]. simpl.
  destruct (foldr_min_le x s). constructor; assumption.
Qed.

Lemma list_max_ge s : Forall (fun y => y <= list_max s) s.
Proof.
  destruct s as [|x s]; [constructor|]. simpl.
  destruct (foldr_max_ge x s). constructor; assumption.
Qed.

(** The extrema are elements of the sample. *)
Lemma Qmin_cases (a b : Q) : Qmin a b = a \/ Qmin a b = b.
Proof. unfold Qmin, GenericMinMax.gmin. destruct (a ?= b); auto. Qed.

Lemma Qmax_cases (a b : Q) : Qmax a b = a \/ Qmax a b = b.
Proof. unfold Qmax, GenericMinMax.gmax. destruct (a ?= b); auto. Qed.

Lemma foldr_min_in x s : In (foldr Qmin x s) (x :: s).
Proof.
  induction s as [|y s IH]; [left; reflexivity|].
  change (foldr Qmin x (y :: s)) with (Qmin y (foldr Qmin x s)).
  destruct (Qmin_cases y (foldr Qmin x s)) as [E|E]; rewrite E.
  - right; left; reflexivity.
  - destruct IH as [IH|IH]; [left; exact IH | right; right; exact IH].
Qed.

Lemma foldr_max_in x s : In (foldr Qmax x s) (x :: s).
Proof.
  induction s as [|y s IH]; [left; reflexivity|].
  change (foldr Qmax x (y :: s)) with (Qmax y (foldr Qmax x s)).
  destruct (Qmax_cases y (foldr Qmax x s)) as [E|E]; rewrite E.
  - right; left; reflexivity.
  - destruct IH as [IH|IH]; [left; exact IH | right; right; exact IH].
Qed.

(** An in-range element lies between the extrema. *)
Lemma at_index_range (s : list Q) (i : Z) :
  (0 <= i < len s)%Z -> list_min s <= at_index s i <= list_max s.
Proof.
  intros Hi. unfold at_index, len in *.
  assert (Hin : In (nth (Z.to_nat i) s 0) s) by (apply nth_In; lia).
  pose proof (list_min_le s) as Hmin. pose proof (list_max_ge s) as Hmax.
  rewrite List.Forall_forall in Hmin, Hmax. split; auto.
Qed.

(** On an ascending sample the first element is the least one and the
    last element the greatest one. *)
Lemma sorted_first_min (s : list Q) :
  s <> [] -> Sorted Qle s -> at_index s 0 == list_min s.
Proof.
  intros Hne Hs. apply Sorted_StronglySorted in Hs; [|intros a b c; apply Qle_trans].
  destruct s as [|x s]; [congruence|]. unfold at_index; simpl.
  apply StronglySorted_inv in Hs as [_ Hx].
  apply Qle_antisym; [|apply foldr_min_le].
  pose proof (foldr_min_in x s) as Hin. rewrite List.Forall_forall in Hx.
  destruct Hin as [<-|Hin]; [apply Qle_refl | apply Hx, Hin].
Qed.

Lemma sorted_nth_le (s : list Q) (i j : nat) :
  StronglySorted Qle s -> (i <= j < length s)%nat -> nth i s 0 <= nth j s 0.
Proof.
  intros Hs. revert i j. induction Hs as [|x s Hs IH Hx]; intros i j Hij.
  - simpl in Hij; lia.
  - destruct i as [|i], j as [|j]; simpl in *; try lia.
    + apply Qle_refl.
    + rewrite List.Forall_forall in Hx. apply Hx, nth_In. lia.
    + apply IH. lia.
Qed.

Lemma sorted_last_max (s : list Q) :
  s <> [] -> Sorted Qle s -> at_index s (len s - 1) == list_max s.
Proof.
  intros Hne Hs. apply Sorted_StronglySorted in Hs; [|intros a b c; apply Qle_trans].
  assert (Hlen : (0 < length s)%nat) by (destruct s; [congruence | simpl; lia]).
  apply Qle_antisym.
  - apply at_index_range. unfold len; lia.
  - unfold at_index, len.
    assert (Hin : In (list_max s) s).
    { destruct s as [|x s]; [congruence | apply foldr_max_in]. }
    apply In_nth with (d := 0) in Hin as (j & Hj & <-).
    apply sorted_nth_le; [exact Hs | lia].
Qed.

(** Floor and ceiling of a rational: equal exactly on the integers, one
    apart elsewhere. *)
Lemma floor_ceiling_cases (x : Q) :
  (x == inject_Z (Qfloor x) /\ Qceiling x = Qfloor x)
  \/ (~ x == inject_Z (Qfloor x) /\ Qceiling x = (Qfloor x + 1)%Z).
Proof.
  pose proof (Qfloor_le x) as H1. pose proof (Qlt_floor x) as H2.
  pose proof (Qle_ceiling x) as H3. pose proof (Qceiling_lt x) as H4.
  rewrite inject_Z_plus in H2.
  unfold Zminus in H4. rewrite inject_Z_plus, inject_Z_opp in H4.
  change (inject_Z 1) with 1 in *.
  destruct (Qeq_dec x (inject_Z (Qfloor x))) as [E|E]; [left | right]; split; trivial.
  - assert (Hc : inject_Z (Qceiling x) < inject_Z (Qfloor x) + 1) by lra.
    assert (Hf : inject_Z (Qfloor x) <= inject_Z (Qceiling x)) by lra.
    rewrite <- (inject_Z_plus _ 1), <- Zlt_Qlt in Hc. rewrite <- Zle_Qle in Hf. lia.
  - assert (Hc : inject_Z (Qceiling x) < inject_Z (Qfloor x) + 1 + 1) by lra.
    assert (Hf : inject_Z (Qfloor x) < inject_Z (Qceiling x)) by lra.
    rewrite <- !(inject_Z_plus _ 1), <- Zlt_Qlt in Hc. rewrite <- Zlt_Qlt in Hf. lia.
Qed.

(** A weighted mean of two numbers lies between them. *)
Lemma interpolation_range (a b w m M : Q) :
  0 <= w <= 1 -> m <= a <= M -> m <= b <= M ->
  m <= a * (1 - w) + b * w <= M.
Proof.
  intros [Hw0 Hw1] [Ha1 Ha2] [Hb1 Hb2].
  assert (H1 : 0 <= (a - m) * (1 - w)) by (apply Qmult_le_0_compat; lra).
  assert (H2 : 0 <= (b - m) * w) by (apply Qmult_le_0_compat; lra).
  assert (H3 : 0 <= (M - a) * (1 - w)) by (apply Qmult_le_0_compat; lra).
  assert (H4 : 0 <= (M - b) * w) by (apply Qmult_le_0_compat; lra).
  split; lra.
Qed.

End stats_facts.

(** ** The recommendation engine *)

Module engine_facts.

Import Float64 Float64_facts stats stats_facts analyzer.
Local Open Scope Q_scope.

Lemma len_pos {A} (s : list A) : s <> [] -> (0 < len s)%Z.
Proof. destruct s; [congruence | unfold len; simpl; lia]. Qed.

(** The three branches of [calculatePercentile] on a non-empty sample. *)
Lemma calculatePercentile_low (s : list Q) (p : Q) :
  s <> [] -> p <= 0 -> calculatePercentile s p = at_index s 0.
Proof.
  intros Hne Hp. unfold calculatePercentile.
  pose proof (len_pos s Hne). destruct (Z.eqb_spec (len s) 0); [lia|].
  apply leb_le in Hp. rewrite Hp. reflexivity.
Qed.

Lemma calculatePercentile_high (s : list Q) (p : Q) :
  s <> [] -> 100 <= p -> calculatePercentile s p = at_index s (len s - 1).
Proof.
  intros Hne Hp. unfold calculatePercentile.
  pose proof (len_pos s Hne). destruct (Z.eqb_spec (len s) 0); [lia|].
  assert (Hlow : leb p 0 = false) by (apply leb_gt; lra).
  apply leb_le in Hp. rewrite Hlow, Hp. reflexivity.
Qed.

Lemma calculatePercentile_mid (s : list Q) (p : Q) :
  s <> [] -> 0 < p < 100 ->
  let index := p / 100 * inject_Z (len s - 1) in
  calculatePercentile s p =
    if (Qfloor index =? Qceiling index)%Z then at_index s (Qfloor index)
    else at_index s (Qfloor index) * (1 - (index - inject_Z (Qfloor index)))
         + at_index s (Qceiling index) * (index - inject_Z (Qfloor index)).
Proof.
  intros Hne [Hp0 Hp1] index. unfold calculatePercentile.
  pose proof (len_pos s Hne). destruct (Z.eqb_spec (len s) 0); [lia|].
  assert (Hlow : leb p 0 = false) by (apply leb_gt; lra).
  assert (Hhigh : leb 100 p = false) by (apply leb_gt; lra).
  rewrite Hlow, Hhigh. cbv zeta. unfold Floor, Ceil. rewrite !to_int_of_int.
  reflexivity.
Qed.

(** Between the end points the fractional index stays inside the sample. *)
Lemma percentile_index_range (s : list Q) (p : Q) :
  s <> [] -> 0 < p < 100 ->
  let index := p / 100 * inject_Z (len s - 1) in
  0 <= index <= inject_Z (len s - 1)
  /\ (0 <= Qfloor index)%Z /\ (Qceiling index <= len s - 1)%Z
  /\ (Qfloor index <= Qceiling index)%Z.
Proof.
  intros Hne [Hp0 Hp1] index. pose proof (len_pos s Hne) as Hlen.
  assert (Hk : 0 <= inject_Z (len s - 1)).
  { change 0 with (inject_Z 0). rewrite <- Zle_Qle. lia. }
  assert (Hdiv : p / 100 == p * (1 # 100)) by reflexivity.
  assert (Ht : 0 <= p / 100 <= 1) by (rewrite Hdiv; split; lra).
  assert (H0 : 0 <= index) by (apply Qmult_le_0_compat; tauto).
  assert (H1 : 0 <= (1 - p / 100) * inject_Z (len s - 1))
    by (apply Qmult_le_0_compat; [lra | exact Hk]).
  assert (H2 : index <= inject_Z (len s - 1)).
  { unfold index. set (t := p / 100) in *. set (k := inject_Z (len s - 1)) in *.
    assert (E : (1 - t) * k == k - t * k) by ring. lra. }
  repeat split; trivial.
  - change 0%Z with (Qfloor 0). apply Qfloor_resp_le, H0.
  - rewrite <- (Qceiling_Z (len s - 1)). apply Qceiling_resp_le, H2.
  - rewrite Zle_Qle. eapply Qle_trans; [apply Qfloor_le | apply Qle_ceiling].
Qed.

(** The percentile never leaves the range of the sample, sorted or not. *)
Lemma calculatePercentile_range (s : list Q) (p : Q) :
  s <> [] -> list_min s <= calculatePercentile s p <= list_max s.
Proof.
  intros Hne. pose proof (len_pos s Hne) as Hlen.
  destruct (Qlt_le_dec 0 p) as [Hp0|Hp0];
    [destruct (Qlt_le_dec p 100) as [Hp1|Hp1]|].
  - rewrite calculatePercentile_mid by (trivial; split; trivial). cbv zeta.
    destruct (percentile_index_range s p Hne (conj Hp0 Hp1)) as (_ & Hf & Hc & Hfc).
    set (index := p / 100 * inject_Z (len s - 1)) in *.
    destruct (Z.eqb_spec (Qfloor index) (Qceiling index)) as [E|E].
    + apply at_index_range. lia.
    + apply interpolation_range; try (apply at_index_range; lia).
      pose proof (Qfloor_le index). pose proof (Qlt_floor index) as Hlt.
      rewrite inject_Z_plus in Hlt. change (inject_Z 1) with 1 in Hlt.
      split; lra.
  - rewrite calculatePercentile_high by trivial. apply at_index_range. lia.
  - rewrite calculatePercentile_low by trivial. apply at_index_range. lia.
Qed.

(** Division by the constants of the confidence formula. *)
Lemma div_half (x : Q) : x / 0.5 == x * 2.
Proof. unfold Qdiv. assert (E : / 0.5 == 2) by reflexivity. rewrite E. reflexivity. Qed.

Lemma div_fifth (x : Q) : x / 0.2 == x * 5.
Proof. unfold Qdiv. assert (E : / 0.2 == 5) by reflexivity. rewrite E. reflexivity. Qed.

Lemma div_hundred (x : Q) : x / 100 == x * (1 # 100).
Proof. reflexivity. Qed.

Lemma Min_Qmin (x y : Q) : Min x y = Qmin x y.
Proof.
  unfold Min, Qmin, GenericMinMax.gmin, Qle_bool.
  rewrite Z.leb_compare. unfold Qcompare. destruct (_ ?= _)%Z; reflexivity.
Qed.

(** The coefficient of variation as [calculateConfidence] computes it. *)
Definition cv_of (Sqrt : Q -> Q) (values : list Q) : Q :=
  let mean := calculateMean values in
  if ltb 0 mean then calculateStandardDeviation Sqrt values mean / mean else 0.

(** The score before the boost: the argument of each [int(...)] is
    non-negative, so truncation is the floor, and the score stays in
    [[30,100]]. *)
Lemma confidence_of_cv_trunc (cv : Q) :
  (if ltb 0.5 cv then (30 + to_int (20 * (1 - Min (cv - 0.5) 0.5 / 0.5))%Q)%Z
   else if ltb 0.3 cv then (70 + to_int (25 * (1 - (cv - 0.3) / 0.2))%Q)%Z
   else if ltb 0.1 cv then (95 + to_int (5 * (1 - (cv - 0.1) / 0.2))%Q)%Z
   else 100%Z)
  = design.confidence_of_cv cv.
Proof.
  unfold design.confidence_of_cv. rewrite Min_Qmin.
  destruct (ltb 0.5 cv) eqn:E1; [|destruct (ltb 0.3 cv) eqn:E2;
    [|destruct (ltb 0.1 cv) eqn:E3]]; trivial; f_equal; apply to_int_nonneg.
  - pose proof (Q.le_min_r (cv - 0.5) 0.5). rewrite div_half. lra.
  - apply ltb_ge in E1. rewrite div_fifth. lra.
  - apply ltb_ge in E2. rewrite div_fifth. lra.
Qed.

Lemma confidence_of_cv_range (cv : Q) :
  (30 <= design.confidence_of_cv cv <= 100)%Z.
Proof.
  unfold design.confidence_of_cv.
  destruct (ltb 0.5 cv) eqn:E1; [|destruct (ltb 0.3 cv) eqn:E2;
    [|destruct (ltb 0.1 cv) eqn:E3]]; [| | |lia].
  - apply ltb_lt in E1.
    pose proof (Q.le_min_r (cv - 0.5) 0.5) as Hm.
    assert (Hm0 : 0 <= Qmin (cv - 0.5) 0.5) by (apply Q.min_glb; lra).
    set (x := 20 * (1 - Qmin (cv - 0.5) 0.5 / 0.5)).
    assert (Hx : 0 <= x <= 20) by (unfold x; rewrite div_half; split; lra).
    pose proof (Qfloor_resp_le _ _ (proj1 Hx)) as H0.
    pose proof (Qfloor_resp_le _ _ (proj2 Hx)) as H1.
    change (Qfloor 0) with 0%Z in H0. change (Qfloor 20) with 20%Z in H1. lia.
  - apply ltb_ge in E1. apply ltb_lt in E2.
    set (x := 25 * (1 - (cv - 0.3) / 0.2)).
    assert (Hx : 0 <= x <= 25) by (unfold x; rewrite div_fifth; split; lra).
    pose proof (Qfloor_resp_le _ _ (proj1 Hx)) as H0.
    pose proof (Qfloor_resp_le _ _ (proj2 Hx)) as H1.
    change (Qfloor 0) with 0%Z in H0. change (Qfloor 25) with 25%Z in H1. lia.
  - apply ltb_ge in E2. apply ltb_lt in E3.
    set (x := 5 * (1 - (cv - 0.1) / 0.2)).
    assert (Hx : 0 <= x <= 5) by (unfold x; rewrite div_fifth; split; lra).
    pose proof (Qfloor_resp_le _ _ (proj1 Hx)) as H0.
    pose proof (Qfloor_resp_le _ _ (proj2 Hx)) as H1.
    change (Qfloor 0) with 0%Z in H0. change (Qfloor 5) with 5%Z in H1. lia.
Qed.

(** The boost: [int(math.Min(c * (1 + b), 100))] is the floor capped at 100
    and stays in [[0,100]] for a non-negative score. *)
Lemma boost_trunc (c n : Z) :
  (0 <= c)%Z -> (0 <= n)%Z ->
  to_int (Min (of_int c * (1 + Min (of_int n / 100) 0.1)) 100) = design.boosted c n
  /\ (0 <= design.boosted c n <= 100)%Z.
Proof.
  intros Hc Hn. unfold design.boosted, of_int. rewrite !Min_Qmin.
  set (b := Qmin (inject_Z n / 100) 0.1).
  assert (Hb : 0 <= b <= 0.1).
  { split; [|apply Q.le_min_r]. apply Q.min_glb; [|lra].
    rewrite div_hundred. assert (0 <= inject_Z n)
      by (change 0 with (inject_Z 0); rewrite <- Zle_Qle; lia). lra. }
  assert (Hc' : 0 <= inject_Z c)
    by (change 0 with (inject_Z 0); rewrite <- Zle_Qle; lia).
  set (x := inject_Z c * (1 + b)).
  assert (Hx : 0 <= x) by (apply Qmult_le_0_compat; lra).
  assert (Hf : (0 <= Qfloor x)%Z)
    by (change 0%Z with (Qfloor 0); apply Qfloor_resp_le, Hx).
  split; [|lia].
  rewrite to_int_nonneg by (apply Q.min_glb; lra).
  destruct (Qlt_le_dec 100 x) as [Hgt|Hle].
  - rewrite (Q.min_r x 100) by lra. change (Qfloor 100) with 100%Z.
    assert (100 <= Qfloor x)%Z
      by (change 100%Z with (Qfloor 100); apply Qfloor_resp_le; lra). lia.
  - rewrite (Q.min_l x 100) by exact Hle.
    assert (Qfloor x <= 100)%Z
      by (change 100%Z with (Qfloor 100); apply Qfloor_resp_le; lra). lia.
Qed.

Lemma calculateConfidence_unfold (Sqrt : Q -> Q) (values : list Q) (pv : Q) :
  (2 <= len values)%Z ->
  calculateConfidence Sqrt values pv
  = design.boosted (design.confidence_of_cv (cv_of Sqrt values)) (len values).
Proof.
  intros Hn. unfold calculateConfidence.
  destruct (Z.ltb_spec (len values) 2); [lia|]. cbv zeta.
  fold (cv_of Sqrt values). rewrite confidence_of_cv_trunc.
  apply boost_trunc; [|lia].
  pose proof (confidence_of_cv_range (cv_of Sqrt values)). lia.
Qed.

(** [int(math.Min(float64(a), float64(b)))] is the smaller integer. *)
Lemma to_int_Min_of_int (a b : Z) : to_int (Min (of_int a) (of_int b)) = Z.min a b.
Proof.
  unfold Min. destruct (Qle_bool (of_int a) (of_int b)) eqn:E;
    rewrite to_int_of_int.
  - apply Qle_bool_iff in E. unfold of_int in E. rewrite <- Zle_Qle in E. lia.
  - apply leb_gt in E. unfold of_int in E. rewrite <- Zlt_Qlt in E. lia.
Qed.

(** The recommendations of a workload, pod by pod: what the loop of
    [GenerateRecommendations] appends. *)
Definition kept (Sqrt : Q -> Q) (r : RecommendationEngine)
    (thresholds : v1alpha1.ResourceThresholds) (podMetrics : metrics.PodMetrics)
  : list v1alpha1.PodRecommendation :=
  match generatePodRecommendation Sqrt r podMetrics thresholds with
  | Ok (Some recommendation) => [recommendation]
  | Ok None | Err _ => []
  end.

Lemma GenerateRecommendations_loop (Sqrt : Q -> Q) (r : RecommendationEngine)
    (thresholds : v1alpha1.ResourceThresholds) (pods : list metrics.PodMetrics)
    (acc : list v1alpha1.PodRecommendation) :
  foldl (fun recommendations podMetrics =>
           match generatePodRecommendation Sqrt r podMetrics thresholds with
           | Err _ => recommendations
           | Ok None => recommendations
           | Ok (Some recommendation) => recommendations ++ [recommendation]
           end) acc pods
  = acc ++ flat_map (kept Sqrt r thresholds) pods.
Proof.
  revert acc. induction pods as [|pm pods IH]; intros acc; simpl.
  - rewrite app_nil_r. reflexivity.
  - rewrite IH. unfold kept at 2.
    destruct (generatePodRecommendation Sqrt r pm thresholds) as [[rec|]|e];
      simpl; rewrite <- ?app_assoc; reflexivity.
Qed.

Lemma GenerateRecommendations_nonempty (Sqrt : Q -> Q) (r : RecommendationEngine)
    (wm : metrics.WorkloadMetrics) (thresholds : v1alpha1.ResourceThresholds) :
  metrics.Pods wm <> [] ->
  GenerateRecommendations Sqrt r wm thresholds
  = Ok (flat_map (kept Sqrt r thresholds) (metrics.Pods wm)).
Proof.
  intros Hne. unfold GenerateRecommendations.
  pose proof (len_pos _ Hne). destruct (Z.eqb_spec (len (metrics.Pods wm)) 0); [lia|].
  rewrite GenerateRecommendations_loop. reflexivity.
Qed.

(** The shape of a successful per-pod result. *)
Lemma generatePodRecommendation_inv (Sqrt : Q -> Q) (r : RecommendationEngine)
    (pm : metrics.PodMetrics) (th : v1alpha1.ResourceThresholds)
    (out : option v1alpha1.PodRecommendation) :
  generatePodRecommendation Sqrt r pm th = Ok out ->
  exists cpuRec cc memRec mc,
    analyzeCPUUsage Sqrt r (metrics.CPUUsageHistory pm) th = Ok (cpuRec, cc)
    /\ analyzeMemoryUsage Sqrt r (metrics.MemUsageHistory pm) th = Ok (memRec, mc)
    /\ ((Z.min cc mc < DefaultConfidenceThreshold r)%Z /\ out = None
        \/ (DefaultConfidenceThreshold r <= Z.min cc mc)%Z
           /\ exists rec, out = Some rec /\ v1alpha1.Confidence rec = Z.min cc mc).
Proof.
  unfold generatePodRecommendation.
  destruct (analyzeCPUUsage _ _ _ _) as [[cpuRec cc]|e]; [|discriminate].
  destruct (analyzeMemoryUsage _ _ _ _) as [[memRec mc]|e]; [|discriminate].
  rewrite to_int_Min_of_int. intros H. exists cpuRec, cc, memRec, mc.
  split; [reflexivity|]. split; [reflexivity|].
  destruct (Z.ltb_spec (Z.min cc mc) (DefaultConfidenceThreshold r)).
  - left. split; [assumption | congruence].
  - right. split; [assumption|].
    destruct (Limit cpuRec), (Limit memRec); injection H as <-;
      eexists; (split; [reflexivity|]); reflexivity.
Qed.

(** A successful per-resource analysis always carries a limit, in
    milli-cores for CPU and in bytes for memory. *)
Lemma analyzeCPUUsage_ok (Sqrt : Q -> Q) (r : RecommendationEngine)
    (h : list metrics.ResourceUsage) (th : v1alpha1.ResourceThresholds)
    (rec : ResourceRecommendation) (c : Z) :
  analyzeCPUUsage Sqrt r h th = Ok (rec, c) ->
  (MinDataPoints r <= len h)%Z
  /\ Confidence rec = c
  /\ exists L, Limit rec = Some (resource.NewMilliQuantity L).
Proof.
  unfold analyzeCPUUsage. destruct (Z.ltb_spec (len h) (MinDataPoints r)); [discriminate|].
  intros [= <- <-]. simpl. split; [assumption|]. split; [reflexivity|].
  eexists; reflexivity.
Qed.

Lemma analyzeMemoryUsage_ok (Sqrt : Q -> Q) (r : RecommendationEngine)
    (h : list metrics.ResourceUsage) (th : v1alpha1.ResourceThresholds)
    (rec : ResourceRecommendation) (c : Z) :
  analyzeMemoryUsage Sqrt r h th = Ok (rec, c) ->
  (MinDataPoints r <= len h)%Z
  /\ Confidence rec = c
  /\ exists B, Limit rec = Some (resource.NewQuantity B).
Proof.
  unfold analyzeMemoryUsage. destruct (Z.ltb_spec (len h) (MinDataPoints r)); [discriminate|].
  intros [= <- <-]. simpl. split; [assumption|]. split; [reflexivity|].
  eexists; reflexivity.
Qed.





End engine_facts.

(** ** Claims about the engine *)

Module engine_spec.

Import Float64 Float64_facts stats stats_facts analyzer engine_facts.
Local Open Scope Q_scope.




(** Ten CPU readings close to half a core, as in the repository's test. *)
Definition steady : list Q :=
  [0.5; 0.51; 0.49; 0.52; 0.48; 0.50; 0.51; 0.49; 0.50; 0.51].



(** A recommendation names both resources when it carries a limit and a
    request for CPU and for memory. *)
Definition names_both_resources (rec : v1alpha1.PodRecommendation) : Prop :=
  let res := v1alpha1.RecommendedResources rec in
  is_Some (corev1.Limits res !! corev1.ResourceCPU)
  /\ is_Some (corev1.Requests res !! corev1.ResourceCPU)
  /\ is_Some (corev1.Limits res !! corev1.ResourceMemory)
  /\ is_Some (corev1.Requests res !! corev1.ResourceMemory).

(** C4. For every pod both of whose analyses succeed, the pod-level
    confidence is the smaller of the CPU and the memory confidence; below the
    engine's gate ([DefaultConfidenceThreshold], 70 by default)
    [generatePodRecommendation] returns no recommendation and no error, and at
    or above it the recommendation carries that confidence and names both
    resources.
    So every recommendation the engine emits, per pod or per workload, has
    a confidence at or above the gate and names both resources. *)
Theorem confidence_gate (Sqrt : Q -> Q) (r : RecommendationEngine)
    (th : v1alpha1.ResourceThresholds) :
  DefaultConfidenceThreshold NewRecommendationEngine = 70%Z
  /\ (forall pm cpuRec cc memRec mc,
      analyzeCPUUsage Sqrt r (metrics.CPUUsageHistory pm) th = Ok (cpuRec, cc) ->
      analyzeMemoryUsage Sqrt r (metrics.MemUsageHistory pm) th = Ok (memRec, mc) ->
      ((Z.min cc mc < DefaultConfidenceThreshold r)%Z ->
         generatePodRecommendation Sqrt r pm th = Ok None)
      /\ ((DefaultConfidenceThreshold r <= Z.min cc mc)%Z ->
         exists rec,
           generatePodRecommendation Sqrt r pm th = Ok (Some rec)
           /\ v1alpha1.Confidence rec = Z.min cc mc /\ names_both_resources rec))
  /\ (forall pm rec,
      generatePodRecommendation Sqrt r pm th = Ok (Some rec) ->
      (DefaultConfidenceThreshold r <= v1alpha1.Confidence rec)%Z /\ names_both_resources rec)
  /\ (forall wm recs,
      GenerateRecommendations Sqrt r wm th = Ok recs ->
      Forall (fun rec =>
                (DefaultConfidenceThreshold r <= v1alpha1.Confidence rec)%Z
                /\ names_both_resources rec) recs).
Proof.
  assert (Hpod : forall pm cpuRec cc memRec mc,
      analyzeCPUUsage Sqrt r (metrics.CPUUsageHistory pm) th = Ok (cpuRec, cc) ->
      analyzeMemoryUsage Sqrt r (metrics.MemUsageHistory pm) th = Ok (memRec, mc) ->
      ((Z.min cc mc < DefaultConfidenceThreshold r)%Z ->
         generatePodRecommendation Sqrt r pm th = Ok None)
      /\ ((DefaultConfidenceThreshold r <= Z.min cc mc)%Z ->
         exists rec,
           generatePodRecommendation Sqrt r pm th = Ok (Some rec)
           /\ v1alpha1.Confidence rec = Z.min cc mc /\ names_both_resources rec)).
  { intros pm cpuRec cc memRec mc Hc Hm.
    destruct (analyzeCPUUsage_ok _ _ _ _ _ _ Hc) as (_ & _ & L & HL).
    destruct (analyzeMemoryUsage_ok _ _ _ _ _ _ Hm) as (_ & _ & B & HB).
    unfold generatePodRecommendation. rewrite Hc, Hm, to_int_Min_of_int, HL, HB.
    split; intros Hgate.
    - destruct (Z.ltb_spec (Z.min cc mc) (DefaultConfidenceThreshold r)); [reflexivity | lia].
    - destruct (Z.ltb_spec (Z.min cc mc) (DefaultConfidenceThreshold r)); [lia|].
      eexists. split; [reflexivity|]. split; [reflexivity|].
      unfold names_both_resources; simpl. repeat split; eexists; by simplify_map_eq. }
  assert (Hrec : forall pm rec,
      generatePodRecommendation Sqrt r pm th = Ok (Some rec) ->
      (DefaultConfidenceThreshold r <= v1alpha1.Confidence rec)%Z /\ names_both_resources rec).
  { intros pm rec Hg.
    destruct (generatePodRecommendation_inv _ _ _ _ _ Hg)
      as (cpuRec & cc & memRec & mc & Hc & Hm & [[_ ?]|[Hge _]]); [discriminate|].
    destruct (Hpod pm _ _ _ _ Hc Hm) as [_ Hsome].
    destruct (Hsome Hge) as (rec' & Hg' & Hconf & Hcomplete).
    rewrite Hg in Hg'. injection Hg' as <-. rewrite Hconf. auto. }
  split; [reflexivity|]. split; [exact Hpod|]. split; [exact Hrec|].
  intros wm recs. unfold GenerateRecommendations.
  destruct (len (metrics.Pods wm) =? 0)%Z; [discriminate|].
  rewrite GenerateRecommendations_loop. intros [= <-]. simpl.
  apply List.Forall_forall. intros rec Hin.
  apply in_flat_map in Hin as (pm & _ & Hin). unfold kept in Hin.
  destruct (generatePodRecommendation Sqrt r pm th) as [[rec'|]|e] eqn:Hg;
    simpl in Hin; try contradiction.
  destruct Hin as [<-|[]]. eapply Hrec, Hg.
Qed.

(** Example pods: usage histories built from plain lists of readings. *)
Definition readings (unit : string) (values : list Q) : list metrics.ResourceUsage :=
  map (fun v => metrics.mkResourceUsage 0 v unit) values.

Definition pod_of (name : string) (cpu mem : list Q) : metrics.PodMetrics :=
  metrics.mkPodMetrics name "default" (readings "cores" cpu) (readings "bytes" mem).

(** Ten CPU readings spread between a tenth of a core and a whole core. *)
Definition noisy : list Q := [0.1; 0.9; 0.2; 0.8; 0.3; 0.7; 0.4; 0.6; 0.5; 1.0].

(** C4 on a pod whose CPU readings are spread out (confidence 51) and whose
    memory readings are constant (confidence 100): nothing is recommended and
    nothing is reported. *)
Lemma confidence_gate_witness :
  generatePodRecommendation Float64.Sqrt NewRecommendationEngine
    (pod_of "web-0" noisy (repeat 1000 10)) v1alpha1.noThresholds = Ok None.
Proof.
  pose proof (proj1 (proj2
    (confidence_gate Float64.Sqrt NewRecommendationEngine v1alpha1.noThresholds)))
    as H.
  let c := eval vm_compute in
      (analyzeCPUUsage Float64.Sqrt NewRecommendationEngine
         (readings "cores" noisy) v1alpha1.noThresholds) in
  let m := eval vm_compute in
      (analyzeMemoryUsage Float64.Sqrt NewRecommendationEngine
         (readings "bytes" (repeat 1000 10)) v1alpha1.noThresholds) in
  assert (Hc : analyzeCPUUsage Float64.Sqrt NewRecommendationEngine
                 (readings "cores" noisy) v1alpha1.noThresholds = c)
    by (vm_compute; reflexivity);
  assert (Hm : analyzeMemoryUsage Float64.Sqrt NewRecommendationEngine
                 (readings "bytes" (repeat 1000 10)) v1alpha1.noThresholds = m)
    by (vm_compute; reflexivity).
  eapply H; [exact Hc | exact Hm | vm_compute; reflexivity].
Defined.

(** C9. [GenerateRecommendations] fails exactly when the workload metrics
    hold no pod. With at least one pod it returns, without error, the
    recommendations of the pods whose analysis produced one, in order; pods
    whose analysis fails are passed over, so a workload all of whose pods
    fail yields the empty list and no error. *)
Theorem GenerateRecommendations_error_iff (Sqrt : Q -> Q)
    (r : RecommendationEngine) (wm : metrics.WorkloadMetrics)
    (th : v1alpha1.ResourceThresholds) :
  (is_ok (GenerateRecommendations Sqrt r wm th) = false <-> metrics.Pods wm = [])
  /\ (metrics.Pods wm = [] -> GenerateRecommendations Sqrt r wm th = Err NoPodMetrics)
  /\ (metrics.Pods wm <> [] ->
      GenerateRecommendations Sqrt r wm th
      = Ok (flat_map (kept Sqrt r th) (metrics.Pods wm)))
  /\ (metrics.Pods wm <> [] ->
      Forall (fun pm => is_ok (generatePodRecommendation Sqrt r pm th) = false)
        (metrics.Pods wm) ->
      GenerateRecommendations Sqrt r wm th = Ok []).
Proof.
  assert (Hempty : metrics.Pods wm = [] ->
                   GenerateRecommendations Sqrt r wm th = Err NoPodMetrics).
  { intros E. unfold GenerateRecommendations. rewrite E. reflexivity. }
  split; [|split; [exact Hempty|split]].
  - split.
    + intros Hfail. destruct (metrics.Pods wm) as [|pm pods] eqn:E; [reflexivity|].
      rewrite GenerateRecommendations_nonempty in Hfail by (rewrite E; discriminate).
      discriminate.
    + intros E. rewrite Hempty by exact E. reflexivity.
  - apply GenerateRecommendations_nonempty.
  - intros Hne Hall. rewrite GenerateRecommendations_nonempty by exact Hne.
    f_equal. clear Hne Hempty. revert Hall.
    generalize (metrics.Pods wm) as pods.
    induction 1 as [|pm pods Hpm _ IH]; [reflexivity|].
    simpl. unfold kept at 1.
    destruct (generatePodRecommendation Sqrt r pm th); [discriminate|].
    exact IH.
Qed.

(** C9 on a workload of two pods with five readings each. *)
Lemma GenerateRecommendations_error_iff_witness :
  GenerateRecommendations Float64.Sqrt NewRecommendationEngine
    (metrics.mkWorkloadMetrics "web" "Deployment" "default"
       [pod_of "web-0" (repeat 0.1 5) (repeat 1000 5);
        pod_of "web-1" (repeat 0.1 5) (repeat 1000 5)])
    v1alpha1.noThresholds
  = Ok [].
Proof.
  apply GenerateRecommendations_error_iff.
  - discriminate.
  - repeat constructor.
Defined.



(** The limit and the request recommended for one resource. *)
Definition recommended (name : string)
    (out : result error (option v1alpha1.PodRecommendation))
  : option (resource.Quantity * resource.Quantity) :=
  match out with
  | Ok (Some rec) =>
      let res := v1alpha1.RecommendedResources rec in
      match corev1.Limits res !! name, corev1.Requests res !! name with
      | Some l, Some q => Some (l, q)
      | _, _ => None
      end
  | _ => None
  end.



(** The limit and the confidence of a per-resource analysis. *)
Definition outcome (a : result error (ResourceRecommendation * Z))
  : option (option resource.Quantity * Z) :=
  match a with Ok (rec, c) => Some (Limit rec, c) | Err _ => None end.

(** C3, as amended. A usage series shorter than the engine's minimum (10 by
    default) makes the analysis of that resource fail with an explicit
    insufficient-data error, and [generatePodRecommendation] then fails for
    the whole pod: nothing is recommended for either resource of that pod.
    The other pods of the workload are not affected: the workload's
    recommendations are those of the workload without that pod. *)
Theorem insufficient_data_drops_pod (Sqrt : Q -> Q) (r : RecommendationEngine)
    (th : v1alpha1.ResourceThresholds) (pm : metrics.PodMetrics) :
  MinDataPoints NewRecommendationEngine = 10%Z
  /\ ((len (metrics.CPUUsageHistory pm) < MinDataPoints r)%Z ->
      analyzeCPUUsage Sqrt r (metrics.CPUUsageHistory pm) th
      = Err (InsufficientCPU (len (metrics.CPUUsageHistory pm)) (MinDataPoints r))
      /\ generatePodRecommendation Sqrt r pm th
         = Err (InsufficientCPU (len (metrics.CPUUsageHistory pm)) (MinDataPoints r)))
  /\ ((len (metrics.MemUsageHistory pm) < MinDataPoints r)%Z ->
      analyzeMemoryUsage Sqrt r (metrics.MemUsageHistory pm) th
      = Err (InsufficientMemory (len (metrics.MemUsageHistory pm)) (MinDataPoints r))
      /\ is_ok (generatePodRecommendation Sqrt r pm th) = false
      /\ ((MinDataPoints r <= len (metrics.CPUUsageHistory pm))%Z ->
          generatePodRecommendation Sqrt r pm th
          = Err (InsufficientMemory (len (metrics.MemUsageHistory pm))
                   (MinDataPoints r))))
  /\ (is_ok (generatePodRecommendation Sqrt r pm th) = false ->
      forall name type ns before after,
        GenerateRecommendations Sqrt r
          (metrics.mkWorkloadMetrics name type ns (before ++ pm :: after)) th
        = Ok (flat_map (kept Sqrt r th) (before ++ after))).
Proof.
  assert (Hcpu : (len (metrics.CPUUsageHistory pm) < MinDataPoints r)%Z ->
      analyzeCPUUsage Sqrt r (metrics.CPUUsageHistory pm) th
      = Err (InsufficientCPU (len (metrics.CPUUsageHistory pm)) (MinDataPoints r))).
  { intros H. unfold analyzeCPUUsage.
    destruct (Z.ltb_spec (len (metrics.CPUUsageHistory pm)) (MinDataPoints r));
      [reflexivity | lia]. }
  assert (Hmem : (len (metrics.MemUsageHistory pm) < MinDataPoints r)%Z ->
      analyzeMemoryUsage Sqrt r (metrics.MemUsageHistory pm) th
      = Err (InsufficientMemory (len (metrics.MemUsageHistory pm)) (MinDataPoints r))).
  { intros H. unfold analyzeMemoryUsage.
    destruct (Z.ltb_spec (len (metrics.MemUsageHistory pm)) (MinDataPoints r));
      [reflexivity | lia]. }
  split; [reflexivity|]. split; [|split].
  - intros H. split; [apply Hcpu, H|].
    unfold generatePodRecommendation. rewrite Hcpu by exact H. reflexivity.
  - intros H. split; [apply Hmem, H|].
    unfold generatePodRecommendation. rewrite Hmem by exact H.
    destruct (analyzeCPUUsage Sqrt r _ th) as [[cpuRec cc]|e] eqn:Hc.
    + split; reflexivity.
    + split; [reflexivity|]. intros Hge. unfold analyzeCPUUsage in Hc.
      destruct (Z.ltb_spec (len (metrics.CPUUsageHistory pm)) (MinDataPoints r));
        [lia | discriminate].
  - intros Hfail name type ns before after.
    rewrite GenerateRecommendations_nonempty by (simpl; destruct before; discriminate).
    simpl. rewrite !flat_map_app. simpl. unfold kept at 2.
    destruct (generatePodRecommendation Sqrt r pm th); [discriminate | reflexivity].
Qed.

(** C3 on a workload of three pods whose middle one has five CPU readings. *)
Lemma insufficient_data_drops_pod_witness :
  let short := pod_of "web-1" (repeat 0.1 5) (repeat 1000 15) in
  let full := fun name => pod_of name steady (repeat 1000 10) in
  (len (metrics.CPUUsageHistory short) < 10)%Z
  /\ generatePodRecommendation Float64.Sqrt NewRecommendationEngine short
       v1alpha1.noThresholds = Err (InsufficientCPU 5 10)
  /\ GenerateRecommendations Float64.Sqrt NewRecommendationEngine
       (metrics.mkWorkloadMetrics "web" "Deployment" "default"
          ([full "web-0"] ++ short :: [full "web-2"])) v1alpha1.noThresholds
     = Ok (flat_map (kept Float64.Sqrt NewRecommendationEngine v1alpha1.noThresholds)
             ([full "web-0"] ++ [full "web-2"])).
Proof.
  intros short full.
  assert (Hlen : (len (metrics.CPUUsageHistory short) < 10)%Z) by (vm_compute; reflexivity).
  destruct (insufficient_data_drops_pod Float64.Sqrt NewRecommendationEngine
              v1alpha1.noThresholds short) as (_ & Hcpu & _ & Hothers).
  destruct (Hcpu Hlen) as [_ Hpod].
  split; [exact Hlen|]. split; [exact Hpod|].
  apply Hothers. rewrite Hpod. reflexivity.
Defined.

(** C3 as first stated fails on a pod with five CPU readings and fifteen
    memory readings: the memory analysis alone succeeds (limit 1200 bytes,
    confidence 100), yet the pod gets no recommendation at all, memory
    included. *)
Lemma insufficient_cpu_drops_memory :
  let short := pod_of "web-1" (repeat 0.1 5) (repeat 1000 15) in
  outcome (analyzeMemoryUsage Float64.Sqrt NewRecommendationEngine
             (metrics.MemUsageHistory short) v1alpha1.noThresholds)
  = Some (Some (resource.NewQuantity 1200), 100%Z)
  /\ generatePodRecommendation Float64.Sqrt NewRecommendationEngine short
       v1alpha1.noThresholds = Err (InsufficientCPU 5 10)
  /\ recommended corev1.ResourceMemory
       (generatePodRecommendation Float64.Sqrt NewRecommendationEngine short
          v1alpha1.noThresholds) = None
  /\ GenerateRecommendations Float64.Sqrt NewRecommendationEngine
       (metrics.mkWorkloadMetrics "web" "Deployment" "default" [short])
       v1alpha1.noThresholds = Ok [].
Proof. repeat split; vm_compute; reflexivity. Qed.



End engine_spec.


(** ** The cluster API and the reconcile pass *)

Module controller_facts.

Import client controller.

(** What a pass only reads: namespaces, pods, replica sets, the clock and
    the refusals of the server. *)
Definition same_env (w w' : Cluster) : Prop :=
  namespaces w = namespaces w' /\ pods w = pods w'
  /\ replicaSets w = replicaSets w' /\ now w = now w' /\ faults w = faults w'.

Lemma same_env_refl w : same_env w w.
Proof. repeat split. Qed.

Lemma same_env_trans w1 w2 w3 : same_env w1 w2 -> same_env w2 w3 -> same_env w1 w3.
Proof. unfold same_env. intuition congruence. Qed.

Lemma same_env_sym w1 w2 : same_env w1 w2 -> same_env w2 w1.
Proof. unfold same_env. intuition congruence. Qed.

(** The calls that touch the policy object. *)
Definition isPolicyCall (e : Event) : bool :=
  match call e with
  | GetPodRightSizing _ | UpdateStatus _ _ => true
  | _ => false
  end.

Definition policyCalls (t : list Event) : list Event := List.filter isPolicyCall t.

Lemma policyCalls_app t1 t2 : policyCalls (t1 ++ t2) = policyCalls t1 ++ policyCalls t2.
Proof. apply List.filter_app. Qed.

(** A computation that leaves the policies and the workloads alone, places
    no call on the policy object, and whose result depends on nothing but
    the environment. *)
Definition reader {A} (m : M A) : Prop :=
  forall w,
    same_env w (m w).2
    /\ policies (m w).2 = policies w
    /\ workloads (m w).2 = workloads w
    /\ policyCalls (trace (m w).2) = policyCalls (trace w)
    /\ forall w', same_env w w' -> (m w').1 = (m w).1.

(** A computation that may patch workloads but leaves the policies alone
    and places no call on the policy object. *)
Definition applier {A} (m : M A) : Prop :=
  forall w,
    same_env w (m w).2
    /\ policies (m w).2 = policies w
    /\ policyCalls (trace (m w).2) = policyCalls (trace w).

Ltac monad := unfold mbind, mret, M_bind, M_ret, bind, ret in *.

Lemma reader_applier {A} (m : M A) : reader m -> applier m.
Proof. intros H w. destruct (H w) as (? & ? & ? & ? & ?). auto. Qed.

Lemma reader_ret {A} (a : A) : reader (mret a : M A).
Proof. intros w. monad. simpl. repeat split; trivial. Qed.

Lemma reader_bind {A B} (m : M A) (k : A -> M B) :
  reader m -> (forall a, reader (k a)) -> reader (m ≫= k).
Proof.
  intros Hm Hk w. monad.
  destruct (Hm w) as (E1 & P1 & W1 & T1 & R1).
  destruct (m w) as [a w1] eqn:Em. simpl in *.
  destruct (Hk a w1) as (E2 & P2 & W2 & T2 & R2).
  split; [eapply same_env_trans; eassumption|].
  split; [congruence|]. split; [congruence|]. split; [congruence|].
  intros w' Hw'. specialize (R1 w' Hw').
  destruct (Hm w') as (E1' & _). destruct (m w') as [a' w1'] eqn:Em'. simpl in *.
  subst a'. apply R2.
  eapply same_env_trans; [apply same_env_sym, E1|].
  eapply same_env_trans; eassumption.
Qed.

Lemma applier_ret {A} (a : A) : applier (mret a : M A).
Proof. apply reader_applier, reader_ret. Qed.

Lemma applier_bind {A B} (m : M A) (k : A -> M B) :
  applier m -> (forall a, applier (k a)) -> applier (m ≫= k).
Proof.
  intros Hm Hk w. monad.
  destruct (Hm w) as (E1 & P1 & T1).
  destruct (m w) as [a w1] eqn:Em. simpl in *.
  destruct (Hk a w1) as (E2 & P2 & T2).
  split; [eapply same_env_trans; eassumption|]. split; congruence.
Qed.

(** A served call that is not on the policy object and that reads the
    environment only is a reader. *)
Lemma reader_served {A} (c : Call) (f : Cluster -> result APIError A) :
  isPolicyCall (mkEvent c None) = false ->
  (forall w w', same_env w w' -> f w = f w') ->
  reader (served c (fun w => (f w, w))).
Proof.
  intros Hc Hf w. unfold served.
  assert (Hlog : forall e, isPolicyCall (mkEvent c e) = false) by (intros; exact Hc).
  split; [|split; [|split; [|split]]].
  - destruct (faults w c); simpl; repeat split.
  - destruct (faults w c); reflexivity.
  - destruct (faults w c); reflexivity.
  - destruct (faults w c); simpl; rewrite policyCalls_app; simpl;
      rewrite Hlog, app_nil_r; reflexivity.
  - intros w' Hw'. pose proof Hw' as (_ & _ & _ & _ & Hfaults).
    rewrite <- Hfaults. destruct (faults w c); simpl; [reflexivity|].
    symmetry. apply Hf, Hw'.
Qed.

Lemma reader_ListPodsMatching sel ns : reader (ListPodsMatching sel ns).
Proof.
  apply (reader_served (ListPods ns)
           (fun w => Ok (List.filter _ (pods w)))); [reflexivity|].
  intros w w' (_ & -> & _). reflexivity.
Qed.

Lemma reader_ListNamespacesMatching sel : reader (ListNamespacesMatching sel).
Proof.
  apply (reader_served ListNamespaces
           (fun w => Ok (List.filter _ (namespaces w)))); [reflexivity|].
  intros w w' (-> & _). reflexivity.
Qed.

Lemma reader_GetReplicaSetNamed key : reader (GetReplicaSetNamed key).
Proof.
  apply (reader_served (GetReplicaSet key)
           (fun w => match List.find _ (replicaSets w) with
                     | Some rs => Ok rs
                     | None => Err NotFound
                     end)); [reflexivity|].
  intros w w' (_ & _ & -> & _). reflexivity.
Qed.

Lemma reader_listTargetPods selector prs namespaces pods :
  reader (listTargetPods selector prs namespaces pods).
Proof.
  revert pods. induction namespaces as [|ns namespaces IH]; intros pods; simpl.
  - apply reader_ret.
  - destruct (isNamespaceExcluded ns _); [apply IH|].
    apply reader_bind; [apply reader_ListPodsMatching|].
    intros [items|err]; [apply IH | apply reader_ret].
Qed.

Lemma reader_discoverTargetPods prs : reader (discoverTargetPods prs).
Proof.
  unfold discoverTargetPods.
  destruct (match v1alpha1.LabelSelector _ with Some _ => _ | None => _ end)
    as [selector|]; [|apply reader_ret].
  destruct (v1alpha1.NamespaceSelector _) as [nsSel|].
  - destruct (metav1.LabelSelectorAsSelector nsSel); [|apply reader_ret].
    apply reader_bind; [apply reader_ListNamespacesMatching|].
    intros [items|err]; [apply reader_listTargetPods | apply reader_ret].
  - destruct (negb _); apply reader_listTargetPods.
Qed.

Lemma reader_workloadNameOf pod owners : reader (workloadNameOf pod owners).
Proof.
  induction owners as [|owner owners IH]; simpl; [apply reader_ret|].
  destruct (metav1.eqs _ _); [|apply reader_ret].
  apply reader_bind; [apply reader_GetReplicaSetNamed|].
  intros [rs|err]; [|exact IH].
  destruct (deploymentOwner _); [apply reader_ret | exact IH].
Qed.

Lemma reader_groupPods pods groups : reader (groupPods pods groups).
Proof.
  revert groups. induction pods as [|pod pods IH]; intros groups; simpl.
  - apply reader_ret.
  - apply reader_bind; [apply reader_workloadNameOf|]. intros name. apply IH.
Qed.

Lemma reader_groupPodsByWorkload pods : reader (groupPodsByWorkload pods).
Proof. apply reader_groupPods. Qed.

Lemma applier_served {A} (c : Call) (serve : Cluster -> result APIError A * Cluster) :
  isPolicyCall (mkEvent c None) = false ->
  (forall w, same_env w (serve w).2 /\ policies (serve w).2 = policies w
             /\ trace (serve w).2 = trace w) ->
  applier (served c serve).
Proof.
  intros Hc Hs w. unfold served.
  assert (Hlog : forall e, isPolicyCall (mkEvent c e) = false) by (intros; exact Hc).
  destruct (faults w c).
  - simpl. rewrite policyCalls_app. simpl. rewrite Hlog, app_nil_r.
    repeat split.
  - destruct (Hs w) as (E & P & T). destruct (serve w) as [r w1]. simpl in *.
    rewrite policyCalls_app, T. simpl. rewrite Hlog, app_nil_r.
    split; [exact E|]. split; [exact P | reflexivity].
Qed.

Lemma applier_GetWorkloadNamed kind key : applier (GetWorkloadNamed kind key).
Proof.
  apply applier_served; [reflexivity|]. intros w. simpl.
  split; [apply same_env_refl|]. split; reflexivity.
Qed.

Lemma applier_UpdateWorkloadNamed kind obj : applier (UpdateWorkloadNamed kind obj).
Proof.
  apply applier_served; [reflexivity|]. intros w.
  destruct (workloads w !! _); simpl; (split; [repeat split|]); split; reflexivity.
Qed.

Lemma applier_updateWorkload kind namespace name resources :
  applier (updateWorkload kind namespace name resources).
Proof.
  unfold updateWorkload. apply applier_bind; [apply applier_GetWorkloadNamed|].
  intros [obj|err]; [|apply applier_ret].
  destruct (updateContainerResources _ _) as [containers updated].
  destruct (negb updated); [apply applier_ret|].
  apply applier_bind; [apply applier_UpdateWorkloadNamed|].
  intros [[]|err]; apply applier_ret.
Qed.

Lemma applier_applyWorkloadRecommendations prs key recommendations :
  applier (applyWorkloadRecommendations prs key recommendations).
Proof.
  unfold applyWorkloadRecommendations.
  destruct (bool_decide _); [apply applier_ret|].
  destruct (len recommendations =? 0)%Z; [apply applier_ret|].
  destruct (splitWorkloadKey key) as [|ns [|ty [|name [|? ?]]]]; try apply applier_ret.
  unfold updateDeployment, updateStatefulSet, updateDaemonSet.
  repeat (destruct (metav1.eqs ty _); [apply applier_updateWorkload|]).
  apply applier_ret.
Qed.

Lemma applier_applyEach prs groups updatedCount :
  applier (applyEach prs groups updatedCount).
Proof.
  revert updatedCount.
  induction groups as [|[key workloadRecs] groups IH]; intros updatedCount; simpl.
  - apply applier_ret.
  - apply applier_bind; [apply applier_applyWorkloadRecommendations|].
    intros [updated [err|]]; apply IH.
Qed.

Lemma applier_applyRecommendations prs recommendations :
  applier (applyRecommendations prs recommendations).
Proof. apply applier_applyEach. Qed.

(** Every workload adds at most one to the count of updates. *)
Lemma updateWorkload_count kind namespace name resources w :
  (0 <= (updateWorkload kind namespace name resources w).1.1 <= 1)%Z.
Proof.
  unfold updateWorkload. monad.
  destruct (GetWorkloadNamed kind (namespace, name) w) as [[obj|err] w1];
    [|simpl; lia].
  destruct (updateContainerResources (appsv1.TemplateContainers obj) resources)
    as [containers updated].
  destruct (negb updated); [simpl; lia|].
  destruct (UpdateWorkloadNamed kind _ w1) as [[[]|err] w2]; simpl; lia.
Qed.

Lemma applyWorkloadRecommendations_count prs key recommendations w :
  (0 <= (applyWorkloadRecommendations prs key recommendations w).1.1 <= 1)%Z.
Proof.
  unfold applyWorkloadRecommendations. monad.
  destruct (bool_decide _); simpl; [lia|].
  destruct (len recommendations =? 0)%Z; simpl; [lia|].
  destruct (splitWorkloadKey key) as [|ns [|ty [|name [|? ?]]]]; simpl; try lia.
  unfold updateDeployment, updateStatefulSet, updateDaemonSet.
  repeat (destruct (metav1.eqs ty _); [apply updateWorkload_count|]).
  simpl; lia.
Qed.

Lemma applyEach_count prs groups updatedCount w :
  (updatedCount <= (applyEach prs groups updatedCount w).1
   <= updatedCount + len groups)%Z.
Proof.
  revert updatedCount w.
  induction groups as [|[key workloadRecs] groups IH]; intros updatedCount w.
  - simpl. unfold len. simpl. monad. simpl. lia.
  - simpl. monad.
    pose proof (applyWorkloadRecommendations_count prs key workloadRecs w) as Hc.
    destruct (applyWorkloadRecommendations prs key workloadRecs w)
      as [[updated err] w1]. simpl in Hc.
    replace (len ((key, workloadRecs) :: groups)) with (1 + len groups)%Z
      by (unfold len; simpl length; lia).
    destruct err.
    + specialize (IH updatedCount w1). lia.
    + specialize (IH (updatedCount + updated)%Z w1). lia.
Qed.

(** Grouping never yields more groups than there are recommendations. *)
Lemma groupRecommendations_size (recommendations : list v1alpha1.PodRecommendation) :
  (size (groupRecommendations recommendations) <= length recommendations)%nat.
Proof.
  unfold groupRecommendations.
  assert (H : forall (groups : gmap string (list v1alpha1.PodRecommendation)),
    (size (foldl
             (fun groups rec =>
                let ref := v1alpha1.PodRef rec in
                let key :=
                  workloadKey (v1alpha1.Namespace ref) (v1alpha1.WorkloadType ref)
                    (v1alpha1.WorkloadName ref) in
                <[key := default [] (groups !! key) ++ [rec]]> groups)
             groups recommendations)
     <= size groups + length recommendations)%nat).
  { induction recommendations as [|rec recs IH]; intros groups; simpl; [lia|].
    etransitivity; [apply IH|].
    set (key := workloadKey _ _ _).
    destruct (groups !! key) as [l|] eqn:E.
    - rewrite map_size_insert_Some by eauto. lia.
    - rewrite map_size_insert_None by exact E. lia. }
  specialize (H ∅). rewrite map_size_empty in H. exact H.
Qed.

Lemma applyRecommendations_count prs recommendations w :
  (0 <= (applyRecommendations prs recommendations w).1 <= len recommendations)%Z.
Proof.
  unfold applyRecommendations.
  pose proof (applyEach_count prs
                (map_to_list (groupRecommendations recommendations)) 0 w) as H.
  pose proof (groupRecommendations_size recommendations) as Hs.
  unfold len in *. rewrite length_map_to_list in H. lia.
Qed.

(** The object [updatePhase] sends: the caller's copy with the new phase and
    message. *)
Definition phased (prs : v1alpha1.PodRightSizing) (phase : v1alpha1.RightSizingPhase)
    (message : string) : v1alpha1.PodRightSizing :=
  let st := v1alpha1.Status prs in
  withStatus
    (v1alpha1.mkPodRightSizingStatus phase message
       (v1alpha1.LastAnalysisTime st) (v1alpha1.LastUpdateTime st)
       (v1alpha1.TargetedPods st) (v1alpha1.UpdatedPods st)
       (v1alpha1.Recommendations st)) prs.

Definition isStatusWrite (e : Event) : Prop :=
  exists key phase, call e = UpdateStatus key phase.

Lemma Get_run req w :
  Get req w
  = (match faults w (GetPodRightSizing req) with
     | Some e => Err e
     | None => match policies w !! req with Some obj => Ok obj | None => Err NotFound end
     end,
     logged (mkEvent (GetPodRightSizing req)
               (match faults w (GetPodRightSizing req) with
                | Some e => Some e
                | None => match policies w !! req with Some _ => None | None => Some NotFound end
                end)) w).
Proof.
  unfold Get, served. destruct (faults w _); [reflexivity|].
  destruct (policies w !! req); reflexivity.
Qed.

(** A status write that the server accepts. *)
Lemma updatePhase_ok prs phase message w stored :
  faults w (UpdateStatus (keyOf (v1alpha1.Meta prs)) phase) = None ->
  policies w !! keyOf (v1alpha1.Meta prs) = Some stored ->
  metav1.ResourceVersion (v1alpha1.Meta stored)
  = metav1.ResourceVersion (v1alpha1.Meta prs) ->
  let updated :=
    v1alpha1.mkPodRightSizing (bumped (v1alpha1.Meta stored)) (v1alpha1.Spec stored)
      (v1alpha1.Status (phased prs phase message)) in
  updatePhase prs phase message w
  = ((updated, None),
     logged (mkEvent (UpdateStatus (keyOf (v1alpha1.Meta prs)) phase) None)
       (withPolicies (<[keyOf (v1alpha1.Meta prs) := updated]> (policies w)) w)).
Proof.
  intros Hf Hs Hv. unfold updatePhase, StatusUpdate, served. monad. simpl.
  rewrite Hf, Hs, Hv, Z.eqb_refl. reflexivity.
Qed.

(** Every status write: one call, no other; on failure the error comes back
    and the store is as it was. *)
Lemma updatePhase_cases prs phase message w prs' err w' :
  updatePhase prs phase message w = ((prs', err), w') ->
  same_env w w' /\ workloads w' = workloads w
  /\ exists ev,
      call ev = UpdateStatus (keyOf (v1alpha1.Meta prs)) phase
      /\ trace w' = trace w ++ [ev]
      /\ ((failure ev = None /\ err = None)
          \/ (exists e, failure ev = Some e /\ err = Some (APIFailure e)
                        /\ policies w' = policies w
                        /\ prs' = phased prs phase message)).
Proof.
  unfold updatePhase, StatusUpdate, served. monad. simpl.
  destruct (faults w _) as [e|].
  - intros [= <- <- <-]. simpl. repeat split.
    eexists (mkEvent _ _). split; [reflexivity|]. split; [reflexivity|].
    right. exists e. repeat split.
  - destruct (policies w !! _) as [stored|].
    + destruct (_ =? _)%Z.
      * intros [= <- <- <-]. simpl. repeat split.
        eexists (mkEvent _ _). split; [reflexivity|]. split; [reflexivity|]. left. split; reflexivity.
      * intros [= <- <- <-]. simpl. repeat split.
        eexists (mkEvent _ _). split; [reflexivity|]. split; [reflexivity|].
        right. exists Conflict. repeat split.
    + intros [= <- <- <-]. simpl. repeat split.
      eexists (mkEvent _ _). split; [reflexivity|]. split; [reflexivity|].
      right. exists NotFound. repeat split.
Qed.

(** A stale copy conflicts. *)
Lemma updatePhase_stale prs phase message w stored :
  faults w (UpdateStatus (keyOf (v1alpha1.Meta prs)) phase) = None ->
  policies w !! keyOf (v1alpha1.Meta prs) = Some stored ->
  metav1.ResourceVersion (v1alpha1.Meta stored)
  <> metav1.ResourceVersion (v1alpha1.Meta prs) ->
  updatePhase prs phase message w
  = ((phased prs phase message, Some (APIFailure Conflict)),
     logged (mkEvent (UpdateStatus (keyOf (v1alpha1.Meta prs)) phase) (Some Conflict)) w).
Proof.
  intros Hf Hs Hv. unfold updatePhase, StatusUpdate, served. monad. simpl.
  rewrite Hf, Hs.
  destruct (Z.eqb_spec (metav1.ResourceVersion (v1alpha1.Meta stored))
              (metav1.ResourceVersion (v1alpha1.Meta prs))) as [E|_];
    [contradiction | reflexivity].
Qed.

(** Discovery and the excluded namespaces. *)
Definition not_excluded (prs : v1alpha1.PodRightSizing) (pod : corev1.Pod) : Prop :=
  isNamespaceExcluded (metav1.Namespace (corev1.PodMeta pod))
    (v1alpha1.ExcludeNamespaces (v1alpha1.Target (v1alpha1.Spec prs))) = false.

Lemma ListPodsMatching_in_namespace sel ns w items :
  ns <> "" ->
  (ListPodsMatching sel ns w).1 = Ok items ->
  Forall (fun pod => metav1.Namespace (corev1.PodMeta pod) = ns) items.
Proof.
  intros Hns. unfold ListPodsMatching, served.
  destruct (faults w _); simpl; [discriminate|]. intros [= <-].
  apply List.Forall_forall. intros pod Hin.
  apply List.filter_In in Hin as [_ Hin].
  apply andb_true_iff in Hin as [_ Hin]. apply orb_true_iff in Hin as [Hin|Hin].
  - apply bool_decide_eq_true in Hin. contradiction.
  - apply bool_decide_eq_true in Hin. exact Hin.
Qed.

Lemma listTargetPods_not_excluded sel prs nss acc w pods :
  Forall (fun ns => ns <> "") nss ->
  Forall (not_excluded prs) acc ->
  (listTargetPods sel prs nss acc w).1 = Ok pods ->
  Forall (not_excluded prs) pods.
Proof.
  intros Hnss. revert acc w.
  induction Hnss as [|ns nss Hns _ IH]; intros acc w Hacc; simpl.
  - monad. simpl. intros [= <-]. exact Hacc.
  - destruct (isNamespaceExcluded ns _) eqn:Hex; [apply IH, Hacc|]. monad.
    pose proof (ListPodsMatching_in_namespace sel ns w) as Hin.
    destruct (ListPodsMatching sel ns w) as [[items|err] w1]; simpl in *;
      [|discriminate].
    apply IH. apply Forall_app. split; [exact Hacc|].
    specialize (Hin items Hns eq_refl).
    apply List.Forall_forall. intros pod Hpod.
    apply List.filter_In in Hpod as [Hpod _].
    rewrite List.Forall_forall in Hin. unfold not_excluded.
    rewrite (Hin pod Hpod). exact Hex.
Qed.

(** When the target names a namespace or selects namespaces, no discovered
    pod lives in an excluded namespace. *)
Lemma discoverTargetPods_named_excludes prs w pods :
  v1alpha1.TargetNamespace (v1alpha1.Target (v1alpha1.Spec prs)) <> ""
  \/ v1alpha1.NamespaceSelector (v1alpha1.Target (v1alpha1.Spec prs)) <> None ->
  Forall (fun ns => metav1.Name (corev1.NamespaceMeta ns) <> "") (namespaces w) ->
  (discoverTargetPods prs w).1 = Ok pods ->
  Forall (not_excluded prs) pods.
Proof.
  intros Hmode Hnames. unfold discoverTargetPods.
  destruct (match v1alpha1.LabelSelector _ with Some _ => _ | None => _ end)
    as [selector|]; [|monad; discriminate].
  destruct (v1alpha1.NamespaceSelector _) as [nsSel|].
  - destruct (metav1.LabelSelectorAsSelector nsSel) as [namespaceSelector|];
      [|monad; discriminate].
    monad. unfold ListNamespacesMatching, served.
    destruct (faults w ListNamespaces); simpl; [discriminate|].
    apply listTargetPods_not_excluded; [|constructor].
    apply Forall_map. apply List.Forall_forall. intros ns Hin.
    apply List.filter_In in Hin as [Hin _].
    rewrite List.Forall_forall in Hnames. apply Hnames, Hin.
  - destruct Hmode as [Hmode|Hmode]; [|contradiction].
    destruct (negb _) eqn:E.
    + apply listTargetPods_not_excluded; repeat constructor. exact Hmode.
    + apply negb_false_iff, bool_decide_eq_true in E. contradiction.
Qed.

(** What the pass reads of the policy object is its specification. *)
Lemma shouldIncludePod_spec pod a b :
  v1alpha1.Spec a = v1alpha1.Spec b -> shouldIncludePod pod a = shouldIncludePod pod b.
Proof. intros E. unfold shouldIncludePod. rewrite E. reflexivity. Qed.

Lemma listTargetPods_spec selector a b namespaces pods w :
  v1alpha1.Spec a = v1alpha1.Spec b ->
  listTargetPods selector a namespaces pods w
  = listTargetPods selector b namespaces pods w.
Proof.
  intros E. revert pods w.
  induction namespaces as [|ns namespaces IH]; intros pods w; simpl; [reflexivity|].
  rewrite E. destruct (isNamespaceExcluded ns _); [apply IH|]. monad.
  destruct (ListPodsMatching selector ns w) as [[items|err] w1]; [|reflexivity].
  rewrite (List.filter_ext _ _ (fun pod => shouldIncludePod_spec pod a b E)).
  apply IH.
Qed.

Lemma discoverTargetPods_spec a b w :
  v1alpha1.Spec a = v1alpha1.Spec b -> discoverTargetPods a w = discoverTargetPods b w.
Proof.
  intros E. unfold discoverTargetPods. rewrite E.
  destruct (match v1alpha1.LabelSelector _ with Some _ => _ | None => _ end)
    as [selector|]; [|reflexivity].
  destruct (v1alpha1.NamespaceSelector _) as [nsSel|].
  - destruct (metav1.LabelSelectorAsSelector nsSel); [|reflexivity]. monad.
    destruct (ListNamespacesMatching _ w) as [[items|err] w1]; [|reflexivity].
    apply listTargetPods_spec, E.
  - destruct (negb _); apply listTargetPods_spec, E.
Qed.

Section Reconciler_facts.

Variable Sqrt : Q -> Q.
Variable ParseDuration : string -> option Z.

Lemma generateWorkloadRecommendations_spec r a b key pods :
  v1alpha1.Spec a = v1alpha1.Spec b ->
  generateWorkloadRecommendations Sqrt ParseDuration r a key pods
  = generateWorkloadRecommendations Sqrt ParseDuration r b key pods.
Proof. intros E. unfold generateWorkloadRecommendations. rewrite E. reflexivity. Qed.

Lemma recommendAll_spec r a b groups :
  v1alpha1.Spec a = v1alpha1.Spec b ->
  recommendAll Sqrt ParseDuration r a groups = recommendAll Sqrt ParseDuration r b groups.
Proof.
  intros E. unfold recommendAll. generalize (@nil v1alpha1.PodRecommendation).
  induction groups as [|g groups IH]; intros acc; simpl; [reflexivity|].
  rewrite (generateWorkloadRecommendations_spec r a b _ _ E). apply IH.
Qed.

Lemma requeueAfter_spec a b :
  v1alpha1.Spec a = v1alpha1.Spec b ->
  requeueAfter ParseDuration a = requeueAfter ParseDuration b.
Proof. intros E. unfold requeueAfter. rewrite E. reflexivity. Qed.

(** The loop over the workload groups keeps what the successful workloads
    produced, in the order of the groups. *)
Definition produced r prs (group : string * list corev1.Pod)
  : result error (list v1alpha1.PodRecommendation) :=
  generateWorkloadRecommendations Sqrt ParseDuration r prs group.1 group.2.

Definition contribution r prs (group : string * list corev1.Pod)
  : list v1alpha1.PodRecommendation :=
  match produced r prs group with Ok recommendations => recommendations | Err _ => [] end.

Lemma recommendAll_flat_map r prs groups :
  recommendAll Sqrt ParseDuration r prs groups = flat_map (contribution r prs) groups.
Proof.
  unfold recommendAll.
  assert (H : forall acc,
    foldl (fun allRecommendations group =>
             match generateWorkloadRecommendations Sqrt ParseDuration r prs group.1 group.2 with
             | Err _ => allRecommendations
             | Ok recommendations => allRecommendations ++ recommendations
             end) acc groups
    = acc ++ flat_map (contribution r prs) groups).
  { induction groups as [|g groups IH]; intros acc; simpl.
    - rewrite app_nil_r. reflexivity.
    - rewrite IH. unfold contribution at 2, produced.
      destruct (generateWorkloadRecommendations _ _ r prs g.1 g.2);
        simpl; rewrite <- ?app_assoc; reflexivity. }
  apply (H []).
Qed.

(** Skipping the failed groups beforehand changes nothing. *)
Lemma contribution_successful r prs groups :
  flat_map (contribution r prs) groups
  = flat_map (contribution r prs)
      (List.filter (fun group => is_ok (produced r prs group)) groups).
Proof.
  induction groups as [|g groups IH]; simpl; [reflexivity|].
  unfold contribution at 1. destruct (produced r prs g) eqn:E; simpl.
  - unfold contribution at 2. rewrite E. f_equal. exact IH.
  - exact IH.
Qed.

(** [Reconcile] cut at its status writes: what follows the write of
    Recommending, what follows a successful discovery, what follows the
    write of Analyzing. *)
Definition withTargeted (n : Z) (prs : v1alpha1.PodRightSizing) : v1alpha1.PodRightSizing :=
  let st := v1alpha1.Status prs in
  withStatus
    (v1alpha1.mkPodRightSizingStatus (v1alpha1.Phase st) (v1alpha1.Message st)
       (v1alpha1.LastAnalysisTime st) (v1alpha1.LastUpdateTime st)
       n (v1alpha1.UpdatedPods st) (v1alpha1.Recommendations st)) prs.

Definition withAnalysis (now : Z) (recommendations : list v1alpha1.PodRecommendation)
    (prs : v1alpha1.PodRightSizing) : v1alpha1.PodRightSizing :=
  let st := v1alpha1.Status prs in
  withStatus
    (v1alpha1.mkPodRightSizingStatus (v1alpha1.Phase st) (v1alpha1.Message st)
       (Some now) (v1alpha1.LastUpdateTime st)
       (v1alpha1.TargetedPods st) (v1alpha1.UpdatedPods st) recommendations) prs.

Definition withUpdated (now updatedCount : Z) (prs : v1alpha1.PodRightSizing)
  : v1alpha1.PodRightSizing :=
  let st := v1alpha1.Status prs in
  withStatus
    (v1alpha1.mkPodRightSizingStatus (v1alpha1.Phase st) (v1alpha1.Message st)
       (v1alpha1.LastAnalysisTime st) (Some now)
       (v1alpha1.TargetedPods st) updatedCount (v1alpha1.Recommendations st)) prs.

Definition afterRecommending (prs : v1alpha1.PodRightSizing)
    (allRecommendations : list v1alpha1.PodRecommendation)
  : M (Result * option error) :=
  now ← Now;
  let prs := withAnalysis now allRecommendations prs in
  if negb (v1alpha1.DryRun (v1alpha1.Spec prs)) then
    '(prs, err) ← updatePhase prs v1alpha1.PhaseUpdating "Applying recommendations";
    match err with
    | Some err => mret (noRequeue, Some err)
    | None =>
        updatedCount ← applyRecommendations prs allRecommendations;
        if (MaxInt32 <? updatedCount)%Z
        then mret (noRequeue, Some (TooManyUpdatedPods updatedCount))
        else
          now ← Now;
          complete ParseDuration (withUpdated now updatedCount prs) allRecommendations
    end
  else complete ParseDuration prs allRecommendations.

Definition afterDiscovery (r : PodRightSizingReconciler) (prs : v1alpha1.PodRightSizing)
    (targetPods : list corev1.Pod) : M (Result * option error) :=
  if (MaxInt32 <? len targetPods)%Z
  then mret (noRequeue, Some (TooManyTargetPods (len targetPods)))
  else
    let prs := withTargeted (len targetPods) prs in
    if (len targetPods =? 0)%Z then
      '(prs, err) ← updatePhase prs v1alpha1.PhaseCompleted "No matching pods found";
      match err with
      | Some err => mret (noRequeue, Some err)
      | None => mret (requeueAfter ParseDuration prs, None)
      end
    else
      workloadGroups ← groupPodsByWorkload targetPods;
      '(prs, err) ← updatePhase prs v1alpha1.PhaseRecommending "Generating recommendations";
      match err with
      | Some err => mret (noRequeue, Some err)
      | None =>
          afterRecommending prs
            (recommendAll Sqrt ParseDuration r prs (map_to_list workloadGroups))
      end.

Definition afterAnalyzing (r : PodRightSizingReconciler) (prs : v1alpha1.PodRightSizing)
  : M (Result * option error) :=
  discovered ← discoverTargetPods prs;
  match discovered with
  | Err err =>
      _ ← updatePhase prs v1alpha1.PhaseError ("Failed to discover pods: " +:+ Error err);
      mret (mkResult (5 * Minute), Some err)
  | Ok targetPods => afterDiscovery r prs targetPods
  end.

Definition afterFetch (r : PodRightSizingReconciler) (prs : v1alpha1.PodRightSizing)
  : M (Result * option error) :=
  now ← Now;
  if negb (shouldRunAnalysis ParseDuration now prs)
  then mret (requeueAfter ParseDuration prs, None)
  else
    '(prs, err) ← updatePhase prs v1alpha1.PhaseAnalyzing "Starting resource analysis";
    match err with
    | Some err => mret (noRequeue, Some err)
    | None => afterAnalyzing r prs
    end.

Lemma Reconcile_staged r req :
  Reconcile Sqrt ParseDuration r req
  = (got ← Get req;
     match got with
     | Err err =>
         if IsNotFound err then mret (noRequeue, None)
         else mret (noRequeue, Some (APIFailure err))
     | Ok prs => afterFetch r prs
     end).
Proof. reflexivity. Qed.

(** The pass is in step with the store when the server refuses nothing and
    the stored object has the metadata and the specification of the
    caller's copy. *)
Definition in_step (w : Cluster) (req : NamespacedName) (prs : v1alpha1.PodRightSizing)
  : Prop :=
  (forall c, faults w c = None)
  /\ keyOf (v1alpha1.Meta prs) = req
  /\ exists stored,
      policies w !! req = Some stored
      /\ v1alpha1.Meta stored = v1alpha1.Meta prs
      /\ v1alpha1.Spec stored = v1alpha1.Spec prs.

Lemma in_step_env w w' req prs :
  same_env w w' -> policies w' = policies w -> in_step w req prs -> in_step w' req prs.
Proof.
  intros (_ & _ & _ & _ & Hf) Hp (H1 & H2 & H3).
  split; [intros c; rewrite <- Hf; apply H1|]. split; [exact H2|].
  rewrite Hp. exact H3.
Qed.

Lemma in_step_local w req prs prs' :
  v1alpha1.Meta prs' = v1alpha1.Meta prs -> v1alpha1.Spec prs' = v1alpha1.Spec prs ->
  in_step w req prs -> in_step w req prs'.
Proof.
  intros Hm Hs (H1 & H2 & stored & H3 & H4 & H5).
  split; [exact H1|]. split; [congruence|].
  exists stored. repeat split; congruence.
Qed.

(** In step, a status write goes through and leaves the pass in step. *)
Lemma updatePhase_in_step w req prs phase message :
  in_step w req prs ->
  exists prs' w',
    updatePhase prs phase message w = ((prs', None), w')
    /\ in_step w' req prs'
    /\ same_env w w'
    /\ policies w' !! req = Some prs'
    /\ v1alpha1.Spec prs' = v1alpha1.Spec prs
    /\ v1alpha1.Status prs' = v1alpha1.Status (phased prs phase message).
Proof.
  intros (Hf & Hk & stored & Hs & Hm & Hsp).
  rewrite <- Hk in Hs.
  assert (Hv : metav1.ResourceVersion (v1alpha1.Meta stored)
               = metav1.ResourceVersion (v1alpha1.Meta prs)) by (rewrite Hm; reflexivity).
  rewrite (updatePhase_ok prs phase message w stored (Hf _) Hs Hv). cbv zeta.
  eexists _, _. split; [reflexivity|]. simpl.
  assert (Hk' : keyOf (bumped (v1alpha1.Meta stored)) = req)
    by (rewrite Hm, <- Hk; reflexivity).
  rewrite Hk. split; [|split; [|split; [|split]]].
  - split; [exact Hf|]. split; [exact Hk'|].
    eexists. split; [apply lookup_insert_eq|]. split; reflexivity.
  - repeat split.
  - apply lookup_insert_eq.
  - exact Hsp.
  - reflexivity.
Qed.

Lemma complete_in_step w req prs recommendations :
  in_step w req prs ->
  exists w' prs',
    complete ParseDuration prs recommendations w
    = ((requeueAfter ParseDuration prs, None), w')
    /\ policies w' !! req = Some prs'
    /\ v1alpha1.Phase (v1alpha1.Status prs') = v1alpha1.PhaseCompleted
    /\ v1alpha1.Recommendations (v1alpha1.Status prs')
       = v1alpha1.Recommendations (v1alpha1.Status prs).
Proof.
  intros Hin. unfold complete. monad.
  set (message := if v1alpha1.DryRun _ then _ else _).
  destruct (updatePhase_in_step w req prs v1alpha1.PhaseCompleted message Hin)
    as (prs' & w' & -> & _ & _ & Hp & Hsp & Hst).
  exists w', prs'. split; [|split; [exact Hp|]].
  - rewrite (requeueAfter_spec prs' prs Hsp). reflexivity.
  - rewrite Hst. split; reflexivity.
Qed.

Lemma afterRecommending_in_step w req prs recommendations :
  in_step w req prs ->
  (len recommendations <= MaxInt32)%Z ->
  exists w' prs',
    afterRecommending prs recommendations w
    = ((requeueAfter ParseDuration prs, None), w')
    /\ policies w' !! req = Some prs'
    /\ v1alpha1.Phase (v1alpha1.Status prs') = v1alpha1.PhaseCompleted
    /\ v1alpha1.Recommendations (v1alpha1.Status prs') = recommendations.
Proof.
  intros Hin Hlen. unfold afterRecommending, Now. monad. cbv zeta.
  set (prs1 := withAnalysis (now w) recommendations prs).
  assert (Hin1 : in_step w req prs1) by (eapply in_step_local; [| |exact Hin]; reflexivity).
  destruct (negb (v1alpha1.DryRun (v1alpha1.Spec prs1))).
  - destruct (updatePhase_in_step w req prs1 v1alpha1.PhaseUpdating
                "Applying recommendations" Hin1)
      as (prs2 & w2 & -> & Hin2 & _ & _ & Hsp2 & Hst2).
    destruct (applier_applyRecommendations prs2 recommendations w2) as (He & Hp & _).
    pose proof (applyRecommendations_count prs2 recommendations w2) as Hc.
    destruct (applyRecommendations prs2 recommendations w2) as [updatedCount w3].
    simpl in He, Hp, Hc.
    destruct (Z.ltb_spec MaxInt32 updatedCount) as [Hbig|_]; [lia|].
    set (prs3 := withUpdated (now w3) updatedCount prs2).
    assert (Hin3 : in_step w3 req prs3).
    { eapply in_step_local; [| |eapply in_step_env; eassumption]; reflexivity. }
    destruct (complete_in_step w3 req prs3 recommendations Hin3)
      as (w' & prs' & -> & Hp' & Hph & Hrec).
    exists w', prs'. split; [|split; [exact Hp'|split; [exact Hph|]]].
    + rewrite (requeueAfter_spec prs3 prs); [reflexivity|]. simpl. exact Hsp2.
    + rewrite Hrec. simpl. rewrite Hst2. reflexivity.
  - destruct (complete_in_step w req prs1 recommendations Hin1)
      as (w' & prs' & -> & Hp' & Hph & Hrec).
    exists w', prs'. split; [reflexivity|]. split; [exact Hp'|]. split; [exact Hph|].
    rewrite Hrec. reflexivity.
Qed.

Lemma afterDiscovery_in_step r w req prs targetPods :
  in_step w req prs ->
  targetPods <> [] ->
  (len targetPods <= MaxInt32)%Z ->
  let recommendations :=
    recommendAll Sqrt ParseDuration r prs
      (map_to_list (groupPodsByWorkload targetPods w).1) in
  (len recommendations <= MaxInt32)%Z ->
  exists w' prs',
    afterDiscovery r prs targetPods w = ((requeueAfter ParseDuration prs, None), w')
    /\ policies w' !! req = Some prs'
    /\ v1alpha1.Phase (v1alpha1.Status prs') = v1alpha1.PhaseCompleted
    /\ v1alpha1.Recommendations (v1alpha1.Status prs') = recommendations.
Proof.
  intros Hin Hne Hlen recommendations Hrecs. unfold afterDiscovery.
  destruct (Z.ltb_spec MaxInt32 (len targetPods)) as [Hbig|_]; [lia|].
  pose proof (engine_facts.len_pos targetPods Hne) as Hpos.
  destruct (Z.eqb_spec (len targetPods) 0) as [Hz|_]; [lia|]. cbv zeta. monad.
  destruct (reader_groupPodsByWorkload targetPods w) as (He & Hp & _ & _ & _).
  subst recommendations.
  destruct (groupPodsByWorkload targetPods w) as [workloadGroups w1].
  simpl in He, Hp, Hrecs |- *.
  set (prs1 := withTargeted (len targetPods) prs).
  assert (Hin1 : in_step w1 req prs1).
  { eapply in_step_local; [| |eapply in_step_env; eassumption]; reflexivity. }
  destruct (updatePhase_in_step w1 req prs1 v1alpha1.PhaseRecommending
              "Generating recommendations" Hin1)
    as (prs2 & w2 & -> & Hin2 & _ & _ & Hsp2 & _).
  assert (Hsp : v1alpha1.Spec prs2 = v1alpha1.Spec prs) by (rewrite Hsp2; reflexivity).
  rewrite (recommendAll_spec r prs2 prs _ Hsp).
  destruct (afterRecommending_in_step w2 req prs2 _ Hin2 Hrecs)
    as (w' & prs' & -> & Hp' & Hph & Hrec).
  exists w', prs'. split; [|auto].
  rewrite (requeueAfter_spec prs2 prs Hsp). reflexivity.
Qed.

Lemma afterFetch_in_step r w req prs targetPods :
  in_step w req prs ->
  shouldRunAnalysis ParseDuration (now w) prs = true ->
  (discoverTargetPods prs w).1 = Ok targetPods ->
  targetPods <> [] ->
  (len targetPods <= MaxInt32)%Z ->
  let recommendations :=
    recommendAll Sqrt ParseDuration r prs
      (map_to_list (groupPodsByWorkload targetPods w).1) in
  (len recommendations <= MaxInt32)%Z ->
  exists w' prs',
    afterFetch r prs w = ((requeueAfter ParseDuration prs, None), w')
    /\ policies w' !! req = Some prs'
    /\ v1alpha1.Phase (v1alpha1.Status prs') = v1alpha1.PhaseCompleted
    /\ v1alpha1.Recommendations (v1alpha1.Status prs') = recommendations.
Proof.
  intros Hin Hdue Hdisc Hne Hlen recommendations Hrecs.
  unfold afterFetch, Now. monad. rewrite Hdue. cbv beta iota delta [negb].
  destruct (updatePhase_in_step w req prs v1alpha1.PhaseAnalyzing
              "Starting resource analysis" Hin)
    as (prs1 & w1 & -> & Hin1 & He1 & _ & Hsp1 & _).
  unfold afterAnalyzing. monad.
  destruct (reader_discoverTargetPods prs1 w1) as (He2 & Hp2 & _ & _ & Hr2).
  assert (Hd : (discoverTargetPods prs1 w1).1 = Ok targetPods).
  { rewrite <- (Hr2 w (same_env_sym _ _ He1)).
    rewrite (discoverTargetPods_spec prs1 prs w Hsp1). exact Hdisc. }
  destruct (discoverTargetPods prs1 w1) as [discovered w2]. simpl in He2, Hp2, Hd.
  subst discovered.
  assert (Hin2 : in_step w2 req prs1) by (eapply in_step_env; eassumption).
  assert (Hg : (groupPodsByWorkload targetPods w2).1 = (groupPodsByWorkload targetPods w).1).
  { destruct (reader_groupPodsByWorkload targetPods w) as (_ & _ & _ & _ & Hr).
    apply Hr. eapply same_env_trans; eassumption. }
  destruct (afterDiscovery_in_step r w2 req prs1 targetPods Hin2 Hne Hlen)
    as (w' & prs' & -> & Hp' & Hph & Hrec).
  { rewrite Hg, (recommendAll_spec r prs1 prs _ Hsp1). exact Hrecs. }
  exists w', prs'. split; [|split; [exact Hp'|split; [exact Hph|]]].
  - rewrite (requeueAfter_spec prs1 prs Hsp1). reflexivity.
  - rewrite Hrec, Hg. apply recommendAll_spec, Hsp1.
Qed.

(** The status writes of a stretch of the pass: every one of them went
    through, except possibly the last, and when the last one failed the
    stretch ends with an error. *)
Definition tail_ok (writes : list Event) (err : option error) : Prop :=
  Forall isStatusWrite writes
  /\ forall good ev rest,
      writes = good ++ ev :: rest -> failure ev <> None -> rest = [] /\ err <> None.

Definition pass_tail (m : M (Result * option error)) : Prop :=
  forall w, exists writes,
    policyCalls (trace (m w).2) = policyCalls (trace w) ++ writes
    /\ tail_ok writes (m w).1.2.

Lemma tail_ok_nil err : tail_ok [] err.
Proof.
  split; [constructor|]. intros good ev rest E. destruct good; discriminate.
Qed.

Lemma tail_ok_last ev (err : option error) :
  isStatusWrite ev -> err <> None -> tail_ok [ev] err.
Proof.
  intros Hev Herr. split; [repeat constructor; exact Hev|].
  intros good e rest E _. destruct good as [|g good].
  - injection E as _ <-. auto.
  - destruct good; discriminate.
Qed.

Lemma tail_ok_cons ev writes err :
  isStatusWrite ev -> failure ev = None -> tail_ok writes err -> tail_ok (ev :: writes) err.
Proof.
  intros Hev Hok [Hall Htail]. split; [constructor; assumption|].
  intros good e rest E Hfail. destruct good as [|g good].
  - injection E as -> _. contradiction.
  - injection E as _ E. eapply Htail; eassumption.
Qed.

Lemma pass_tail_ret res err : pass_tail (mret (res, err)).
Proof.
  intros w. exists []. monad. simpl. rewrite app_nil_r.
  split; [reflexivity | apply tail_ok_nil].
Qed.

Lemma pass_tail_applier {A} (m : M A) (k : A -> M (Result * option error)) :
  applier m -> (forall a, pass_tail (k a)) -> pass_tail (m ≫= k).
Proof.
  intros Hm Hk w. monad. destruct (Hm w) as (_ & _ & Ht).
  destruct (m w) as [a w1]. simpl in Ht.
  destruct (Hk a w1) as (writes & Hw & Hok).
  exists writes. rewrite Hw, Ht. auto.
Qed.

Lemma pass_tail_write prs phase message
    (k : v1alpha1.PodRightSizing * option error -> M (Result * option error)) :
  (forall p, pass_tail (k (p, None))) ->
  (forall p e, exists res e', k (p, Some e) = mret (res, Some e')) ->
  pass_tail (updatePhase prs phase message ≫= k).
Proof.
  intros Hok Hfail w. monad.
  destruct (updatePhase prs phase message w) as [[p err] w1] eqn:E.
  destruct (updatePhase_cases _ _ _ _ _ _ _ E)
    as (_ & _ & ev & Hcall & Htrace & [[Hev ->]|(e & Hev & -> & _ & _)]).
  - destruct (Hok p w1) as (writes & Hw & Htail).
    exists (ev :: writes). rewrite Hw, Htrace, policyCalls_app. simpl.
    unfold isPolicyCall. rewrite Hcall. rewrite <- app_assoc. split; [reflexivity|].
    apply tail_ok_cons; [eexists _, _; exact Hcall | exact Hev | exact Htail].
  - destruct (Hfail p (APIFailure e)) as (res & e' & ->). monad. simpl.
    exists [ev]. rewrite Htrace, policyCalls_app. simpl.
    unfold isPolicyCall. rewrite Hcall. split; [reflexivity|].
    apply tail_ok_last; [eexists _, _; exact Hcall | discriminate].
Qed.

Lemma applier_Now : applier Now.
Proof. intros w. unfold Now. simpl. repeat split. Qed.

Lemma pass_tail_complete prs recommendations :
  pass_tail (complete ParseDuration prs recommendations).
Proof.
  unfold complete. apply pass_tail_write.
  - intros p. apply pass_tail_ret.
  - intros p e. eexists _, _. reflexivity.
Qed.

Lemma pass_tail_afterRecommending prs recommendations :
  pass_tail (afterRecommending prs recommendations).
Proof.
  unfold afterRecommending. apply pass_tail_applier; [apply applier_Now|].
  intros now. cbv zeta. destruct (negb _); [|apply pass_tail_complete].
  apply pass_tail_write.
  - intros p. apply pass_tail_applier; [apply applier_applyRecommendations|].
    intros updatedCount. destruct (_ <? _)%Z; [apply pass_tail_ret|].
    apply pass_tail_applier; [apply applier_Now|]. intros now'.
    apply pass_tail_complete.
  - intros p e. eexists _, _. reflexivity.
Qed.

Lemma pass_tail_afterDiscovery r prs targetPods :
  pass_tail (afterDiscovery r prs targetPods).
Proof.
  unfold afterDiscovery. destruct (_ <? _)%Z; [apply pass_tail_ret|]. cbv zeta.
  destruct (_ =? _)%Z.
  - apply pass_tail_write.
    + intros p. apply pass_tail_ret.
    + intros p e. eexists _, _. reflexivity.
  - apply pass_tail_applier; [apply reader_applier, reader_groupPodsByWorkload|].
    intros workloadGroups. apply pass_tail_write.
    + intros p. apply pass_tail_afterRecommending.
    + intros p e. eexists _, _. reflexivity.
Qed.

Lemma pass_tail_afterAnalyzing r prs : pass_tail (afterAnalyzing r prs).
Proof.
  unfold afterAnalyzing.
  apply pass_tail_applier; [apply reader_applier, reader_discoverTargetPods|].
  intros [targetPods|err]; [apply pass_tail_afterDiscovery|].
  apply (pass_tail_write _ _ _ (fun _ => mret (mkResult (5 * Minute), Some err))).
  - intros p. apply pass_tail_ret.
  - intros p e. eexists _, _. reflexivity.
Qed.

Lemma pass_tail_afterFetch r prs : pass_tail (afterFetch r prs).
Proof.
  unfold afterFetch. apply pass_tail_applier; [apply applier_Now|].
  intros now. destruct (negb _); [apply pass_tail_ret|].
  apply pass_tail_write.
  - intros p. apply pass_tail_afterAnalyzing.
  - intros p e. eexists _, _. reflexivity.
Qed.

(** The calls of a whole pass on the policy object: one fetch, then status
    writes. *)
Lemma Reconcile_policy_calls r req w :
  exists fetched writes,
    policyCalls (trace (Reconcile Sqrt ParseDuration r req w).2)
    = policyCalls (trace w) ++ mkEvent (GetPodRightSizing req) fetched :: writes
    /\ tail_ok writes (Reconcile Sqrt ParseDuration r req w).1.2.
Proof.
  rewrite Reconcile_staged. monad. rewrite Get_run.
  set (fetched := match faults w (GetPodRightSizing req) with
                  | Some e => Some e
                  | None => match policies w !! req with
                            | Some _ => None
                            | None => Some NotFound
                            end
                  end).
  set (w1 := logged (mkEvent (GetPodRightSizing req) fetched) w).
  assert (Hw1 : policyCalls (trace w1)
                = policyCalls (trace w) ++ [mkEvent (GetPodRightSizing req) fetched]).
  { unfold w1. simpl. rewrite policyCalls_app. reflexivity. }
  exists fetched.
  destruct (match faults w (GetPodRightSizing req) with
            | Some e => Err e
            | None => match policies w !! req with
                      | Some obj => Ok obj
                      | None => Err NotFound
                      end
            end) as [prs|err].
  - destruct (pass_tail_afterFetch r prs w1) as (writes & Hw & Htail).
    exists writes. rewrite Hw, Hw1, <- app_assoc. auto.
  - exists []. split; [|apply tail_ok_nil].
    destruct (IsNotFound err); simpl; exact Hw1.
Qed.

End Reconciler_facts.

End controller_facts.

(** ** Claims about the reconcile pass *)

Module controller_spec.

Import client controller controller_facts.

(** C6. In a reconcile pass over any number of workload groups during which
    the cluster API refuses nothing, a workload whose recommendations cannot
    be generated (its metrics call fails, returns no pod, or the engine
    fails) is passed over and the pass goes on: the stored recommendations
    are exactly those of the workloads that succeeded, in the order of the
    groups, the stored phase is Completed, and the pass returns no error. *)
Theorem workload_failures_isolated (Sqrt : Q -> Q) (ParseDuration : string -> option Z)
    (r : PodRightSizingReconciler) (w : Cluster)
    (req : NamespacedName) (prs : v1alpha1.PodRightSizing)
    (targetPods : list corev1.Pod) :
  (forall c, faults w c = None) ->
  policies w !! req = Some prs ->
  keyOf (v1alpha1.Meta prs) = req ->
  shouldRunAnalysis ParseDuration (now w) prs = true ->
  (discoverTargetPods prs w).1 = Ok targetPods ->
  targetPods <> [] ->
  (len targetPods <= MaxInt32)%Z ->
  let groups := map_to_list (groupPodsByWorkload targetPods w).1 in
  let successful :=
    List.filter (fun group => is_ok (produced Sqrt ParseDuration r prs group)) groups in
  let recommendations := flat_map (contribution Sqrt ParseDuration r prs) successful in
  (len recommendations <= MaxInt32)%Z ->
  exists w' prs',
    Reconcile Sqrt ParseDuration r req w = ((requeueAfter ParseDuration prs, None), w')
    /\ policies w' !! req = Some prs'
    /\ v1alpha1.Phase (v1alpha1.Status prs') = v1alpha1.PhaseCompleted
    /\ v1alpha1.Recommendations (v1alpha1.Status prs') = recommendations.
Proof.
  intros Hfaults Hpol Hkey Hdue Hdisc Hne Hlen groups successful recommendations Hrecs.
  assert (Hall : recommendations
                 = recommendAll Sqrt ParseDuration r prs groups).
  { unfold recommendations, successful.
    rewrite <- contribution_successful, recommendAll_flat_map. reflexivity. }
  rewrite Reconcile_staged. monad.
  rewrite Get_run, Hfaults, Hpol. cbv beta iota.
  set (w1 := logged _ w).
  assert (Hin : in_step w1 req prs).
  { split; [exact Hfaults|]. split; [exact Hkey|]. exists prs. auto. }
  destruct (afterFetch_in_step Sqrt ParseDuration r w1 req prs targetPods Hin Hdue)
    as (w' & prs' & Hrun & Hp' & Hph & Hrec); trivial.
  { destruct (reader_discoverTargetPods prs w) as (_ & _ & _ & _ & Hr).
    rewrite (Hr w1); [exact Hdisc | repeat split]. }
  { destruct (reader_groupPodsByWorkload targetPods w) as (_ & _ & _ & _ & Hr).
    rewrite (Hr w1) by (repeat split). fold groups. rewrite <- Hall. exact Hrecs. }
  exists w', prs'. split; [exact Hrun|]. split; [exact Hp'|]. split; [exact Hph|].
  rewrite Hrec, Hall.
  destruct (reader_groupPodsByWorkload targetPods w) as (_ & _ & _ & _ & Hr).
  rewrite (Hr w1) by (repeat split). reflexivity.
Qed.

(** *** A small cluster

    Two namespaces, [shop] and [kube-system]; a Deployment [web] (through the
    replica set [web-7d9]) and a StatefulSet [db] in [shop], a pod [dns-0] in
    [kube-system]; every pod running, labelled [managed=yes] and sized. The
    metrics provider answers for [web] and is down for everything else. *)

Definition meta (namespace name : string) (labels : list (string * string))
    (owners : list metav1.OwnerReference) : metav1.ObjectMeta :=
  metav1.mkObjectMeta name namespace (list_to_map labels) owners 1.

Definition sized : corev1.ResourceRequirements :=
  corev1.mkResourceRequirements ∅ {[ corev1.ResourceCPU := resource.NewMilliQuantity 500 ]}.

Definition runningPod (namespace name kind owner : string) : corev1.Pod :=
  corev1.mkPod
    (meta namespace name [("managed", "yes")] [metav1.mkOwnerReference kind owner])
    [corev1.mkContainer "main" sized] corev1.PodRunning.

(** A policy on the pods labelled [managed=yes], in [namespace] or, for the
    empty name, in every namespace, with [kube-system] excluded. *)
Definition policy (namespace : string) (dryRun : bool) : v1alpha1.PodRightSizing :=
  v1alpha1.mkPodRightSizing (meta "ops" "rightsize" [] [])
    (v1alpha1.mkPodRightSizingSpec
       (v1alpha1.mkTargetSpec namespace
          (Some (metav1.mkLabelSelector [("managed", "yes")] [])) None
          ["kube-system"] [])
       "168h" (v1alpha1.mkUpdatePolicy v1alpha1.UpdateStrategyGradual)
       v1alpha1.noThresholds dryRun)
    (v1alpha1.mkPodRightSizingStatus v1alpha1.PhaseUnset "" None None 0 0 []).

Definition rightsize : NamespacedName := ("ops", "rightsize").

Definition web0 : corev1.Pod := runningPod "shop" "web-0" "ReplicaSet" "web-7d9".
Definition db0 : corev1.Pod := runningPod "shop" "db-0" "StatefulSet" "db".
Definition dns0 : corev1.Pod := runningPod "kube-system" "dns-0" "ReplicaSet" "dns-5c4".

Definition shop (stored : v1alpha1.PodRightSizing) : Cluster :=
  mkCluster {[ rightsize := stored ]}
    [corev1.mkNamespace (meta "" "shop" [] []);
     corev1.mkNamespace (meta "" "kube-system" [] [])]
    [web0; db0; dns0]
    [appsv1.mkReplicaSet
       (meta "shop" "web-7d9" [] [metav1.mkOwnerReference "Deployment" "web"])]
    {[ ("Deployment", ("shop", "web")) :=
         appsv1.mkWorkload (meta "shop" "web" [] []) [corev1.mkContainer "main" sized] ]}
    1000 (fun _ => None) [].

(** The same cluster with a server that refuses one call. *)
Definition refusing (c : Call) (e : APIError) (w : Cluster) : Cluster :=
  mkCluster (policies w) (namespaces w) (pods w) (replicaSets w) (workloads w) (now w)
    (fun c' => if bool_decide (c' = c) then Some e else faults w c') (trace w).

Definition provider : MetricsClientInterface :=
  fun namespace name type window =>
    if metav1.eqs name "web" then
      Ok (metrics.mkWorkloadMetrics name type namespace
            [metrics.mkPodMetrics "web-0" namespace
               (engine_spec.readings "cores" engine_spec.steady)
               (engine_spec.readings "bytes" (repeat 1000%Q 10))])
    else Err "connection refused".

Definition operator : PodRightSizingReconciler :=
  mkReconciler provider analyzer.NewRecommendationEngine.

(** What an observer sees of a run: the policy calls with their outcomes,
    and the stored phase and recommended pods. *)
Definition outcomes (w : Cluster) : list (Call * option APIError) :=
  map (fun e => (call e, failure e)) (policyCalls (trace w)).

Definition storedPhase (w : Cluster) : option v1alpha1.RightSizingPhase :=
  (fun p => v1alpha1.Phase (v1alpha1.Status p)) <$> policies w !! rightsize.

Definition storedPods (w : Cluster) : option (list string) :=
  (fun p => map (fun rec => v1alpha1.Name (v1alpha1.PodRef rec))
              (v1alpha1.Recommendations (v1alpha1.Status p)))
  <$> policies w !! rightsize.

Definition podKeys (r : result error (list corev1.Pod)) : option (list NamespacedName) :=
  match r with
  | Ok pods => Some (map (fun pod => keyOf (corev1.PodMeta pod)) pods)
  | Err _ => None
  end.

(** C6 on the small cluster, targeting [shop]: the metrics of [db] are
    refused, the pass ends in Completed, and only [web-0] is recommended. *)
Lemma workload_failures_isolated_witness :
  produced Float64.Sqrt time.ParseDuration operator (policy "shop" true)
    ("shop/StatefulSet/db", [db0]) = Err (MetricsFailure "connection refused")
  /\ exists w' prs',
      Reconcile Float64.Sqrt time.ParseDuration operator rightsize
        (shop (policy "shop" true))
      = ((requeueAfter time.ParseDuration (policy "shop" true), None), w')
      /\ policies w' !! rightsize = Some prs'
      /\ v1alpha1.Phase (v1alpha1.Status prs') = v1alpha1.PhaseCompleted
      /\ map (fun rec => v1alpha1.Name (v1alpha1.PodRef rec))
           (v1alpha1.Recommendations (v1alpha1.Status prs')) = ["web-0"].
Proof.
  split; [vm_compute; reflexivity|].
  destruct (workload_failures_isolated Float64.Sqrt time.ParseDuration operator
              (shop (policy "shop" true)) rightsize (policy "shop" true) [web0; db0])
    as (w' & prs' & Hrun & Hp & Hph & Hrec).
  - intros c. reflexivity.
  - vm_compute. reflexivity.
  - reflexivity.
  - reflexivity.
  - vm_compute. reflexivity.
  - discriminate.
  - vm_compute. discriminate.
  - vm_compute. discriminate.
  - exists w', prs'. split; [exact Hrun|]. split; [exact Hp|]. split; [exact Hph|].
    rewrite Hrec. vm_compute. reflexivity.
Defined.

(** C7 fails on the code when the target names no namespace: the policy
    excludes [kube-system], yet the pod [dns-0] of [kube-system] is among the
    discovered target pods. *)
Theorem excluded_namespace_discovered :
  let prs := policy "" true in
  v1alpha1.ExcludeNamespaces (v1alpha1.Target (v1alpha1.Spec prs)) = ["kube-system"]
  /\ isNamespaceExcluded (metav1.Namespace (corev1.PodMeta dns0))
       (v1alpha1.ExcludeNamespaces (v1alpha1.Target (v1alpha1.Spec prs))) = true
  /\ podKeys (discoverTargetPods prs (shop prs)).1
     = Some [("shop", "web-0"); ("shop", "db-0"); ("kube-system", "dns-0")]
  /\ podKeys (discoverTargetPods (policy "shop" true) (shop (policy "shop" true))).1
     = Some [("shop", "web-0"); ("shop", "db-0")].
Proof. repeat split; vm_compute; reflexivity. Qed.

(** C8, as amended. Every status write of a pass is attempted once:
    [updatePhase] places one write and no read; when the write fails, a
    conflict included (and a stale copy does conflict), its error comes back
    and the stored object is as it was. In [Reconcile] the object is fetched
    once, and nothing follows a failed status write, neither a new fetch nor
    a second write: the pass ends there and returns an error. *)
Theorem status_write_attempted_once (Sqrt : Q -> Q)
    (ParseDuration : string -> option Z) (r : PodRightSizingReconciler) :
  (forall prs phase message w,
     exists ev,
       trace (updatePhase prs phase message w).2 = trace w ++ [ev]
       /\ call ev = UpdateStatus (keyOf (v1alpha1.Meta prs)) phase
       /\ (failure ev = None -> (updatePhase prs phase message w).1.2 = None)
       /\ (forall e, failure ev = Some e ->
            (updatePhase prs phase message w).1.2 = Some (APIFailure e)
            /\ policies (updatePhase prs phase message w).2 = policies w)
       /\ (forall stored,
            faults w (UpdateStatus (keyOf (v1alpha1.Meta prs)) phase) = None ->
            policies w !! keyOf (v1alpha1.Meta prs) = Some stored ->
            metav1.ResourceVersion (v1alpha1.Meta stored)
            <> metav1.ResourceVersion (v1alpha1.Meta prs) ->
            failure ev = Some Conflict))
  /\ (forall req w,
     exists fetched writes,
       policyCalls (trace (Reconcile Sqrt ParseDuration r req w).2)
       = policyCalls (trace w) ++ mkEvent (GetPodRightSizing req) fetched :: writes
       /\ Forall isStatusWrite writes
       /\ forall good ev rest,
           writes = good ++ ev :: rest -> failure ev <> None ->
           rest = [] /\ (Reconcile Sqrt ParseDuration r req w).1.2 <> None).
Proof.
  split.
  - intros prs phase message w.
    destruct (updatePhase prs phase message w) as [[prs' err] w'] eqn:E.
    destruct (updatePhase_cases _ _ _ _ _ _ _ E)
      as (_ & _ & ev & Hcall & Htrace & Hcases).
    exists ev. simpl. split; [exact Htrace|]. split; [exact Hcall|].
    split; [|split].
    + intros Hok. destruct Hcases as [[_ ->]|(e & He & _)]; [reflexivity | congruence].
    + intros e He. destruct Hcases as [[Hok _]|(e' & He' & -> & Hp & _)]; [congruence|].
      split; [congruence | exact Hp].
    + intros stored Hf Hs Hv.
      rewrite (updatePhase_stale _ _ _ _ _ Hf Hs Hv) in E.
      injection E as _ _ <-. simpl in Htrace.
      apply app_inv_head in Htrace. injection Htrace as <-. reflexivity.
  - intros req w.
    destruct (Reconcile_policy_calls Sqrt ParseDuration r req w)
      as (fetched & writes & Hcalls & Hall & Htail).
    exists fetched, writes. auto.
Qed.

(** A copy of the policy read before another writer changed it. *)
Definition rewritten (prs : v1alpha1.PodRightSizing) : v1alpha1.PodRightSizing :=
  v1alpha1.mkPodRightSizing (bumped (v1alpha1.Meta prs)) (v1alpha1.Spec prs)
    (v1alpha1.Status prs).

(** C8 on a stale copy: the one write conflicts. *)
Lemma status_write_attempted_once_witness :
  exists ev,
    trace (updatePhase (policy "shop" true) v1alpha1.PhaseAnalyzing "Starting resource analysis"
             (shop (rewritten (policy "shop" true)))).2 = [] ++ [ev]
    /\ failure ev = Some Conflict.
Proof.
  destruct (proj1 (status_write_attempted_once Float64.Sqrt time.ParseDuration operator)
              (policy "shop" true) v1alpha1.PhaseAnalyzing "Starting resource analysis"
              (shop (rewritten (policy "shop" true))))
    as (ev & Htrace & _ & _ & _ & Hstale).
  exists ev. split; [exact Htrace|].
  apply (Hstale (rewritten (policy "shop" true))).
  - reflexivity.
  - vm_compute. reflexivity.
  - vm_compute. discriminate.
Defined.

(** C8 as first stated fails. A stale copy: the write conflicts, is the only
    call placed, and the store keeps the other writer's object. A conflict
    on the last write of a pass: the pass ends with that error after one
    fetch and three writes, and the store is left in phase Recommending
    without the recommendation for [web-0] that the pass had computed. *)
Lemma conflicting_write_abandoned :
  let stale :=
    updatePhase (policy "shop" true) v1alpha1.PhaseAnalyzing "Starting resource analysis"
      (shop (rewritten (policy "shop" true))) in
  let pass :=
    Reconcile Float64.Sqrt time.ParseDuration operator rightsize
      (refusing (UpdateStatus rightsize v1alpha1.PhaseCompleted) Conflict
         (shop (policy "shop" true))) in
  stale.1.2 = Some (APIFailure Conflict)
  /\ map (fun e => (call e, failure e)) (trace stale.2)
     = [(UpdateStatus rightsize v1alpha1.PhaseAnalyzing, Some Conflict)]
  /\ policies stale.2 = policies (shop (rewritten (policy "shop" true)))
  /\ pass.1 = (noRequeue, Some (APIFailure Conflict))
  /\ outcomes pass.2
     = [(GetPodRightSizing rightsize, None);
        (UpdateStatus rightsize v1alpha1.PhaseAnalyzing, None);
        (UpdateStatus rightsize v1alpha1.PhaseRecommending, None);
        (UpdateStatus rightsize v1alpha1.PhaseCompleted, Some Conflict)]
  /\ storedPhase pass.2 = Some v1alpha1.PhaseRecommending
  /\ storedPods pass.2 = Some [].
Proof. repeat split; vm_compute; reflexivity. Qed.

End controller_spec.

(** * Further properties of the engine *)

Module engine_extra.

Import Float64 Float64_facts stats stats_facts analyzer engine_facts.
Local Open Scope Q_scope.

(** A sample that is already in ascending order. *)
Definition ramp : list Q := [1; 2; 4; 4; 7; 11].

Lemma at_index_sorted (s : list Q) (i j : Z) :
  Sorted Qle s -> (0 <= i <= j)%Z -> (j < len s)%Z -> at_index s i <= at_index s j.
Proof.
  intros Hs Hij Hj. apply Sorted_StronglySorted in Hs; [|intros a b c; apply Qle_trans].
  unfold at_index. apply sorted_nth_le; [exact Hs|]. unfold len in Hj. lia.
Qed.

(** Between the end points the percentile lies between the readings at the
    floor and at the ceiling of its index. *)
Lemma calculatePercentile_between (s : list Q) (p : Q) :
  s <> [] -> Sorted Qle s -> 0 < p < 100 ->
  let index := p / 100 * inject_Z (len s - 1) in
  at_index s (Qfloor index) <= calculatePercentile s p <= at_index s (Qceiling index).
Proof.
  intros Hne Hs Hp index.
  destruct (percentile_index_range s p Hne Hp) as (_ & Hf & Hc & Hfc).
  fold index in Hf, Hc, Hfc.
  rewrite (calculatePercentile_mid s p Hne Hp). fold index.
  assert (Hab : at_index s (Qfloor index) <= at_index s (Qceiling index))
    by (apply at_index_sorted; trivial; lia).
  destruct (Z.eqb_spec (Qfloor index) (Qceiling index)) as [E|E].
  - split; [apply Qle_refl | exact Hab].
  - pose proof (Qfloor_le index) as H1. pose proof (Qlt_floor index) as H2.
    rewrite inject_Z_plus in H2. change (inject_Z 1) with 1 in H2.
    apply interpolation_range; split; trivial; try apply Qle_refl; lra.
Qed.

Lemma index_monotone (k p q : Q) : 0 <= k -> p <= q -> p / 100 * k <= q / 100 * k.
Proof.
  intros Hk Hpq. rewrite !div_hundred.
  assert (H : 0 <= (q - p) * (1 # 100) * k)
    by (apply Qmult_le_0_compat; [|exact Hk]; lra).
  assert (E : (q - p) * (1 # 100) * k == q * (1 # 100) * k - p * (1 # 100) * k) by ring.
  lra.
Qed.

(** X1. On a non-empty ascending sample the percentile value never decreases
    when the percentile grows. *)
Theorem calculatePercentile_monotone (s : list Q) (p q : Q) :
  s <> [] -> Sorted Qle s -> p <= q ->
  calculatePercentile s p <= calculatePercentile s q.
Proof.
  intros Hne Hs Hpq.
  pose proof (calculatePercentile_range s p Hne) as [Hp1 Hp2].
  pose proof (calculatePercentile_range s q Hne) as [Hq1 Hq2].
  destruct (Qlt_le_dec 0 p) as [Hp0|Hp0].
  2:{ rewrite (calculatePercentile_low s p Hne Hp0).
      rewrite (sorted_first_min s Hne Hs). exact Hq1. }
  destruct (Qlt_le_dec q 100) as [Hq100|Hq100].
  2:{ rewrite (calculatePercentile_high s q Hne Hq100).
      rewrite (sorted_last_max s Hne Hs). exact Hp2. }
  assert (Hp : 0 < p < 100) by (split; lra).
  assert (Hq : 0 < q < 100) by (split; lra).
  pose proof (len_pos s Hne) as Hlen.
  assert (Hk : 0 <= inject_Z (len s - 1))
    by (change 0 with (inject_Z 0); rewrite <- Zle_Qle; lia).
  pose proof (index_monotone _ p q Hk Hpq) as Hidx.
  destruct (percentile_index_range s p Hne Hp) as (_ & Hpf & Hpc & Hpfc).
  destruct (percentile_index_range s q Hne Hq) as (_ & Hqf & Hqc & Hqfc).
  pose proof (calculatePercentile_between s p Hne Hs Hp) as [_ Hup].
  pose proof (calculatePercentile_between s q Hne Hs Hq) as [Hlow _].
  cbv zeta in *.
  set (ip := p / 100 * inject_Z (len s - 1)) in *.
  set (iq := q / 100 * inject_Z (len s - 1)) in *.
  destruct (Z_le_gt_dec (Qceiling ip) (Qfloor iq)) as [Hbc|Hbc].
  - eapply Qle_trans; [exact Hup|]. eapply Qle_trans; [|exact Hlow].
    apply at_index_sorted; trivial; lia.
  - pose proof (Qfloor_resp_le _ _ Hidx) as Hfl.
    destruct (floor_ceiling_cases ip) as [[Hip Hcp]|[Hip Hcp]]; [lia|].
    assert (Efl : Qfloor iq = Qfloor ip) by lia.
    destruct (floor_ceiling_cases iq) as [[Hiq Hcq]|[Hiq Hcq]].
    { exfalso. pose proof (Qfloor_le ip) as H1. rewrite Efl in Hiq.
      apply Hip. apply Qle_antisym; lra. }
    rewrite (calculatePercentile_mid s p Hne Hp), (calculatePercentile_mid s q Hne Hq).
    fold ip iq. rewrite Hcp, Hcq, Efl.
    destruct (Z.eqb_spec (Qfloor ip) (Qfloor ip + 1)) as [?|_]; [lia|].
    set (a := at_index s (Qfloor ip)). set (b := at_index s (Qfloor ip + 1)).
    assert (Hab : a <= b) by (apply at_index_sorted; trivial; lia).
    set (k := inject_Z (Qfloor ip)).
    assert (H : 0 <= (b - a) * (iq - ip)) by (apply Qmult_le_0_compat; lra).
    assert (E : b * (iq - k) + a * (1 - (iq - k)) - (b * (ip - k) + a * (1 - (ip - k)))
                == (b - a) * (iq - ip)) by ring.
    lra.
Qed.

Lemma calculatePercentile_monotone_witness :
  ramp <> [] /\ Sorted Qle ramp /\ 50 <= 95
  /\ calculatePercentile ramp 50 <= calculatePercentile ramp 95.
Proof.
  assert (Hne : ramp <> []) by discriminate.
  assert (Hs : Sorted Qle ramp).
  { unfold ramp. repeat (constructor; try discriminate). }
  assert (Hpq : 50 <= 95) by discriminate.
  split; [exact Hne|]. split; [exact Hs|]. split; [exact Hpq|].
  exact (calculatePercentile_monotone ramp 50 95 Hne Hs Hpq).
Defined.


(** ** The confidence score *)

Lemma floor_lt (x : Q) (k : Z) : x < inject_Z k -> (Qfloor x < k)%Z.
Proof. intros H. pose proof (Qfloor_le x). rewrite Zlt_Qlt. lra. Qed.

Lemma floor_ge (x : Q) (k : Z) : inject_Z k <= x -> (k <= Qfloor x)%Z.
Proof. intros H. rewrite <- (Qfloor_Z k). apply Qfloor_resp_le, H. Qed.

(** The four bands of the score before the boost. *)
Lemma confidence_of_cv_bands (cv : Q) :
  let c := design.confidence_of_cv cv in
  (cv <= 0.1 /\ c = 100%Z)
  \/ (0.1 < cv <= 0.3 /\ c = (95 + Qfloor (5 * (1 - (cv - 0.1) * 5)))%Z
      /\ (95 <= c <= 99)%Z)
  \/ (0.3 < cv <= 0.5 /\ c = (70 + Qfloor (25 * (1 - (cv - 0.3) * 5)))%Z
      /\ (70 <= c <= 94)%Z)
  \/ (0.5 < cv /\ c = (30 + Qfloor (20 * (1 - Qmin (cv - 0.5) 0.5 * 2)))%Z
      /\ (30 <= c <= 49)%Z).
Proof.
  unfold design.confidence_of_cv.
  destruct (ltb 0.5 cv) eqn:E1; [|destruct (ltb 0.3 cv) eqn:E2;
    [|destruct (ltb 0.1 cv) eqn:E3]]; cbv zeta.
  - apply ltb_lt in E1. right; right; right. split; [exact E1|].
    rewrite div_half. split; [reflexivity|].
    pose proof (Q.le_min_r (cv - 0.5) 0.5) as Hm.
    assert (Hm0 : 0 < Qmin (cv - 0.5) 0.5).
    { destruct (Qmin_cases (cv - 0.5) 0.5) as [E|E]; rewrite E; lra. }
    set (x := 20 * (1 - Qmin (cv - 0.5) 0.5 * 2)).
    assert (H0 : (0 <= Qfloor x)%Z) by (apply floor_ge; unfold x, inject_Z; lra).
    assert (H1 : (Qfloor x < 20)%Z) by (apply floor_lt; unfold x, inject_Z; lra).
    lia.
  - apply ltb_ge in E1. apply ltb_lt in E2. right; right; left.
    split; [split; assumption|]. rewrite div_fifth. split; [reflexivity|].
    set (x := 25 * (1 - (cv - 0.3) * 5)).
    assert (H0 : (0 <= Qfloor x)%Z) by (apply floor_ge; unfold x, inject_Z; lra).
    assert (H1 : (Qfloor x < 25)%Z) by (apply floor_lt; unfold x, inject_Z; lra).
    lia.
  - apply ltb_ge in E2. apply ltb_lt in E3. right; left.
    split; [split; assumption|]. rewrite div_fifth. split; [reflexivity|].
    set (x := 5 * (1 - (cv - 0.1) * 5)).
    assert (H0 : (0 <= Qfloor x)%Z) by (apply floor_ge; unfold x, inject_Z; lra).
    assert (H1 : (Qfloor x < 5)%Z) by (apply floor_lt; unfold x, inject_Z; lra).
    lia.
  - apply ltb_ge in E3. left. split; [exact E3 | reflexivity].
Qed.

Lemma confidence_of_cv_antitone (cv1 cv2 : Q) :
  cv1 <= cv2 -> (design.confidence_of_cv cv2 <= design.confidence_of_cv cv1)%Z.
Proof.
  intros Hle.
  destruct (confidence_of_cv_bands cv1) as [[B1 E1]|[(B1 & E1 & R1)|[(B1 & E1 & R1)|(B1 & E1 & R1)]]];
  destruct (confidence_of_cv_bands cv2) as [[B2 E2]|[(B2 & E2 & R2)|[(B2 & E2 & R2)|(B2 & E2 & R2)]]];
  try lia; try (exfalso; lra).
  - rewrite E1, E2. apply Z.add_le_mono_l, Qfloor_resp_le. lra.
  - rewrite E1, E2. apply Z.add_le_mono_l, Qfloor_resp_le. lra.
  - rewrite E1, E2. apply Z.add_le_mono_l, Qfloor_resp_le.
    assert (Hm : Qmin (cv1 - 0.5) 0.5 <= Qmin (cv2 - 0.5) 0.5).
    { apply Q.min_glb; [|apply Q.le_min_r].
      pose proof (Q.le_min_l (cv1 - 0.5) 0.5). lra. }
    lra.
Qed.

Lemma boost_range (n : Z) :
  (0 <= n)%Z -> 0 <= Qmin (inject_Z n / 100) 0.1 <= 0.1.
Proof.
  intros Hn. split; [|apply Q.le_min_r]. apply Q.min_glb; [|lra].
  rewrite div_hundred.
  assert (0 <= inject_Z n) by (change 0 with (inject_Z 0); rewrite <- Zle_Qle; lia).
  lra.
Qed.

Lemma boosted_monotone (c c' n n' : Z) :
  (0 <= c <= c')%Z -> (0 <= n <= n')%Z ->
  (design.boosted c n <= design.boosted c' n')%Z.
Proof.
  intros Hc Hn. unfold design.boosted.
  pose proof (boost_range n ltac:(lia)) as Hb.
  pose proof (boost_range n' ltac:(lia)) as Hb'.
  assert (Hbb : Qmin (inject_Z n / 100) 0.1 <= Qmin (inject_Z n' / 100) 0.1).
  { apply Q.min_glb; [|apply Q.le_min_r].
    eapply Qle_trans; [apply Q.le_min_l|]. rewrite !div_hundred.
    assert (inject_Z n <= inject_Z n') by (rewrite <- Zle_Qle; lia). lra. }
  set (b := Qmin (inject_Z n / 100) 0.1) in *.
  set (b' := Qmin (inject_Z n' / 100) 0.1) in *.
  assert (H0 : 0 <= inject_Z c) by (change 0 with (inject_Z 0); rewrite <- Zle_Qle; lia).
  assert (H1 : inject_Z c <= inject_Z c') by (rewrite <- Zle_Qle; lia).
  assert (H2 : 0 <= (inject_Z c' - inject_Z c) * (1 + b))
    by (apply Qmult_le_0_compat; lra).
  assert (H3 : 0 <= inject_Z c' * (b' - b)) by (apply Qmult_le_0_compat; lra).
  assert (E : inject_Z c' * (1 + b') - inject_Z c * (1 + b)
              == (inject_Z c' - inject_Z c) * (1 + b) + inject_Z c' * (b' - b)) by ring.
  assert (Hx : inject_Z c * (1 + b) <= inject_Z c' * (1 + b')) by lra.
  apply Qfloor_resp_le in Hx. lia.
Qed.

(** The boost never lowers a score in [[0,100]] and adds at most a tenth. *)
Lemma boosted_bounds (c n : Z) :
  (0 <= c <= 100)%Z -> (0 <= n)%Z ->
  (c <= design.boosted c n)%Z /\ (10 * design.boosted c n <= 11 * c)%Z.
Proof.
  intros Hc Hn. unfold design.boosted.
  pose proof (boost_range n Hn) as Hb.
  set (b := Qmin (inject_Z n / 100) 0.1) in *.
  assert (H0 : 0 <= inject_Z c) by (change 0 with (inject_Z 0); rewrite <- Zle_Qle; lia).
  assert (H1 : 0 <= inject_Z c * b) by (apply Qmult_le_0_compat; lra).
  assert (H2 : 0 <= inject_Z c * (0.1 - b)) by (apply Qmult_le_0_compat; lra).
  set (x := inject_Z c * (1 + b)).
  assert (E1 : x == inject_Z c + inject_Z c * b) by (unfold x; ring).
  assert (E2 : inject_Z c * 1.1 - x == inject_Z c * (0.1 - b)) by (unfold x; ring).
  split.
  - assert (c <= Qfloor x)%Z by (apply floor_ge; lra). lia.
  - pose proof (Qfloor_le x) as Hf.
    assert (H : inject_Z (10 * Qfloor x) <= inject_Z (11 * c)).
    { rewrite !inject_Z_mult. change (inject_Z 10) with 10. change (inject_Z 11) with 11.
      lra. }
    rewrite <- Zle_Qle in H. lia.
Qed.

Lemma passes_threshold_iff (Sqrt : Q -> Q) (values : list Q) (pv : Q) :
  (2 <= len values)%Z ->
  ((70 <= calculateConfidence Sqrt values pv)%Z <-> cv_of Sqrt values <= 0.5).
Proof.
  intros Hn. rewrite (calculateConfidence_unfold Sqrt values pv Hn).
  set (cv := cv_of Sqrt values).
  pose proof (confidence_of_cv_range cv) as Hr.
  destruct (boosted_bounds (design.confidence_of_cv cv) (len values)) as [Hlo Hhi];
    [lia | lia |].
  destruct (confidence_of_cv_bands cv)
    as [[B E]|[(B & E & R)|[(B & E & R)|(B & E & R)]]]; cbv zeta in *.
  - split; [intros _; lra | intros _; lia].
  - split; [intros _; lra | intros _; lia].
  - split; [intros _; lra | intros _; lia].
  - split; [intros H; exfalso; lia | intros H; exfalso; lra].
Qed.

(** X2. With at least two readings the score reaches 70, the engine's
    threshold, exactly when the coefficient of variation of the readings is
    at most one half. *)
Theorem calculateConfidence_passes_iff (Sqrt : Q -> Q) (values : list Q) (pv : Q) :
  (2 <= len values)%Z ->
  ((70 <= calculateConfidence Sqrt values pv)%Z <-> cv_of Sqrt values <= 0.5).
Proof. exact (passes_threshold_iff Sqrt values pv). Qed.

Lemma calculateConfidence_passes_iff_witness :
  (2 <= len ramp)%Z
  /\ ((70 <= calculateConfidence Float64.Sqrt ramp 0)%Z
      <-> cv_of Float64.Sqrt ramp <= 0.5).
Proof.
  assert (Hn : (2 <= len ramp)%Z) by (vm_compute; discriminate).
  split; [exact Hn|].
  exact (calculateConfidence_passes_iff Float64.Sqrt ramp 0 Hn).
Defined.

(** X3. Of two samples, the one with the smaller coefficient of variation
    and at least as many readings never gets the lower score. *)
Theorem calculateConfidence_antitone (Sqrt : Q -> Q) (steady noisy : list Q)
    (pv pv' : Q) :
  (2 <= len noisy <= len steady)%Z ->
  cv_of Sqrt steady <= cv_of Sqrt noisy ->
  (calculateConfidence Sqrt noisy pv' <= calculateConfidence Sqrt steady pv)%Z.
Proof.
  intros Hn Hcv. rewrite !calculateConfidence_unfold by lia.
  apply boosted_monotone; [|lia].
  pose proof (confidence_of_cv_range (cv_of Sqrt noisy)).
  pose proof (confidence_of_cv_antitone _ _ Hcv). lia.
Qed.

(** A sample of equal readings and one that is spread out. *)
Definition flat : list Q := [3; 3; 3; 3; 3; 3].

Lemma calculateConfidence_antitone_witness :
  (2 <= len ramp <= len flat)%Z
  /\ cv_of Float64.Sqrt flat <= cv_of Float64.Sqrt ramp
  /\ (calculateConfidence Float64.Sqrt ramp 0
      <= calculateConfidence Float64.Sqrt flat 0)%Z.
Proof.
  assert (Hn : (2 <= len ramp <= len flat)%Z) by (vm_compute; split; discriminate).
  assert (Hcv : cv_of Float64.Sqrt flat <= cv_of Float64.Sqrt ramp)
    by (vm_compute; discriminate).
  split; [exact Hn|]. split; [exact Hcv|].
  exact (calculateConfidence_antitone Float64.Sqrt flat ramp 0 0 Hn Hcv).
Defined.

(** X4. A sample whose mean is not positive gets the full score whatever its
    spread: the coefficient of variation is then taken to be zero. *)
Theorem calculateConfidence_mean_not_positive (Sqrt : Q -> Q) (values : list Q)
    (pv : Q) :
  (2 <= len values)%Z -> calculateMean values <= 0 ->
  calculateConfidence Sqrt values pv = 100%Z.
Proof.
  intros Hn Hmean. rewrite (calculateConfidence_unfold Sqrt values pv Hn).
  assert (E : cv_of Sqrt values = 0).
  { unfold cv_of. cbv zeta. apply ltb_ge in Hmean. rewrite Hmean. reflexivity. }
  rewrite E. change (design.confidence_of_cv 0) with 100%Z.
  pose proof (boosted_bounds 100 (len values) ltac:(lia) ltac:(lia)) as [Hlo _].
  pose proof (boost_trunc 100 (len values) ltac:(lia) ltac:(lia)) as [_ Hr]. lia.
Qed.

(** Readings that swing around zero. *)
Definition swinging : list Q := [-5; 5; -7; 7; -100; 100].

Lemma calculateConfidence_mean_not_positive_witness :
  (2 <= len swinging)%Z /\ calculateMean swinging <= 0
  /\ calculateConfidence Float64.Sqrt swinging 0 = 100%Z.
Proof.
  assert (Hn : (2 <= len swinging)%Z) by (vm_compute; discriminate).
  assert (Hm : calculateMean swinging <= 0) by (vm_compute; discriminate).
  split; [exact Hn|]. split; [exact Hm|].
  exact (calculateConfidence_mean_not_positive Float64.Sqrt swinging 0 Hn Hm).
Defined.

(** ** The floor and the ceiling of a recommended limit *)

(** The two clamping steps of [analyzeCPUUsage] and [analyzeMemoryUsage]: the
    floor is applied first, the ceiling second. *)
Definition clamped (raw : Q) (lo hi : option resource.Quantity) : Q :=
  let raw :=
    match lo with
    | Some q =>
        let least := resource.AsApproximateFloat64 q in
        if ltb raw least then least else raw
    | None => raw
    end in
  match hi with
  | Some q =>
      let most := resource.AsApproximateFloat64 q in
      if ltb most raw then most else raw
  | None => raw
  end.

(** A rational that is an integer. *)
Definition whole (x : Q) : Prop := inject_Z (Qfloor x) == x.

(** The safety margin in force. *)
Definition marginOf (r : RecommendationEngine) (th : v1alpha1.ResourceThresholds) : Z :=
  if (0 <? v1alpha1.SafetyMargin th)%Z then v1alpha1.SafetyMargin th
  else DefaultSafetyMargin r.

Lemma clamped_le_max (raw : Q) (lo hi : option resource.Quantity) (q : resource.Quantity) :
  hi = Some q -> clamped raw lo hi <= resource.AsApproximateFloat64 q.
Proof.
  intros ->. unfold clamped. cbv zeta.
  match goal with |- (if ltb ?a ?b then _ else _) <= _ => destruct (ltb a b) eqn:E end.
  - apply Qle_refl.
  - apply ltb_ge in E. exact E.
Qed.

Lemma clamped_ge_min (raw : Q) (lo hi : option resource.Quantity) (q : resource.Quantity) :
  lo = Some q ->
  (forall h, hi = Some h ->
     resource.AsApproximateFloat64 q <= resource.AsApproximateFloat64 h) ->
  resource.AsApproximateFloat64 q <= clamped raw lo hi.
Proof.
  intros -> Hhi. unfold clamped. cbv zeta.
  set (x := if ltb raw (resource.AsApproximateFloat64 q)
            then resource.AsApproximateFloat64 q else raw).
  assert (Hx : resource.AsApproximateFloat64 q <= x).
  { unfold x. destruct (ltb raw (resource.AsApproximateFloat64 q)) eqn:E.
    - apply Qle_refl.
    - apply ltb_ge in E. exact E. }
  destruct hi as [h|]; [|exact Hx].
  destruct (ltb (resource.AsApproximateFloat64 h) x); [|exact Hx].
  apply Hhi. reflexivity.
Qed.

Lemma clamped_max_wins (raw : Q) (lo hi : resource.Quantity) :
  resource.AsApproximateFloat64 hi < resource.AsApproximateFloat64 lo ->
  clamped raw (Some lo) (Some hi) = resource.AsApproximateFloat64 hi.
Proof.
  intros Hlt. unfold clamped. cbv zeta.
  set (x := if ltb raw (resource.AsApproximateFloat64 lo)
            then resource.AsApproximateFloat64 lo else raw).
  assert (Hx : resource.AsApproximateFloat64 lo <= x).
  { unfold x. destruct (ltb raw (resource.AsApproximateFloat64 lo)) eqn:E.
    - apply Qle_refl.
    - apply ltb_ge in E. exact E. }
  assert (E : ltb (resource.AsApproximateFloat64 hi) x = true) by (apply ltb_lt; lra).
  rewrite E. reflexivity.
Qed.

(** Truncation keeps a number under a non-negative bound and over a bound
    that is an integer. *)
Lemma to_int_le_bound (y t : Q) : y <= t -> 0 <= t -> inject_Z (to_int y) <= t.
Proof.
  intros Hy Ht. destruct (Qlt_le_dec y 0) as [Hn|Hp].
  - pose proof (to_int_nonpos y (Qlt_le_weak _ _ Hn)) as H.
    assert (inject_Z (to_int y) <= 0)
      by (change 0 with (inject_Z 0); rewrite <- Zle_Qle; exact H).
    lra.
  - rewrite (to_int_nonneg y Hp). pose proof (Qfloor_le y). lra.
Qed.

Lemma to_int_ge_bound (y t : Q) : t <= y -> whole t -> t <= inject_Z (to_int y).
Proof.
  unfold whole. intros Hy Ht. destruct (Qlt_le_dec y 0) as [Hn|Hp].
  - pose proof (to_int_ge_nonpos y (Qlt_le_weak _ _ Hn)) as H. unfold of_int in H. lra.
  - rewrite (to_int_nonneg y Hp). rewrite <- Ht, <- Zle_Qle.
    apply Qfloor_resp_le, Hy.
Qed.

Lemma milli_value (L : Z) :
  resource.AsApproximateFloat64 (resource.NewMilliQuantity L) * 1000 == inject_Z L.
Proof.
  unfold resource.AsApproximateFloat64; simpl.
  assert (E : 10 ^ (-3) == 1 # 1000) by reflexivity. rewrite E. field.
Qed.

Lemma analyzeCPUUsage_limit (Sqrt : Q -> Q) (r : RecommendationEngine)
    (h : list metrics.ResourceUsage) (th : v1alpha1.ResourceThresholds) :
  (MinDataPoints r <= len h)%Z ->
  exists rec c,
    analyzeCPUUsage Sqrt r h th = Ok (rec, c)
    /\ Limit rec = Some (resource.NewMilliQuantity (to_int
         (clamped (Percentile rec * (1 + of_int (marginOf r th) / 100))
                  (v1alpha1.MinCPU th) (v1alpha1.MaxCPU th) * 1000))).
Proof.
  intros Hn. unfold analyzeCPUUsage.
  destruct (Z.ltb_spec (len h) (MinDataPoints r)); [lia|].
  eexists _, _. split; [reflexivity|]. reflexivity.
Qed.

Lemma analyzeMemoryUsage_limit (Sqrt : Q -> Q) (r : RecommendationEngine)
    (h : list metrics.ResourceUsage) (th : v1alpha1.ResourceThresholds) :
  (MinDataPoints r <= len h)%Z ->
  exists rec c,
    analyzeMemoryUsage Sqrt r h th = Ok (rec, c)
    /\ Limit rec = Some (resource.NewQuantity (to_int
         (clamped (Percentile rec * (1 + of_int (marginOf r th) / 100))
                  (v1alpha1.MinMemory th) (v1alpha1.MaxMemory th)))).
Proof.
  intros Hn. unfold analyzeMemoryUsage.
  destruct (Z.ltb_spec (len h) (MinDataPoints r)); [lia|].
  eexists _, _. split; [reflexivity|]. reflexivity.
Qed.

(** X5. With enough readings the CPU analysis succeeds with a limit in
    milli-cores, and the configured bounds hold for it as follows: the limit
    is not above a non-negative [MaxCPU]; it is not below a [MinCPU] that is
    a whole number of milli-cores and not above [MaxCPU]; and when [MaxCPU]
    is below [MinCPU], the ceiling, applied last, decides alone. *)
Theorem analyzeCPUUsage_bounds (Sqrt : Q -> Q) (r : RecommendationEngine)
    (h : list metrics.ResourceUsage) (th : v1alpha1.ResourceThresholds) :
  (MinDataPoints r <= len h)%Z ->
  exists rec c L,
    analyzeCPUUsage Sqrt r h th = Ok (rec, c)
    /\ Limit rec = Some (resource.NewMilliQuantity L)
    /\ (forall hi, v1alpha1.MaxCPU th = Some hi ->
          0 <= resource.AsApproximateFloat64 hi ->
          resource.le (resource.NewMilliQuantity L) hi)
    /\ (forall lo, v1alpha1.MinCPU th = Some lo ->
          whole (resource.AsApproximateFloat64 lo * 1000) ->
          (forall hi, v1alpha1.MaxCPU th = Some hi -> resource.le lo hi) ->
          resource.le lo (resource.NewMilliQuantity L))
    /\ (forall lo hi, v1alpha1.MinCPU th = Some lo -> v1alpha1.MaxCPU th = Some hi ->
          resource.AsApproximateFloat64 hi < resource.AsApproximateFloat64 lo ->
          L = to_int (resource.AsApproximateFloat64 hi * 1000)).
Proof.
  intros Hn. destruct (analyzeCPUUsage_limit Sqrt r h th Hn) as (rec & c & Ha & HL).
  set (raw := Percentile rec * (1 + of_int (marginOf r th) / 100)) in HL.
  exists rec, c, (to_int (clamped raw (v1alpha1.MinCPU th) (v1alpha1.MaxCPU th) * 1000)).
  split; [exact Ha|]. split; [exact HL|].
  unfold resource.le. split; [|split].
  - intros hi Hhi H0.
    pose proof (clamped_le_max raw (v1alpha1.MinCPU th) _ hi Hhi) as Hc.
    pose proof (milli_value (to_int (clamped raw (v1alpha1.MinCPU th)
                                       (v1alpha1.MaxCPU th) * 1000))) as Hv.
    pose proof (to_int_le_bound
                  (clamped raw (v1alpha1.MinCPU th) (v1alpha1.MaxCPU th) * 1000)
                  (resource.AsApproximateFloat64 hi * 1000)
                  ltac:(lra) ltac:(lra)) as Hb.
    lra.
  - intros lo Hlo Hw Hhi.
    pose proof (clamped_ge_min raw _ (v1alpha1.MaxCPU th) lo Hlo Hhi) as Hc.
    pose proof (milli_value (to_int (clamped raw (v1alpha1.MinCPU th)
                                       (v1alpha1.MaxCPU th) * 1000))) as Hv.
    pose proof (to_int_ge_bound
                  (clamped raw (v1alpha1.MinCPU th) (v1alpha1.MaxCPU th) * 1000)
                  (resource.AsApproximateFloat64 lo * 1000)
                  ltac:(lra) Hw) as Hb.
    lra.
  - intros lo hi Hlo Hhi Hlt. rewrite Hlo, Hhi, (clamped_max_wins raw lo hi Hlt).
    reflexivity.
Qed.

(** Twelve CPU readings around half a core. *)
Definition halfCore : list metrics.ResourceUsage :=
  map (fun v => metrics.mkResourceUsage 0 v "cores")
      [0.5; 0.51; 0.49; 0.52; 0.48; 0.50; 0.51; 0.49; 0.50; 0.51; 0.47; 0.53].

(** Twelve memory readings around 200 million bytes. *)
Definition fifthGigabyte : list metrics.ResourceUsage :=
  map (fun v => metrics.mkResourceUsage 0 v "bytes")
      [200000000; 210000000; 190000000; 205000000; 195000000; 200000000;
       201000000; 199000000; 202000000; 198000000; 200500000; 199500000].

(** Bounds that are the wrong way round: at least two cores and 512 MiB, at most one
    core and 256 MiB. *)
Definition crossed : v1alpha1.ResourceThresholds :=
  v1alpha1.mkResourceThresholds 0 0
    (Some (resource.NewQuantity 2)) (Some (resource.NewQuantity 1))
    (Some (resource.NewQuantity 536870912)) (Some (resource.NewQuantity 268435456))
    0 0.

Lemma analyzeCPUUsage_bounds_witness :
  (MinDataPoints NewRecommendationEngine <= len halfCore)%Z
  /\ exists rec c,
       analyzeCPUUsage Float64.Sqrt NewRecommendationEngine halfCore crossed
       = Ok (rec, c)
       /\ Limit rec = Some (resource.NewMilliQuantity 1000).
Proof.
  assert (Hn : (MinDataPoints NewRecommendationEngine <= len halfCore)%Z)
    by (vm_compute; discriminate).
  split; [exact Hn|].
  destruct (analyzeCPUUsage_bounds Float64.Sqrt NewRecommendationEngine halfCore
              crossed Hn) as (rec & c & L & Ha & HL & _ & _ & Hmax).
  exists rec, c. split; [exact Ha|]. rewrite HL.
  rewrite (Hmax _ _ eq_refl eq_refl ltac:(reflexivity)). reflexivity.
Defined.

(** X6. With enough readings the memory analysis succeeds with a limit in
    bytes, and the configured bounds hold for it as follows: the limit is
    not above a non-negative [MaxMemory]; it is not below a [MinMemory] that
    is a whole number of bytes and not above [MaxMemory]; and when
    [MaxMemory] is below [MinMemory], the ceiling, applied last, decides
    alone. *)
Theorem analyzeMemoryUsage_bounds (Sqrt : Q -> Q) (r : RecommendationEngine)
    (h : list metrics.ResourceUsage) (th : v1alpha1.ResourceThresholds) :
  (MinDataPoints r <= len h)%Z ->
  exists rec c B,
    analyzeMemoryUsage Sqrt r h th = Ok (rec, c)
    /\ Limit rec = Some (resource.NewQuantity B)
    /\ (forall hi, v1alpha1.MaxMemory th = Some hi ->
          0 <= resource.AsApproximateFloat64 hi ->
          resource.le (resource.NewQuantity B) hi)
    /\ (forall lo, v1alpha1.MinMemory th = Some lo ->
          whole (resource.AsApproximateFloat64 lo) ->
          (forall hi, v1alpha1.MaxMemory th = Some hi -> resource.le lo hi) ->
          resource.le lo (resource.NewQuantity B))
    /\ (forall lo hi, v1alpha1.MinMemory th = Some lo ->
          v1alpha1.MaxMemory th = Some hi ->
          resource.AsApproximateFloat64 hi < resource.AsApproximateFloat64 lo ->
          B = to_int (resource.AsApproximateFloat64 hi)).
Proof.
  intros Hn. destruct (analyzeMemoryUsage_limit Sqrt r h th Hn) as (rec & c & Ha & HL).
  set (raw := Percentile rec * (1 + of_int (marginOf r th) / 100)) in HL.
  exists rec, c, (to_int (clamped raw (v1alpha1.MinMemory th) (v1alpha1.MaxMemory th))).
  split; [exact Ha|]. split; [exact HL|].
  unfold resource.le.
  change (resource.AsApproximateFloat64 (resource.NewQuantity ?B)) with (inject_Z B).
  split; [|split].
  - intros hi Hhi H0. apply to_int_le_bound; [|exact H0].
    apply (clamped_le_max raw (v1alpha1.MinMemory th) _ hi Hhi).
  - intros lo Hlo Hw Hhi. apply to_int_ge_bound; [|exact Hw].
    apply (clamped_ge_min raw _ (v1alpha1.MaxMemory th) lo Hlo Hhi).
  - intros lo hi Hlo Hhi Hlt. rewrite Hlo, Hhi, (clamped_max_wins raw lo hi Hlt).
    reflexivity.
Qed.

Lemma analyzeMemoryUsage_bounds_witness :
  (MinDataPoints NewRecommendationEngine <= len fifthGigabyte)%Z
  /\ exists rec c,
       analyzeMemoryUsage Float64.Sqrt NewRecommendationEngine fifthGigabyte crossed
       = Ok (rec, c)
       /\ Limit rec = Some (resource.NewQuantity 268435456).
Proof.
  assert (Hn : (MinDataPoints NewRecommendationEngine <= len fifthGigabyte)%Z)
    by (vm_compute; discriminate).
  split; [exact Hn|].
  destruct (analyzeMemoryUsage_bounds Float64.Sqrt NewRecommendationEngine
              fifthGigabyte crossed Hn) as (rec & c & B & Ha & HL & _ & _ & Hmax).
  exists rec, c. split; [exact Ha|]. rewrite HL.
  rewrite (Hmax _ _ eq_refl eq_refl ltac:(reflexivity)). reflexivity.
Defined.

(** ** Which pods of a workload are recommended for *)

(** The name and namespace a recommendation is made for, and those of a
    pod's metrics. *)
Definition recommendedFor (rec : v1alpha1.PodRecommendation) : string * string :=
  (v1alpha1.Name (v1alpha1.PodRef rec), v1alpha1.Namespace (v1alpha1.PodRef rec)).
Definition measured (pm : metrics.PodMetrics) : string * string :=
  (metrics.PodName pm, metrics.Namespace pm).

Lemma kept_cases (Sqrt : Q -> Q) (r : RecommendationEngine)
    (th : v1alpha1.ResourceThresholds) (pm : metrics.PodMetrics) :
  kept Sqrt r th pm = []
  \/ exists rec, kept Sqrt r th pm = [rec]
                 /\ recommendedFor rec = measured pm
                 /\ v1alpha1.Applied rec = false.
Proof.
  unfold kept, generatePodRecommendation.
  destruct (analyzeCPUUsage _ _ _ _) as [[cpuRec cc]|e]; [|left; reflexivity].
  destruct (analyzeMemoryUsage _ _ _ _) as [[memRec mc]|e]; [|left; reflexivity].
  destruct (_ <? _)%Z; [left; reflexivity|]. right.
  destruct (Limit cpuRec), (Limit memRec); eexists; repeat split.
Qed.

Lemma recommendations_subsequence (Sqrt : Q -> Q)
    (r : RecommendationEngine) (wm : metrics.WorkloadMetrics)
    (th : v1alpha1.ResourceThresholds) (recs : list v1alpha1.PodRecommendation) :
  GenerateRecommendations Sqrt r wm th = Ok recs ->
  sublist (map recommendedFor recs) (map measured (metrics.Pods wm))
  /\ Forall (fun rec => v1alpha1.Applied rec = false) recs.
Proof.
  intros Hg.
  assert (Hne : metrics.Pods wm <> []).
  { intros E. unfold GenerateRecommendations in Hg. rewrite E in Hg. discriminate. }
  rewrite (GenerateRecommendations_nonempty Sqrt r wm th Hne) in Hg.
  injection Hg as <-. clear Hne.
  induction (metrics.Pods wm) as [|pm pods [IH1 IH2]]; simpl.
  - split; constructor.
  - destruct (kept_cases Sqrt r th pm) as [->|(rec & -> & Hname & Happ)]; simpl.
    + split; [apply sublist_cons, IH1 | exact IH2].
    + rewrite Hname. split; [apply sublist_skip, IH1 | constructor; assumption].
Qed.

(** X7. The recommendations for a workload are made for a sub-sequence of
    the pods measured, in the order of the metrics: no pod is recommended
    for twice unless it is measured twice, none is invented, and none is
    marked as applied. *)
Theorem GenerateRecommendations_subsequence (Sqrt : Q -> Q) (r : RecommendationEngine)
    (wm : metrics.WorkloadMetrics) (th : v1alpha1.ResourceThresholds)
    (recs : list v1alpha1.PodRecommendation) :
  GenerateRecommendations Sqrt r wm th = Ok recs ->
  sublist (map recommendedFor recs) (map measured (metrics.Pods wm))
  /\ Forall (fun rec => v1alpha1.Applied rec = false) recs.
Proof. apply recommendations_subsequence. Qed.

(** Six pods with the same twelve readings each, none of them spread. *)
Definition sixPods : metrics.WorkloadMetrics :=
  metrics.mkWorkloadMetrics "web" "Deployment" "shop"
    (map (fun name => metrics.mkPodMetrics name "shop" halfCore fifthGigabyte)
         ["web-0"; "web-1"; "web-2"; "web-3"; "web-4"; "web-5"]).

Lemma GenerateRecommendations_subsequence_witness :
  exists recs,
    GenerateRecommendations Float64.Sqrt NewRecommendationEngine sixPods
      v1alpha1.noThresholds = Ok recs
    /\ sublist (map recommendedFor recs) (map measured (metrics.Pods sixPods))
    /\ Forall (fun rec => v1alpha1.Applied rec = false) recs.
Proof.
  let v := eval vm_compute in
      (GenerateRecommendations Float64.Sqrt NewRecommendationEngine sixPods
         v1alpha1.noThresholds) in
  match v with
  | Ok ?recs =>
      exists recs;
      assert (Hg : GenerateRecommendations Float64.Sqrt NewRecommendationEngine sixPods
                     v1alpha1.noThresholds = Ok recs) by (vm_compute; reflexivity)
  end.
  split; [exact Hg|].
  exact (GenerateRecommendations_subsequence _ _ _ _ _ Hg).
Defined.

(** The readings of a usage history in the order the analyses work on. *)
Definition sortedValues (h : list metrics.ResourceUsage) : list Q :=
  sort.Float64s (map metrics.Value h).

Lemma len_sortedValues (h : list metrics.ResourceUsage) : len (sortedValues h) = len h.
Proof.
  unfold sortedValues, len. f_equal.
  rewrite <- (Permutation_length (sort_facts.Float64s_perm (map metrics.Value h))).
  apply length_map.
Qed.

Lemma analyzeCPUUsage_confidence (Sqrt : Q -> Q) (r : RecommendationEngine)
    (h : list metrics.ResourceUsage) (th : v1alpha1.ResourceThresholds) :
  (MinDataPoints r <= len h)%Z ->
  exists rec pv,
    analyzeCPUUsage Sqrt r h th
    = Ok (rec, calculateConfidence Sqrt (sortedValues h) pv).
Proof.
  intros Hn. unfold analyzeCPUUsage.
  destruct (Z.ltb_spec (len h) (MinDataPoints r)); [lia|].
  eexists _, _. reflexivity.
Qed.

Lemma analyzeMemoryUsage_confidence (Sqrt : Q -> Q) (r : RecommendationEngine)
    (h : list metrics.ResourceUsage) (th : v1alpha1.ResourceThresholds) :
  (MinDataPoints r <= len h)%Z ->
  exists rec pv,
    analyzeMemoryUsage Sqrt r h th
    = Ok (rec, calculateConfidence Sqrt (sortedValues h) pv).
Proof.
  intros Hn. unfold analyzeMemoryUsage.
  destruct (Z.ltb_spec (len h) (MinDataPoints r)); [lia|].
  eexists _, _. reflexivity.
Qed.

(** X8. The engine with its default settings recommends for a pod exactly
    when both usage histories have at least ten readings and the
    coefficient of variation of each is at most one half; the thresholds of
    the policy have no part in that decision. *)
Theorem generatePodRecommendation_iff (Sqrt : Q -> Q) (pm : metrics.PodMetrics)
    (th : v1alpha1.ResourceThresholds) :
  (exists rec, generatePodRecommendation Sqrt NewRecommendationEngine pm th
               = Ok (Some rec))
  <-> (10 <= len (metrics.CPUUsageHistory pm))%Z
      /\ (10 <= len (metrics.MemUsageHistory pm))%Z
      /\ cv_of Sqrt (sortedValues (metrics.CPUUsageHistory pm)) <= 0.5
      /\ cv_of Sqrt (sortedValues (metrics.MemUsageHistory pm)) <= 0.5.
Proof.
  split.
  - intros [rec Hg].
    destruct (generatePodRecommendation_inv _ _ _ _ _ Hg)
      as (cpuRec & cc & memRec & mc & Hc & Hm & [[_ E]|[Hgate _]]); [discriminate|].
    destruct (analyzeCPUUsage_ok _ _ _ _ _ _ Hc) as (Hnc & _ & _).
    destruct (analyzeMemoryUsage_ok _ _ _ _ _ _ Hm) as (Hnm & _ & _).
    change (MinDataPoints NewRecommendationEngine) with 10%Z in Hnc, Hnm.
    change (DefaultConfidenceThreshold NewRecommendationEngine) with 70%Z in Hgate.
    destruct (analyzeCPUUsage_confidence Sqrt NewRecommendationEngine _ th Hnc)
      as (rec1 & pv1 & Hc').
    destruct (analyzeMemoryUsage_confidence Sqrt NewRecommendationEngine _ th Hnm)
      as (rec2 & pv2 & Hm').
    rewrite Hc in Hc'. rewrite Hm in Hm'.
    injection Hc' as _ ->. injection Hm' as _ ->.
    split; [exact Hnc|]. split; [exact Hnm|]. split.
    + apply (passes_threshold_iff Sqrt _ pv1);
        [rewrite len_sortedValues|]; lia.
    + apply (passes_threshold_iff Sqrt _ pv2);
        [rewrite len_sortedValues|]; lia.
  - intros (Hnc & Hnm & Hcv1 & Hcv2).
    destruct (analyzeCPUUsage_confidence Sqrt NewRecommendationEngine
                (metrics.CPUUsageHistory pm) th Hnc) as (rec1 & pv1 & Hc).
    destruct (analyzeMemoryUsage_confidence Sqrt NewRecommendationEngine
                (metrics.MemUsageHistory pm) th Hnm) as (rec2 & pv2 & Hm).
    destruct (analyzeCPUUsage_ok _ _ _ _ _ _ Hc) as (_ & _ & L & HL).
    destruct (analyzeMemoryUsage_ok _ _ _ _ _ _ Hm) as (_ & _ & B & HB).
    assert (H1 : (70 <= calculateConfidence Sqrt
                          (sortedValues (metrics.CPUUsageHistory pm)) pv1)%Z)
      by (apply passes_threshold_iff;
          [rewrite len_sortedValues; lia | exact Hcv1]).
    assert (H2 : (70 <= calculateConfidence Sqrt
                          (sortedValues (metrics.MemUsageHistory pm)) pv2)%Z)
      by (apply passes_threshold_iff;
          [rewrite len_sortedValues; lia | exact Hcv2]).
    unfold generatePodRecommendation. rewrite Hc, Hm, to_int_Min_of_int, HL, HB.
    change (DefaultConfidenceThreshold NewRecommendationEngine) with 70%Z.
    destruct (Z.ltb_spec (Z.min (calculateConfidence Sqrt
                                   (sortedValues (metrics.CPUUsageHistory pm)) pv1)
                                (calculateConfidence Sqrt
                                   (sortedValues (metrics.MemUsageHistory pm)) pv2)) 70);
      [lia|].
    eexists. reflexivity.
Qed.

End engine_extra.

(** * Further properties of the controller *)

Module controller_extra.

Import client controller controller_facts.

(** ** Workload keys *)

(** No ["/"] occurs in the string. *)
Fixpoint slashFree (s : string) : Prop :=
  match s with
  | EmptyString => True
  | String a s' => a <> "/"%char /\ slashFree s'
  end.

Lemma breakAtSlash_app (x y : string) :
  slashFree x -> strings_go.breakAtSlash (x +:+ "/" +:+ y) = Some (x, y).
Proof.
  induction x as [|a x IH]; simpl.
  - reflexivity.
  - intros [Ha Hx]. destruct (Ascii.eqb_spec a "/"%char) as [E|_]; [contradiction|].
    change (String.append x (String "/" y)) with (x +:+ "/" +:+ y).
    rewrite (IH Hx). reflexivity.
Qed.

Lemma splitWorkloadKey_workloadKey (namespace workloadType workloadName : string) :
  slashFree namespace -> slashFree workloadType ->
  splitWorkloadKey (workloadKey namespace workloadType workloadName)
  = [namespace; workloadType; workloadName].
Proof.
  intros Hn Ht. unfold splitWorkloadKey, workloadKey. simpl.
  rewrite (breakAtSlash_app namespace _ Hn), (breakAtSlash_app workloadType _ Ht).
  reflexivity.
Qed.

(** ** Passes that must leave the workloads alone *)

(** A call that reads or writes a workload object. *)
Definition workloadCall (e : Event) : bool :=
  match call e with
  | GetWorkload _ _ | UpdateWorkload _ _ => true
  | _ => false
  end.

(** From [w] to [w'] no workload object changed and no workload call was
    placed. *)
Definition untouched (w w' : Cluster) : Prop :=
  workloads w' = workloads w
  /\ exists events, trace w' = trace w ++ events
                    /\ Forall (fun e => workloadCall e = false) events.

Definition quiet {A} (m : M A) : Prop := forall w, untouched w (m w).2.

(** The copy [prs] the pass works on has the key of the request and the
    specification of the stored object. *)
Definition synced (w : Cluster) (req : NamespacedName) (prs : v1alpha1.PodRightSizing)
  : Prop :=
  keyOf (v1alpha1.Meta prs) = req
  /\ exists stored,
      policies w !! req = Some stored
      /\ keyOf (v1alpha1.Meta stored) = req
      /\ v1alpha1.Spec stored = v1alpha1.Spec prs.

(** A specification under which nothing may be applied. *)
Definition inert (spec : v1alpha1.PodRightSizingSpec) : Prop :=
  v1alpha1.DryRun spec = true
  \/ v1alpha1.Strategy (v1alpha1.Policy spec) = v1alpha1.UpdateStrategyManual.

Lemma untouched_refl w : untouched w w.
Proof. split; [reflexivity|]. exists []. rewrite app_nil_r. split; [reflexivity | constructor]. Qed.

Lemma untouched_trans w1 w2 w3 : untouched w1 w2 -> untouched w2 w3 -> untouched w1 w3.
Proof.
  intros (H1 & e1 & T1 & F1) (H2 & e2 & T2 & F2). split; [congruence|].
  exists (e1 ++ e2). rewrite T2, T1, app_assoc. split; [reflexivity|].
  apply Forall_app; split; assumption.
Qed.

Lemma quiet_ret {A} (a : A) : quiet (mret a : M A).
Proof. intros w. apply untouched_refl. Qed.

Lemma quiet_bind {A B} (m : M A) (k : A -> M B) :
  quiet m -> (forall a, quiet (k a)) -> quiet (m ≫= k).
Proof.
  intros Hm Hk w. monad. specialize (Hm w). destruct (m w) as [a w1].
  eapply untouched_trans; [exact Hm | apply Hk].
Qed.

Lemma quiet_served {A} (c : Call) (serve : Cluster -> result APIError A * Cluster) :
  workloadCall (mkEvent c None) = false ->
  (forall w, workloads (serve w).2 = workloads w /\ trace (serve w).2 = trace w) ->
  quiet (served c serve).
Proof.
  intros Hc Hs w. unfold served. destruct (faults w c) as [e|].
  - split; [reflexivity|]. eexists [_]. split; [reflexivity|].
    constructor; [exact Hc | constructor].
  - destruct (Hs w) as [Hw Ht]. destruct (serve w) as [r w1]. simpl in Hw, Ht.
    split; simpl; [exact Hw|]. eexists [_]. rewrite Ht. split; [reflexivity|].
    constructor; [exact Hc | constructor].
Qed.

Lemma quiet_Now : quiet Now.
Proof. intros w. apply untouched_refl. Qed.

Lemma quiet_Get req : quiet (Get req).
Proof. apply quiet_served; [reflexivity|]. intros w. split; reflexivity. Qed.

Lemma quiet_StatusUpdate obj : quiet (StatusUpdate obj).
Proof.
  apply quiet_served; [reflexivity|]. intros w.
  destruct (policies w !! _) as [stored|]; [|split; reflexivity].
  destruct (_ =? _)%Z; split; reflexivity.
Qed.

Lemma quiet_ListPodsMatching sel ns : quiet (ListPodsMatching sel ns).
Proof. apply quiet_served; [reflexivity|]. intros w. split; reflexivity. Qed.

Lemma quiet_ListNamespacesMatching sel : quiet (ListNamespacesMatching sel).
Proof. apply quiet_served; [reflexivity|]. intros w. split; reflexivity. Qed.

Lemma quiet_GetReplicaSetNamed key : quiet (GetReplicaSetNamed key).
Proof. apply quiet_served; [reflexivity|]. intros w. split; reflexivity. Qed.

Lemma quiet_listTargetPods selector prs namespaces pods :
  quiet (listTargetPods selector prs namespaces pods).
Proof.
  revert pods. induction namespaces as [|ns nss IH]; intros pods; simpl.
  - apply quiet_ret.
  - destruct (isNamespaceExcluded _ _); [apply IH|].
    apply quiet_bind; [apply quiet_ListPodsMatching|].
    intros [items|err]; [apply IH | apply quiet_ret].
Qed.

Lemma quiet_discoverTargetPods prs : quiet (discoverTargetPods prs).
Proof.
  unfold discoverTargetPods.
  destruct (match v1alpha1.LabelSelector _ with Some _ => _ | None => _ end)
    as [selector|]; [|apply quiet_ret].
  destruct (v1alpha1.NamespaceSelector _) as [nsSel|].
  - destruct (metav1.LabelSelectorAsSelector nsSel); [|apply quiet_ret].
    apply quiet_bind; [apply quiet_ListNamespacesMatching|].
    intros [items|err]; [apply quiet_listTargetPods | apply quiet_ret].
  - destruct (negb _); apply quiet_listTargetPods.
Qed.

Lemma quiet_workloadNameOf pod owners : quiet (workloadNameOf pod owners).
Proof.
  induction owners as [|owner owners IH]; simpl; [apply quiet_ret|].
  destruct (metav1.eqs _ _); [|apply quiet_ret].
  apply quiet_bind; [apply quiet_GetReplicaSetNamed|].
  intros [rs|err]; [|exact IH].
  destruct (deploymentOwner _); [apply quiet_ret | exact IH].
Qed.

Lemma quiet_groupPods pods groups : quiet (groupPods pods groups).
Proof.
  revert groups. induction pods as [|pod pods IH]; intros groups; simpl.
  - apply quiet_ret.
  - apply quiet_bind; [apply quiet_workloadNameOf|]. intros name. apply IH.
Qed.

Lemma quiet_updatePhase prs phase message : quiet (updatePhase prs phase message).
Proof.
  unfold updatePhase. apply quiet_bind; [apply quiet_StatusUpdate|].
  intros [prs'|err]; apply quiet_ret.
Qed.

(** A status write that went through leaves the pass with the stored
    object, whose specification is the one the pass started from. *)
Lemma updatePhase_synced w req prs phase message :
  synced w req prs ->
  (updatePhase prs phase message w).1.2 = None ->
  synced (updatePhase prs phase message w).2 req (updatePhase prs phase message w).1.1
  /\ v1alpha1.Spec (updatePhase prs phase message w).1.1 = v1alpha1.Spec prs.
Proof.
  intros (Hk & stored & Hs & Hks & Hsp).
  unfold updatePhase, StatusUpdate, served. monad. simpl v1alpha1.Meta.
  rewrite Hk. destruct (faults w _) as [e|]; [simpl; discriminate|].
  rewrite Hs. destruct (_ =? _)%Z; simpl; [intros _ | discriminate].
  split; [|exact Hsp]. split; [exact Hks|].
  eexists. split; [apply lookup_insert_eq|]. split; [exact Hks | reflexivity].
Qed.

Lemma synced_env w w' req prs :
  policies w' = policies w -> synced w req prs -> synced w' req prs.
Proof. intros Hp (Hk & H). split; [exact Hk|]. rewrite Hp. exact H. Qed.

Lemma synced_local w req prs prs' :
  v1alpha1.Meta prs' = v1alpha1.Meta prs -> v1alpha1.Spec prs' = v1alpha1.Spec prs ->
  synced w req prs -> synced w req prs'.
Proof.
  intros Hm Hs (Hk & stored & H1 & H2 & H3).
  split; [congruence|]. exists stored. repeat split; congruence.
Qed.

(** Under the manual strategy nothing is applied and no call is placed. *)
Lemma applyEach_manual prs groups updatedCount w :
  v1alpha1.Strategy (v1alpha1.Policy (v1alpha1.Spec prs)) = v1alpha1.UpdateStrategyManual ->
  applyEach prs groups updatedCount w = (updatedCount, w).
Proof.
  intros Hm. revert updatedCount w.
  induction groups as [|[key recs] groups IH]; intros updatedCount w; simpl.
  - reflexivity.
  - monad. unfold applyWorkloadRecommendations. rewrite Hm.
    rewrite bool_decide_eq_true_2 by reflexivity. monad.
    rewrite IH. f_equal. lia.
Qed.

Section Passes.

Variable Sqrt : Q -> Q.
Variable ParseDuration : string -> option Z.

Lemma quiet_complete prs recommendations :
  quiet (complete ParseDuration prs recommendations).
Proof.
  unfold complete. apply quiet_bind; [apply quiet_updatePhase|].
  intros [prs' [err|]]; apply quiet_ret.
Qed.

Lemma afterRecommending_untouched w req prs recommendations :
  synced w req prs -> inert (v1alpha1.Spec prs) ->
  untouched w (afterRecommending ParseDuration prs recommendations w).2.
Proof.
  intros Hs Hi. unfold afterRecommending, Now. monad. cbv zeta.
  set (prs1 := withAnalysis (now w) recommendations prs).
  assert (Hs1 : synced w req prs1) by (eapply synced_local; [| |exact Hs]; reflexivity).
  change (v1alpha1.Spec prs1) with (v1alpha1.Spec prs).
  destruct (v1alpha1.DryRun (v1alpha1.Spec prs)) eqn:Hdry; cbv beta iota delta [negb].
  - apply quiet_complete.
  - destruct Hi as [Hi|Hman]; [congruence|].
    pose proof (quiet_updatePhase prs1 v1alpha1.PhaseUpdating "Applying recommendations" w)
      as Hq.
    pose proof (updatePhase_synced w req prs1 v1alpha1.PhaseUpdating
                  "Applying recommendations" Hs1) as Hu.
    destruct (updatePhase prs1 v1alpha1.PhaseUpdating "Applying recommendations" w)
      as [[prs2 err] w2]. simpl in Hq, Hu.
    destruct err as [err|]; [exact Hq|].
    destruct (Hu eq_refl) as [Hs2 Hsp2].
    unfold applyRecommendations. rewrite applyEach_manual by (rewrite Hsp2; exact Hman).
    change (MaxInt32 <? 0)%Z with false. cbv iota.
    eapply untouched_trans; [exact Hq | apply quiet_complete].
Qed.

Lemma afterDiscovery_untouched r w req prs targetPods :
  synced w req prs -> inert (v1alpha1.Spec prs) ->
  untouched w (afterDiscovery Sqrt ParseDuration r prs targetPods w).2.
Proof.
  intros Hs Hi. unfold afterDiscovery.
  destruct (MaxInt32 <? len targetPods)%Z; [apply untouched_refl|]. cbv zeta.
  set (prs1 := withTargeted (len targetPods) prs).
  assert (Hs1 : synced w req prs1) by (eapply synced_local; [| |exact Hs]; reflexivity).
  destruct (len targetPods =? 0)%Z.
  - apply (quiet_bind (updatePhase prs1 v1alpha1.PhaseCompleted "No matching pods found")
             _ (quiet_updatePhase _ _ _)).
    intros [prs' [err|]]; apply quiet_ret.
  - monad.
    pose proof (quiet_groupPods targetPods ∅ w) as Hq0.
    destruct (reader_groupPodsByWorkload targetPods w) as (_ & Hp0 & _).
    unfold groupPodsByWorkload in *.
    destruct (groupPods targetPods ∅ w) as [workloadGroups w1]. simpl in Hq0, Hp0.
    assert (Hs1' : synced w1 req prs1) by (eapply synced_env; eassumption).
    pose proof (quiet_updatePhase prs1 v1alpha1.PhaseRecommending
                  "Generating recommendations" w1) as Hq.
    pose proof (updatePhase_synced w1 req prs1 v1alpha1.PhaseRecommending
                  "Generating recommendations" Hs1') as Hu.
    destruct (updatePhase prs1 v1alpha1.PhaseRecommending "Generating recommendations" w1)
      as [[prs2 err] w2]. simpl in Hq, Hu.
    destruct err as [err|]; [eapply untouched_trans; eassumption|].
    destruct (Hu eq_refl) as [Hs2 Hsp2].
    eapply untouched_trans; [exact Hq0|]. eapply untouched_trans; [exact Hq|].
    eapply afterRecommending_untouched; [exact Hs2|]. rewrite Hsp2. exact Hi.
Qed.

Lemma afterFetch_untouched r w req prs :
  synced w req prs -> inert (v1alpha1.Spec prs) ->
  untouched w (afterFetch Sqrt ParseDuration r prs w).2.
Proof.
  intros Hs Hi. unfold afterFetch, Now. monad.
  destruct (negb _); [apply untouched_refl|].
  pose proof (quiet_updatePhase prs v1alpha1.PhaseAnalyzing
                "Starting resource analysis" w) as Hq.
  pose proof (updatePhase_synced w req prs v1alpha1.PhaseAnalyzing
                "Starting resource analysis" Hs) as Hu.
  destruct (updatePhase prs v1alpha1.PhaseAnalyzing "Starting resource analysis" w)
    as [[prs1 err] w1]. simpl in Hq, Hu.
  destruct err as [err|]; [exact Hq|].
  destruct (Hu eq_refl) as [Hs1 Hsp1].
  eapply untouched_trans; [exact Hq|].
  unfold afterAnalyzing. monad.
  pose proof (quiet_discoverTargetPods prs1 w1) as Hq1.
  destruct (reader_discoverTargetPods prs1 w1) as (_ & Hp1 & _).
  destruct (discoverTargetPods prs1 w1) as [[targetPods|err] w2]; simpl in Hq1, Hp1.
  - eapply untouched_trans; [exact Hq1|].
    eapply afterDiscovery_untouched; [eapply synced_env; eassumption|].
    rewrite Hsp1. exact Hi.
  - eapply untouched_trans; [exact Hq1|].
    apply (quiet_bind (updatePhase prs1 v1alpha1.PhaseError _) _ (quiet_updatePhase _ _ _)).
    intros ?. apply quiet_ret.
Qed.

(** X10. A pass over a policy that is in dry-run mode or has the manual
    update strategy never reads or writes a workload object, whatever the
    API server answers or refuses: the workload objects after the pass are
    those before it, and none of the calls of the pass is a workload call. *)
Theorem Reconcile_leaves_workloads (r : PodRightSizingReconciler)
    (req : NamespacedName) (w : Cluster) (prs : v1alpha1.PodRightSizing) :
  policies w !! req = Some prs ->
  keyOf (v1alpha1.Meta prs) = req ->
  v1alpha1.DryRun (v1alpha1.Spec prs) = true
  \/ v1alpha1.Strategy (v1alpha1.Policy (v1alpha1.Spec prs))
     = v1alpha1.UpdateStrategyManual ->
  let w' := (Reconcile Sqrt ParseDuration r req w).2 in
  workloads w' = workloads w
  /\ exists events,
      trace w' = trace w ++ events
      /\ Forall (fun e => workloadCall e = false) events.
Proof.
  intros Hp Hk Hi. cbv zeta. change (untouched w (Reconcile Sqrt ParseDuration r req w).2).
  rewrite Reconcile_staged. monad. rewrite Get_run. rewrite Hp.
  set (w1 := logged _ w).
  assert (Hq : untouched w w1).
  { split; [reflexivity|]. eexists [_]. split; [reflexivity|].
    constructor; [reflexivity | constructor]. }
  destruct (faults w (GetPodRightSizing req)) as [e|].
  - destruct (IsNotFound e); exact Hq.
  - eapply untouched_trans; [exact Hq|].
    apply (afterFetch_untouched r w1 req prs); [|exact Hi].
    split; [exact Hk|]. exists prs. repeat split; assumption.
Qed.

(** ** Passes that end at the fetch *)

(** The interval between analyses is never under an hour and the requeue
    delay is an hour or a day. *)
Lemma shouldRunAnalysis_recent (now last : Z) (prs : v1alpha1.PodRightSizing) :
  v1alpha1.LastAnalysisTime (v1alpha1.Status prs) = Some last ->
  (now - last < Hour)%Z ->
  shouldRunAnalysis ParseDuration now prs = false.
Proof.
  intros Hl Hlt. unfold shouldRunAnalysis. rewrite Hl. cbv zeta.
  apply Z.leb_gt. eapply Z.lt_le_trans; [exact Hlt|].
  change Hour with 3600000000000%Z.
  destruct (negb _); [|lia].
  destruct (ParseDuration _) as [d|]; [|lia].
  destruct (Z.ltb_spec d (24 * 3600000000000)) as [Hd|Hd]; [lia|].
  apply Z.quot_le_lower_bound; lia.
Qed.

Lemma requeueAfter_range (prs : v1alpha1.PodRightSizing) :
  RequeueAfter (requeueAfter ParseDuration prs) = Hour
  \/ RequeueAfter (requeueAfter ParseDuration prs) = (24 * Hour)%Z.
Proof.
  unfold requeueAfter. cbv zeta. simpl.
  destruct (negb _); [|left; reflexivity].
  destruct (ParseDuration _) as [d|]; [|left; reflexivity].
  destruct (_ <=? _)%Z; [right | left]; reflexivity.
Qed.

Lemma Reconcile_not_due (r : PodRightSizingReconciler) (req : NamespacedName)
    (w : Cluster) (prs : v1alpha1.PodRightSizing) :
  faults w (GetPodRightSizing req) = None ->
  policies w !! req = Some prs ->
  shouldRunAnalysis ParseDuration (now w) prs = false ->
  Reconcile Sqrt ParseDuration r req w
  = ((requeueAfter ParseDuration prs, None),
     logged (mkEvent (GetPodRightSizing req) None) w).
Proof.
  intros Hf Hp Hdue. rewrite Reconcile_staged. monad. rewrite Get_run, Hf, Hp.
  unfold afterFetch, Now. monad.
  change (now (logged (mkEvent (GetPodRightSizing req) None) w)) with (now w).
  rewrite Hdue. reflexivity.
Qed.

(** X11. When the policy object cannot be fetched the pass ends at once: it
    places no other call, changes nothing and asks for no requeue; an object
    that is not there (it was deleted) is no error, any other failure of the
    fetch is returned. *)
Theorem Reconcile_fetch_failed (r : PodRightSizingReconciler) (req : NamespacedName)
    (w : Cluster) (e : APIError) :
  faults w (GetPodRightSizing req) = Some e
  \/ (faults w (GetPodRightSizing req) = None /\ policies w !! req = None
      /\ e = NotFound) ->
  Reconcile Sqrt ParseDuration r req w
  = ((noRequeue, if IsNotFound e then None else Some (APIFailure e)),
     logged (mkEvent (GetPodRightSizing req) (Some e)) w).
Proof.
  intros H. rewrite Reconcile_staged. monad. rewrite Get_run.
  destruct H as [Hf|(Hf & Hp & ->)]; rewrite Hf; [|rewrite Hp; simpl];
    try destruct (IsNotFound e); reflexivity.
Qed.

(** X12. Within an hour of the last analysis a pass does nothing but fetch
    the policy, whatever the analysis window says: it places no other call,
    writes no status and touches no workload, and asks to be run again
    after an hour or after a day. *)
Theorem Reconcile_recently_analysed (r : PodRightSizingReconciler)
    (req : NamespacedName) (w : Cluster) (prs : v1alpha1.PodRightSizing) (last : Z) :
  faults w (GetPodRightSizing req) = None ->
  policies w !! req = Some prs ->
  v1alpha1.LastAnalysisTime (v1alpha1.Status prs) = Some last ->
  (now w - last < Hour)%Z ->
  Reconcile Sqrt ParseDuration r req w
  = ((requeueAfter ParseDuration prs, None),
     logged (mkEvent (GetPodRightSizing req) None) w)
  /\ (RequeueAfter (requeueAfter ParseDuration prs) = Hour
      \/ RequeueAfter (requeueAfter ParseDuration prs) = (24 * Hour)%Z).
Proof.
  intros Hf Hp Hl Hlt. split; [|apply requeueAfter_range].
  apply Reconcile_not_due; [exact Hf | exact Hp |].
  eapply shouldRunAnalysis_recent; eassumption.
Qed.

(** ** What a pass that goes through leaves behind *)

(** A status write that went through. *)
Definition written (req : NamespacedName) (phase : v1alpha1.RightSizingPhase) : Event :=
  mkEvent (UpdateStatus req phase) None.

(** The message of the last status write, as [Reconcile] builds it. *)
Definition completedMessage (dryRun : bool) (found : Z) : string :=
  let message := "Analysis completed. Found " +:+ pretty found +:+ " recommendations" in
  if dryRun then message +:+ " (dry-run mode)" else message.

(** The status a pass that goes through stores last, from the status it
    found: time of the last update and number of updated pods are kept in
    dry-run mode and set otherwise. *)
Definition finalStatus (dryRun : bool) (before : v1alpha1.PodRightSizingStatus)
    (now targeted : Z) (recommendations : list v1alpha1.PodRecommendation)
    (updatedCount : Z) : v1alpha1.PodRightSizingStatus :=
  v1alpha1.mkPodRightSizingStatus v1alpha1.PhaseCompleted
    (completedMessage dryRun (len recommendations))
    (Some now)
    (if dryRun then v1alpha1.LastUpdateTime before else Some now)
    targeted
    (if dryRun then v1alpha1.UpdatedPods before else updatedCount)
    recommendations.

(** The status writes of such a pass, in order. *)
Definition passWrites (req : NamespacedName) (dryRun : bool) : list Event :=
  [written req v1alpha1.PhaseAnalyzing; written req v1alpha1.PhaseRecommending]
  ++ (if dryRun then [] else [written req v1alpha1.PhaseUpdating])
  ++ [written req v1alpha1.PhaseCompleted].

Lemma updatePhase_step w req prs phase message :
  in_step w req prs ->
  exists prs' w',
    updatePhase prs phase message w = ((prs', None), w')
    /\ in_step w' req prs'
    /\ same_env w w'
    /\ policies w' !! req = Some prs'
    /\ v1alpha1.Spec prs' = v1alpha1.Spec prs
    /\ v1alpha1.Status prs' = v1alpha1.Status (phased prs phase message)
    /\ policyCalls (trace w') = policyCalls (trace w) ++ [written req phase].
Proof.
  intros Hin.
  destruct (updatePhase_in_step w req prs phase message Hin)
    as (prs' & w' & Hu & Hin' & He & Hp & Hsp & Hst).
  exists prs', w'. repeat (split; [assumption|]).
  destruct (updatePhase_cases _ _ _ _ _ _ _ Hu) as (_ & _ & ev & Hc & Ht & Hcase).
  destruct Hcase as [[Hfail _]|(e & _ & Habs & _)]; [|discriminate].
  rewrite Ht, policyCalls_app. f_equal.
  destruct Hin as (_ & Hk & _). rewrite Hk in Hc.
  destruct ev as [c f]. simpl in Hc, Hfail. subst c f. reflexivity.
Qed.

Lemma complete_step w req prs recommendations :
  in_step w req prs ->
  exists w' prs',
    complete ParseDuration prs recommendations w
    = ((requeueAfter ParseDuration prs, None), w')
    /\ in_step w' req prs'
    /\ same_env w w'
    /\ policies w' !! req = Some prs'
    /\ v1alpha1.Spec prs' = v1alpha1.Spec prs
    /\ v1alpha1.Status prs'
       = v1alpha1.Status
           (phased prs v1alpha1.PhaseCompleted
              (completedMessage (v1alpha1.DryRun (v1alpha1.Spec prs))
                 (len recommendations)))
    /\ policyCalls (trace w')
       = policyCalls (trace w) ++ [written req v1alpha1.PhaseCompleted].
Proof.
  intros Hin. unfold complete. monad.
  fold (completedMessage (v1alpha1.DryRun (v1alpha1.Spec prs)) (len recommendations)).
  destruct (updatePhase_step w req prs v1alpha1.PhaseCompleted
              (completedMessage (v1alpha1.DryRun (v1alpha1.Spec prs))
                 (len recommendations)) Hin)
    as (prs' & w' & -> & Hin' & He & Hp & Hsp & Hst & Ht).
  exists w', prs'. split; [|auto 10].
  rewrite (requeueAfter_spec ParseDuration prs' prs Hsp). reflexivity.
Qed.

Lemma afterRecommending_step w req prs recommendations :
  in_step w req prs ->
  (len recommendations <= MaxInt32)%Z ->
  exists w' prs' updatedCount,
    afterRecommending ParseDuration prs recommendations w
    = ((requeueAfter ParseDuration prs, None), w')
    /\ in_step w' req prs'
    /\ same_env w w'
    /\ policies w' !! req = Some prs'
    /\ v1alpha1.Spec prs' = v1alpha1.Spec prs
    /\ v1alpha1.Status prs'
       = finalStatus (v1alpha1.DryRun (v1alpha1.Spec prs)) (v1alpha1.Status prs)
           (now w) (v1alpha1.TargetedPods (v1alpha1.Status prs)) recommendations
           updatedCount
    /\ (0 <= updatedCount <= len recommendations)%Z
    /\ policyCalls (trace w')
       = policyCalls (trace w)
         ++ (if v1alpha1.DryRun (v1alpha1.Spec prs) then []
             else [written req v1alpha1.PhaseUpdating])
         ++ [written req v1alpha1.PhaseCompleted].
Proof.
  intros Hin Hlen. unfold afterRecommending, Now. monad. cbv zeta.
  set (prs1 := withAnalysis (now w) recommendations prs).
  assert (Hin1 : in_step w req prs1) by (eapply in_step_local; [| |exact Hin]; reflexivity).
  change (v1alpha1.Spec prs1) with (v1alpha1.Spec prs).
  destruct (v1alpha1.DryRun (v1alpha1.Spec prs)) eqn:Hdry; cbv beta iota delta [negb].
  - destruct (complete_step w req prs1 recommendations Hin1)
      as (w' & prs' & -> & Hin' & He & Hp & Hsp & Hst & Ht).
    exists w', prs', 0%Z. split; [reflexivity|].
    repeat (split; [assumption|]). split; [|split].
    + rewrite Hst. change (v1alpha1.Spec prs1) with (v1alpha1.Spec prs).
      rewrite Hdry. reflexivity.
    + pose proof (Zle_0_nat (length recommendations)). unfold len. lia.
    + exact Ht.
  - destruct (updatePhase_step w req prs1 v1alpha1.PhaseUpdating
                "Applying recommendations" Hin1)
      as (prs2 & w2 & -> & Hin2 & He2 & _ & Hsp2 & Hst2 & Ht2).
    destruct (applier_applyRecommendations prs2 recommendations w2) as (He3 & Hp3 & Ht3).
    pose proof (applyRecommendations_count prs2 recommendations w2) as Hc.
    destruct (applyRecommendations prs2 recommendations w2) as [updatedCount w3].
    simpl in He3, Hp3, Ht3, Hc.
    destruct (Z.ltb_spec MaxInt32 updatedCount) as [Hbig|_]; [lia|].
    set (prs3 := withUpdated (now w3) updatedCount prs2).
    assert (Hin3 : in_step w3 req prs3).
    { eapply in_step_local; [| |eapply in_step_env; eassumption]; reflexivity. }
    destruct (complete_step w3 req prs3 recommendations Hin3)
      as (w' & prs' & -> & Hin' & He' & Hp' & Hsp' & Hst' & Ht').
    assert (Hnow : now w3 = now w).
    { destruct He2 as (_ & _ & _ & Hn2 & _). destruct He3 as (_ & _ & _ & Hn3 & _).
      congruence. }
    exists w', prs', updatedCount. split; [|split; [exact Hin'|split; [|split; [exact Hp'|split; [|split; [|split; [exact Hc|]]]]]]].
    + rewrite (requeueAfter_spec ParseDuration prs3 prs); [reflexivity|]. exact Hsp2.
    + eapply same_env_trans; [exact He2|]. eapply same_env_trans; eassumption.
    + rewrite Hsp'. exact Hsp2.
    + rewrite Hst'. unfold phased, prs3, withUpdated, finalStatus. simpl.
      rewrite Hst2, Hnow. change (v1alpha1.Spec prs2) with (v1alpha1.Spec prs2).
      rewrite Hsp2. change (v1alpha1.Spec prs1) with (v1alpha1.Spec prs).
      rewrite Hdry. reflexivity.
    + rewrite Ht', Ht3, Ht2, <- app_assoc. reflexivity.
Qed.

Lemma afterDiscovery_step r w req prs targetPods :
  in_step w req prs ->
  targetPods <> [] ->
  (len targetPods <= MaxInt32)%Z ->
  let recommendations :=
    recommendAll Sqrt ParseDuration r prs
      (map_to_list (groupPodsByWorkload targetPods w).1) in
  (len recommendations <= MaxInt32)%Z ->
  exists w' prs' updatedCount,
    afterDiscovery Sqrt ParseDuration r prs targetPods w
    = ((requeueAfter ParseDuration prs, None), w')
    /\ in_step w' req prs'
    /\ same_env w w'
    /\ policies w' !! req = Some prs'
    /\ v1alpha1.Spec prs' = v1alpha1.Spec prs
    /\ v1alpha1.Status prs'
       = finalStatus (v1alpha1.DryRun (v1alpha1.Spec prs)) (v1alpha1.Status prs)
           (now w) (len targetPods) recommendations updatedCount
    /\ (0 <= updatedCount <= len recommendations)%Z
    /\ policyCalls (trace w')
       = policyCalls (trace w)
         ++ [written req v1alpha1.PhaseRecommending]
         ++ (if v1alpha1.DryRun (v1alpha1.Spec prs) then []
             else [written req v1alpha1.PhaseUpdating])
         ++ [written req v1alpha1.PhaseCompleted].
Proof.
  intros Hin Hne Hlen recommendations Hrecs. unfold afterDiscovery.
  destruct (Z.ltb_spec MaxInt32 (len targetPods)) as [Hbig|_]; [lia|].
  pose proof (engine_facts.len_pos targetPods Hne) as Hpos.
  destruct (Z.eqb_spec (len targetPods) 0) as [Hz|_]; [lia|]. cbv zeta. monad.
  destruct (reader_groupPodsByWorkload targetPods w) as (He & Hp & _ & Ht & _).
  subst recommendations.
  destruct (groupPodsByWorkload targetPods w) as [workloadGroups w1].
  simpl in He, Hp, Ht, Hrecs |- *.
  set (prs1 := withTargeted (len targetPods) prs).
  assert (Hin1 : in_step w1 req prs1).
  { eapply in_step_local; [| |eapply in_step_env; eassumption]; reflexivity. }
  destruct (updatePhase_step w1 req prs1 v1alpha1.PhaseRecommending
              "Generating recommendations" Hin1)
    as (prs2 & w2 & -> & Hin2 & He2 & _ & Hsp2 & Hst2 & Ht2).
  assert (Hsp : v1alpha1.Spec prs2 = v1alpha1.Spec prs) by (rewrite Hsp2; reflexivity).
  rewrite (recommendAll_spec Sqrt ParseDuration r prs2 prs _ Hsp).
  destruct (afterRecommending_step w2 req prs2 _ Hin2 Hrecs)
    as (w' & prs' & updatedCount & -> & Hin' & He' & Hp' & Hsp' & Hst' & Hc & Ht').
  assert (Hnow : now w2 = now w).
  { destruct He as (_ & _ & _ & Hn & _). destruct He2 as (_ & _ & _ & Hn2 & _).
    congruence. }
  exists w', prs', updatedCount.
  split; [|split; [exact Hin'|split; [|split; [exact Hp'|split; [|split; [|split; [exact Hc|]]]]]]].
  - rewrite (requeueAfter_spec ParseDuration prs2 prs Hsp). reflexivity.
  - eapply same_env_trans; [exact He|]. eapply same_env_trans; eassumption.
  - congruence.
  - rewrite Hst', Hsp, Hst2, Hnow. reflexivity.
  - rewrite Ht', Hsp, Ht2, Ht, <- app_assoc. reflexivity.
Qed.

(** A pass that goes through, from the fetched object on. *)
Lemma pass_summary r w req prs targetPods :
  (forall c, faults w c = None) ->
  policies w !! req = Some prs ->
  keyOf (v1alpha1.Meta prs) = req ->
  shouldRunAnalysis ParseDuration (now w) prs = true ->
  (discoverTargetPods prs w).1 = Ok targetPods ->
  targetPods <> [] ->
  (len targetPods <= MaxInt32)%Z ->
  let recommendations :=
    recommendAll Sqrt ParseDuration r prs
      (map_to_list (groupPodsByWorkload targetPods w).1) in
  (len recommendations <= MaxInt32)%Z ->
  exists w' prs' updatedCount,
    Reconcile Sqrt ParseDuration r req w = ((requeueAfter ParseDuration prs, None), w')
    /\ in_step w' req prs'
    /\ same_env w w'
    /\ policies w' !! req = Some prs'
    /\ v1alpha1.Spec prs' = v1alpha1.Spec prs
    /\ v1alpha1.Status prs'
       = finalStatus (v1alpha1.DryRun (v1alpha1.Spec prs)) (v1alpha1.Status prs)
           (now w) (len targetPods) recommendations updatedCount
    /\ (0 <= updatedCount <= len recommendations)%Z
    /\ policyCalls (trace w')
       = policyCalls (trace w)
         ++ mkEvent (GetPodRightSizing req) None
            :: passWrites req (v1alpha1.DryRun (v1alpha1.Spec prs)).
Proof.
  intros Hf Hp Hk Hdue Hdisc Hne Hlen recommendations Hrecs.
  rewrite Reconcile_staged. monad. rewrite Get_run, Hf, Hp.
  set (w0 := logged (mkEvent (GetPodRightSizing req) None) w).
  assert (He0 : same_env w w0) by (repeat split).
  assert (Hin0 : in_step w0 req prs).
  { split; [exact Hf|]. split; [exact Hk|]. exists prs. repeat split. exact Hp. }
  unfold afterFetch, Now. monad. change (now w0) with (now w). rewrite Hdue.
  cbv beta iota delta [negb].
  destruct (updatePhase_step w0 req prs v1alpha1.PhaseAnalyzing
              "Starting resource analysis" Hin0)
    as (prs1 & w1 & -> & Hin1 & He1 & _ & Hsp1 & Hst1 & Ht1).
  unfold afterAnalyzing. monad.
  destruct (reader_discoverTargetPods prs1 w1) as (He2 & Hp2 & _ & Ht2 & Hr2).
  assert (Hd : (discoverTargetPods prs1 w1).1 = Ok targetPods).
  { rewrite <- (Hr2 w (same_env_sym _ _ (same_env_trans _ _ _ He0 He1))).
    rewrite (discoverTargetPods_spec prs1 prs w Hsp1). exact Hdisc. }
  destruct (discoverTargetPods prs1 w1) as [discovered w2]. simpl in He2, Hp2, Ht2, Hd.
  subst discovered.
  assert (Hin2 : in_step w2 req prs1) by (eapply in_step_env; eassumption).
  assert (He02 : same_env w w2).
  { eapply same_env_trans; [exact He0|]. eapply same_env_trans; eassumption. }
  assert (Hg : (groupPodsByWorkload targetPods w2).1 = (groupPodsByWorkload targetPods w).1).
  { destruct (reader_groupPodsByWorkload targetPods w) as (_ & _ & _ & _ & Hr).
    apply Hr. exact He02. }
  destruct (afterDiscovery_step r w2 req prs1 targetPods Hin2 Hne Hlen)
    as (w' & prs' & updatedCount & -> & Hin' & He' & Hp' & Hsp' & Hst' & Hc & Ht').
  { rewrite Hg, (recommendAll_spec Sqrt ParseDuration r prs1 prs _ Hsp1). exact Hrecs. }
  rewrite Hg, (recommendAll_spec Sqrt ParseDuration r prs1 prs _ Hsp1) in Hst', Hc.
  fold recommendations in Hst', Hc.
  assert (Hnow : now w2 = now w) by (destruct He02 as (_ & _ & _ & Hn & _); congruence).
  exists w', prs', updatedCount.
  split; [|split; [exact Hin'|split; [|split; [exact Hp'|split; [|split; [|split; [exact Hc|]]]]]]].
  - rewrite (requeueAfter_spec ParseDuration prs1 prs Hsp1). reflexivity.
  - eapply same_env_trans; eassumption.
  - congruence.
  - rewrite Hst', Hsp1, Hst1, Hnow. reflexivity.
  - rewrite Ht', Hsp1, Ht2, Ht1. unfold w0. simpl trace. rewrite policyCalls_app.
    rewrite <- !app_assoc. reflexivity.
Qed.

(** X13. A pass that goes through stores, with the recommendations, the
    time of the analysis and the number of target pods; in dry-run mode the
    time of the last update and the number of updated pods stay as they
    were, otherwise the update time is set and the number of updates lies
    between zero and the number of recommendations. The specification of
    the stored object is not changed. *)
Theorem Reconcile_records_analysis (r : PodRightSizingReconciler) (w : Cluster)
    (req : NamespacedName) (prs : v1alpha1.PodRightSizing)
    (targetPods : list corev1.Pod) :
  (forall c, faults w c = None) ->
  policies w !! req = Some prs ->
  keyOf (v1alpha1.Meta prs) = req ->
  shouldRunAnalysis ParseDuration (now w) prs = true ->
  (discoverTargetPods prs w).1 = Ok targetPods ->
  targetPods <> [] ->
  (len targetPods <= MaxInt32)%Z ->
  let recommendations :=
    recommendAll Sqrt ParseDuration r prs
      (map_to_list (groupPodsByWorkload targetPods w).1) in
  (len recommendations <= MaxInt32)%Z ->
  exists prs' updatedCount,
    policies (Reconcile Sqrt ParseDuration r req w).2 !! req = Some prs'
    /\ v1alpha1.Spec prs' = v1alpha1.Spec prs
    /\ v1alpha1.Status prs'
       = finalStatus (v1alpha1.DryRun (v1alpha1.Spec prs)) (v1alpha1.Status prs)
           (now w) (len targetPods) recommendations updatedCount
    /\ (0 <= updatedCount <= len recommendations)%Z.
Proof.
  intros Hf Hp Hk Hdue Hdisc Hne Hlen recommendations Hrecs.
  destruct (pass_summary r w req prs targetPods Hf Hp Hk Hdue Hdisc Hne Hlen Hrecs)
    as (w' & prs' & updatedCount & -> & _ & _ & Hp' & Hsp & Hst & Hc & _).
  exists prs', updatedCount. auto.
Qed.

(** X14. The policy calls of a pass that goes through are, in this order
    and each of them served: the fetch, the status writes for Analyzing and
    Recommending, the one for Updating unless the policy is in dry-run
    mode, and the one for Completed. *)
Theorem Reconcile_phase_order (r : PodRightSizingReconciler) (w : Cluster)
    (req : NamespacedName) (prs : v1alpha1.PodRightSizing)
    (targetPods : list corev1.Pod) :
  (forall c, faults w c = None) ->
  policies w !! req = Some prs ->
  keyOf (v1alpha1.Meta prs) = req ->
  shouldRunAnalysis ParseDuration (now w) prs = true ->
  (discoverTargetPods prs w).1 = Ok targetPods ->
  targetPods <> [] ->
  (len targetPods <= MaxInt32)%Z ->
  (len (recommendAll Sqrt ParseDuration r prs
          (map_to_list (groupPodsByWorkload targetPods w).1)) <= MaxInt32)%Z ->
  policyCalls (trace (Reconcile Sqrt ParseDuration r req w).2)
  = policyCalls (trace w)
    ++ [mkEvent (GetPodRightSizing req) None;
        mkEvent (UpdateStatus req v1alpha1.PhaseAnalyzing) None;
        mkEvent (UpdateStatus req v1alpha1.PhaseRecommending) None]
    ++ (if v1alpha1.DryRun (v1alpha1.Spec prs) then []
        else [mkEvent (UpdateStatus req v1alpha1.PhaseUpdating) None])
    ++ [mkEvent (UpdateStatus req v1alpha1.PhaseCompleted) None].
Proof.
  intros Hf Hp Hk Hdue Hdisc Hne Hlen Hrecs.
  destruct (pass_summary r w req prs targetPods Hf Hp Hk Hdue Hdisc Hne Hlen Hrecs)
    as (w' & prs' & updatedCount & -> & _ & _ & _ & _ & _ & _ & Ht).
  exact Ht.
Qed.

(** X15. After a pass that went through, a pass over the same stored
    objects less than an hour later does nothing but fetch the policy: the
    analysis is not run again. *)
Theorem Reconcile_again_idle (r : PodRightSizingReconciler) (w : Cluster)
    (req : NamespacedName) (prs : v1alpha1.PodRightSizing)
    (targetPods : list corev1.Pod) :
  (forall c, faults w c = None) ->
  policies w !! req = Some prs ->
  keyOf (v1alpha1.Meta prs) = req ->
  shouldRunAnalysis ParseDuration (now w) prs = true ->
  (discoverTargetPods prs w).1 = Ok targetPods ->
  targetPods <> [] ->
  (len targetPods <= MaxInt32)%Z ->
  (len (recommendAll Sqrt ParseDuration r prs
          (map_to_list (groupPodsByWorkload targetPods w).1)) <= MaxInt32)%Z ->
  forall later : Cluster,
    policies later = policies (Reconcile Sqrt ParseDuration r req w).2 ->
    faults later = faults w ->
    (now later - now w < Hour)%Z ->
    Reconcile Sqrt ParseDuration r req later
    = ((requeueAfter ParseDuration prs, None),
       logged (mkEvent (GetPodRightSizing req) None) later).
Proof.
  intros Hf Hp Hk Hdue Hdisc Hne Hlen Hrecs later Hpol Hfl Hnow.
  destruct (pass_summary r w req prs targetPods Hf Hp Hk Hdue Hdisc Hne Hlen Hrecs)
    as (w' & prs' & updatedCount & Hrun & _ & _ & Hp' & Hsp & Hst & _ & _).
  rewrite Hrun in Hpol. simpl in Hpol.
  rewrite <- (requeueAfter_spec ParseDuration prs' prs Hsp).
  apply Reconcile_not_due.
  - rewrite Hfl. apply Hf.
  - rewrite Hpol. exact Hp'.
  - apply (shouldRunAnalysis_recent (now later) (now w)); [|exact Hnow].
    rewrite Hst. reflexivity.
Qed.

(** X16. When discovery finds no pod the pass ends in phase Completed with
    the message that no pod matches and a target count of zero; the time of
    the last analysis and the recommendations of an earlier pass stay as
    they were, so the analysis remains due. *)
Theorem Reconcile_no_pods (r : PodRightSizingReconciler) (w : Cluster)
    (req : NamespacedName) (prs : v1alpha1.PodRightSizing) :
  (forall c, faults w c = None) ->
  policies w !! req = Some prs ->
  keyOf (v1alpha1.Meta prs) = req ->
  shouldRunAnalysis ParseDuration (now w) prs = true ->
  (discoverTargetPods prs w).1 = Ok [] ->
  exists w' prs',
    Reconcile Sqrt ParseDuration r req w = ((requeueAfter ParseDuration prs, None), w')
    /\ policies w' !! req = Some prs'
    /\ v1alpha1.Status prs'
       = (let before := v1alpha1.Status prs in
          v1alpha1.mkPodRightSizingStatus v1alpha1.PhaseCompleted
            "No matching pods found"
            (v1alpha1.LastAnalysisTime before) (v1alpha1.LastUpdateTime before)
            0 (v1alpha1.UpdatedPods before) (v1alpha1.Recommendations before))
    /\ shouldRunAnalysis ParseDuration (now w') prs' = true
    /\ workloads w' = workloads w.
Proof.
  intros Hf Hp Hk Hdue Hdisc.
  rewrite Reconcile_staged. monad. rewrite Get_run, Hf, Hp.
  set (w0 := logged (mkEvent (GetPodRightSizing req) None) w).
  assert (He0 : same_env w w0) by (repeat split).
  assert (Hin0 : in_step w0 req prs).
  { split; [exact Hf|]. split; [exact Hk|]. exists prs. repeat split. exact Hp. }
  unfold afterFetch, Now. monad. change (now w0) with (now w). rewrite Hdue.
  cbv beta iota delta [negb].
  pose proof (quiet_updatePhase prs v1alpha1.PhaseAnalyzing
                "Starting resource analysis" w0) as [Hw1 _].
  destruct (updatePhase_step w0 req prs v1alpha1.PhaseAnalyzing
              "Starting resource analysis" Hin0)
    as (prs1 & w1 & Hu1 & Hin1 & He1 & _ & Hsp1 & Hst1 & _).
  rewrite Hu1 in Hw1 |- *. simpl in Hw1.
  unfold afterAnalyzing. monad.
  destruct (reader_discoverTargetPods prs1 w1) as (He2 & Hp2 & Hw2 & _ & Hr2).
  assert (Hd : (discoverTargetPods prs1 w1).1 = Ok []).
  { rewrite <- (Hr2 w (same_env_sym _ _ (same_env_trans _ _ _ He0 He1))).
    rewrite (discoverTargetPods_spec prs1 prs w Hsp1). exact Hdisc. }
  destruct (discoverTargetPods prs1 w1) as [discovered w2]. simpl in He2, Hp2, Hw2, Hd.
  subst discovered.
  assert (Hin2 : in_step w2 req prs1) by (eapply in_step_env; eassumption).
  unfold afterDiscovery. change (MaxInt32 <? len [])%Z with false.
  change (len [] =? 0)%Z with true. cbv iota zeta. monad.
  set (prs2 := withTargeted (len []) prs1).
  assert (Hin3 : in_step w2 req prs2) by (eapply in_step_local; [| |exact Hin2]; reflexivity).
  pose proof (quiet_updatePhase prs2 v1alpha1.PhaseCompleted
                "No matching pods found" w2) as [Hw3 _].
  destruct (updatePhase_step w2 req prs2 v1alpha1.PhaseCompleted
              "No matching pods found" Hin3)
    as (prs3 & w3 & Hu3 & _ & He3 & Hp3 & Hsp3 & Hst3 & _).
  rewrite Hu3 in Hw3 |- *. simpl in Hw3.
  assert (Hst : v1alpha1.Status prs3
                = (let before := v1alpha1.Status prs in
                   v1alpha1.mkPodRightSizingStatus v1alpha1.PhaseCompleted
                     "No matching pods found"
                     (v1alpha1.LastAnalysisTime before) (v1alpha1.LastUpdateTime before)
                     0 (v1alpha1.UpdatedPods before) (v1alpha1.Recommendations before))).
  { rewrite Hst3. unfold phased, prs2, withTargeted. simpl. rewrite Hst1. reflexivity. }
  exists w3, prs3. split; [|split; [exact Hp3|split; [exact Hst|split]]].
  - rewrite (requeueAfter_spec ParseDuration prs3 prs); [reflexivity|].
    rewrite Hsp3. exact Hsp1.
  - assert (Hnow : now w3 = now w).
    { destruct He1 as (_ & _ & _ & Hn1 & _). destruct He2 as (_ & _ & _ & Hn2 & _).
      destruct He3 as (_ & _ & _ & Hn3 & _). simpl in Hn1. congruence. }
    rewrite Hnow, <- Hdue. unfold shouldRunAnalysis. rewrite Hst. simpl.
    rewrite Hsp3. change (v1alpha1.Spec prs2) with (v1alpha1.Spec prs1).
    rewrite Hsp1. reflexivity.
  - rewrite Hw3, Hw2, Hw1. reflexivity.
Qed.

(** X17. When discovery fails, be it for an invalid selector or a refused
    listing, and the server accepts the status writes, the pass stores the
    phase Error with the text of the failure, returns the failure and asks
    to be run again after five minutes; no workload is touched. *)
Theorem Reconcile_discovery_failed (r : PodRightSizingReconciler) (w : Cluster)
    (req : NamespacedName) (prs : v1alpha1.PodRightSizing) (err : error) :
  faults w (GetPodRightSizing req) = None ->
  (forall phase, faults w (UpdateStatus req phase) = None) ->
  policies w !! req = Some prs ->
  keyOf (v1alpha1.Meta prs) = req ->
  shouldRunAnalysis ParseDuration (now w) prs = true ->
  (discoverTargetPods prs w).1 = Err err ->
  exists w' prs',
    Reconcile Sqrt ParseDuration r req w = ((mkResult (5 * Minute), Some err), w')
    /\ policies w' !! req = Some prs'
    /\ v1alpha1.Phase (v1alpha1.Status prs') = v1alpha1.PhaseError
    /\ v1alpha1.Message (v1alpha1.Status prs')
       = "Failed to discover pods: " +:+ Error err
    /\ workloads w' = workloads w.
Proof.
  intros Hf Hfw Hp Hk Hdue Hdisc.
  rewrite Reconcile_staged. monad. rewrite Get_run, Hf, Hp.
  set (w0 := logged (mkEvent (GetPodRightSizing req) None) w).
  unfold afterFetch, Now. monad. change (now w0) with (now w). rewrite Hdue.
  cbv beta iota delta [negb].
  assert (Hp0 : policies w0 !! keyOf (v1alpha1.Meta prs) = Some prs)
    by (rewrite Hk; exact Hp).
  rewrite (updatePhase_ok prs v1alpha1.PhaseAnalyzing "Starting resource analysis"
             w0 prs) by (rewrite ?Hk; trivial; apply Hfw).
  cbv zeta.
  set (prs1 := v1alpha1.mkPodRightSizing _ _ _).
  set (w1 := logged _ (withPolicies _ w0)).
  assert (He1 : same_env w w1) by (repeat split).
  unfold afterAnalyzing. monad.
  destruct (reader_discoverTargetPods prs1 w1) as (He2 & Hp2 & Hw2 & _ & Hr2).
  assert (Hd : (discoverTargetPods prs1 w1).1 = Err err).
  { rewrite <- (Hr2 w (same_env_sym _ _ He1)).
    rewrite (discoverTargetPods_spec prs1 prs w eq_refl). exact Hdisc. }
  destruct (discoverTargetPods prs1 w1) as [discovered w2]. simpl in He2, Hp2, Hw2, Hd.
  subst discovered.
  assert (Hk1 : keyOf (v1alpha1.Meta prs1) = req) by (rewrite <- Hk; reflexivity).
  assert (Hp1 : policies w2 !! keyOf (v1alpha1.Meta prs1) = Some prs1).
  { rewrite Hp2, Hk1. unfold w1. simpl. rewrite Hk. apply lookup_insert_eq. }
  assert (Hf2 : faults w2 (UpdateStatus (keyOf (v1alpha1.Meta prs1)) v1alpha1.PhaseError)
                = None).
  { destruct He2 as (_ & _ & _ & _ & <-). rewrite Hk1. apply Hfw. }
  rewrite (updatePhase_ok prs1 v1alpha1.PhaseError _ w2 prs1 Hf2 Hp1 eq_refl).
  cbv zeta. eexists _, _. split; [reflexivity|]. simpl.
  change (keyOf (bumped (v1alpha1.Meta prs))) with (keyOf (v1alpha1.Meta prs)).
  rewrite Hk.
  split; [apply lookup_insert_eq|]. split; [reflexivity|]. split; [reflexivity|].
  exact Hw2.
Qed.

End Passes.




(** *** The passes above on the small cluster *)

Import controller_spec.

Lemma Reconcile_leaves_workloads_witness :
  let w := shop (policy "shop" true) in
  policies w !! rightsize = Some (policy "shop" true)
  /\ workloads (Reconcile Float64.Sqrt time.ParseDuration operator rightsize w).2
     = workloads w.
Proof.
  cbv zeta. split; [reflexivity|].
  apply (Reconcile_leaves_workloads Float64.Sqrt time.ParseDuration operator rightsize
           (shop (policy "shop" true)) (policy "shop" true)).
  - reflexivity.
  - reflexivity.
  - left. reflexivity.
Defined.

Lemma Reconcile_fetch_failed_witness :
  Reconcile Float64.Sqrt time.ParseDuration operator ("ops", "gone")
    (shop (policy "shop" true))
  = ((noRequeue, None),
     logged (mkEvent (GetPodRightSizing ("ops", "gone")) (Some NotFound))
       (shop (policy "shop" true))).
Proof.
  apply (Reconcile_fetch_failed Float64.Sqrt time.ParseDuration operator ("ops", "gone")
           (shop (policy "shop" true)) NotFound).
  right. split; [reflexivity|]. split; reflexivity.
Defined.

(** The policy after an analysis at time 900; the clock of the small cluster
    shows 1000. *)
Definition analysed : v1alpha1.PodRightSizing :=
  withStatus
    (v1alpha1.mkPodRightSizingStatus v1alpha1.PhaseCompleted "" (Some 900%Z) None 2 0 [])
    (policy "shop" false).

Lemma Reconcile_recently_analysed_witness :
  Reconcile Float64.Sqrt time.ParseDuration operator rightsize (shop analysed)
  = ((mkResult (24 * Hour), None),
     logged (mkEvent (GetPodRightSizing rightsize) None) (shop analysed)).
Proof.
  apply (Reconcile_recently_analysed Float64.Sqrt time.ParseDuration operator rightsize
           (shop analysed) analysed 900).
  - reflexivity.
  - reflexivity.
  - reflexivity.
  - reflexivity.
Defined.

Lemma Reconcile_records_analysis_witness :
  exists prs' updatedCount,
    policies (Reconcile Float64.Sqrt time.ParseDuration operator rightsize
                (shop (policy "shop" false))).2 !! rightsize = Some prs'
    /\ v1alpha1.LastAnalysisTime (v1alpha1.Status prs') = Some 1000%Z
    /\ v1alpha1.TargetedPods (v1alpha1.Status prs') = 2%Z
    /\ v1alpha1.LastUpdateTime (v1alpha1.Status prs') = Some 1000%Z
    /\ v1alpha1.UpdatedPods (v1alpha1.Status prs') = updatedCount.
Proof.
  destruct (Reconcile_records_analysis Float64.Sqrt time.ParseDuration operator
              (shop (policy "shop" false)) rightsize (policy "shop" false) [web0; db0])
    as (prs' & updatedCount & Hp & _ & Hst & _).
  - intros c. reflexivity.
  - vm_compute. reflexivity.
  - reflexivity.
  - reflexivity.
  - vm_compute. reflexivity.
  - discriminate.
  - vm_compute. discriminate.
  - vm_compute. discriminate.
  - exists prs', updatedCount. split; [exact Hp|]. rewrite Hst. repeat split.
Defined.

Lemma Reconcile_phase_order_witness :
  policyCalls (trace (Reconcile Float64.Sqrt time.ParseDuration operator rightsize
                        (shop (policy "shop" false))).2)
  = [mkEvent (GetPodRightSizing rightsize) None;
     mkEvent (UpdateStatus rightsize v1alpha1.PhaseAnalyzing) None;
     mkEvent (UpdateStatus rightsize v1alpha1.PhaseRecommending) None;
     mkEvent (UpdateStatus rightsize v1alpha1.PhaseUpdating) None;
     mkEvent (UpdateStatus rightsize v1alpha1.PhaseCompleted) None].
Proof.
  apply (Reconcile_phase_order Float64.Sqrt time.ParseDuration operator
           (shop (policy "shop" false)) rightsize (policy "shop" false) [web0; db0]).
  - intros c. reflexivity.
  - vm_compute. reflexivity.
  - reflexivity.
  - reflexivity.
  - vm_compute. reflexivity.
  - discriminate.
  - vm_compute. discriminate.
  - vm_compute. discriminate.
Defined.

Lemma Reconcile_again_idle_witness :
  let once :=
    (Reconcile Float64.Sqrt time.ParseDuration operator rightsize
       (shop (policy "shop" true))).2 in
  Reconcile Float64.Sqrt time.ParseDuration operator rightsize once
  = ((requeueAfter time.ParseDuration (policy "shop" true), None),
     logged (mkEvent (GetPodRightSizing rightsize) None) once).
Proof.
  cbv zeta.
  apply (Reconcile_again_idle Float64.Sqrt time.ParseDuration operator
           (shop (policy "shop" true)) rightsize (policy "shop" true) [web0; db0]).
  - intros c. reflexivity.
  - vm_compute. reflexivity.
  - reflexivity.
  - reflexivity.
  - vm_compute. reflexivity.
  - discriminate.
  - vm_compute. discriminate.
  - vm_compute. discriminate.
  - reflexivity.
  - vm_compute. reflexivity.
  - vm_compute. reflexivity.
Defined.

Lemma Reconcile_no_pods_witness :
  exists w' prs',
    Reconcile Float64.Sqrt time.ParseDuration operator rightsize
      (shop (policy "warehouse" true))
    = ((requeueAfter time.ParseDuration (policy "warehouse" true), None), w')
    /\ policies w' !! rightsize = Some prs'
    /\ v1alpha1.Message (v1alpha1.Status prs') = "No matching pods found"
    /\ v1alpha1.LastAnalysisTime (v1alpha1.Status prs') = None.
Proof.
  destruct (Reconcile_no_pods Float64.Sqrt time.ParseDuration operator
              (shop (policy "warehouse" true)) rightsize (policy "warehouse" true))
    as (w' & prs' & Hrun & Hp & Hst & _).
  - intros c. reflexivity.
  - vm_compute. reflexivity.
  - reflexivity.
  - reflexivity.
  - vm_compute. reflexivity.
  - exists w', prs'. split; [exact Hrun|]. split; [exact Hp|]. rewrite Hst.
    split; reflexivity.
Defined.

Lemma Reconcile_discovery_failed_witness :
  let w := refusing (ListPods "shop") (ServerError "etcd unavailable")
             (shop (policy "shop" true)) in
  exists w' prs',
    Reconcile Float64.Sqrt time.ParseDuration operator rightsize w
    = ((mkResult (5 * Minute),
        Some (ListPodsFailed "shop" (ServerError "etcd unavailable"))), w')
    /\ policies w' !! rightsize = Some prs'
    /\ v1alpha1.Phase (v1alpha1.Status prs') = v1alpha1.PhaseError
    /\ v1alpha1.Message (v1alpha1.Status prs')
       = "Failed to discover pods: failed to list pods in namespace shop: etcd unavailable".
Proof.
  cbv zeta.
  destruct (Reconcile_discovery_failed Float64.Sqrt time.ParseDuration operator
              (refusing (ListPods "shop") (ServerError "etcd unavailable")
                 (shop (policy "shop" true)))
              rightsize (policy "shop" true)
              (ListPodsFailed "shop" (ServerError "etcd unavailable")))
    as (w' & prs' & Hrun & Hp & Hph & Hmsg & _).
  - reflexivity.
  - intros phase. reflexivity.
  - vm_compute. reflexivity.
  - reflexivity.
  - reflexivity.
  - vm_compute. reflexivity.
  - exists w', prs'. split; [exact Hrun|]. split; [exact Hp|]. split; [exact Hph|].
    rewrite Hmsg. vm_compute. reflexivity.
Defined.

(** ** Discovery *)

(** What discovery checks of a pod: it is one of the pods of the cluster, it
    passes [shouldIncludePod], and its labels match the selector. *)
Definition eligible (all : list corev1.Pod) (selector : metav1.Selector)
    (prs : v1alpha1.PodRightSizing) (pod : corev1.Pod) : Prop :=
  In pod all
  /\ metav1.Matches selector (metav1.Labels (corev1.PodMeta pod)) = true
  /\ shouldIncludePod pod prs = true.

Lemma listTargetPods_eligible selector prs nss acc w out :
  Forall (eligible (pods w) selector prs) acc ->
  (listTargetPods selector prs nss acc w).1 = Ok out ->
  Forall (eligible (pods w) selector prs) out.
Proof.
  revert acc w. induction nss as [|ns nss IH]; intros acc w Hacc; simpl.
  - monad. simpl. intros [= <-]. exact Hacc.
  - destruct (isNamespaceExcluded ns _); [apply IH, Hacc|]. monad.
    unfold ListPodsMatching, served.
    destruct (faults w (ListPods ns)); simpl; [discriminate|].
    set (w1 := logged _ w). change (pods w) with (pods w1) in Hacc |- *.
    apply IH. apply Forall_app. split; [exact Hacc|].
    apply List.Forall_forall. intros pod Hpod.
    apply List.filter_In in Hpod as [Hpod Hinc].
    apply List.filter_In in Hpod as [Hpod Hsel].
    apply andb_true_iff in Hsel as [Hsel _].
    split; [exact Hpod|]. split; assumption.
Qed.

(** The selector discovery lists pods with. *)
Definition podSelector (prs : v1alpha1.PodRightSizing) : option metav1.Selector :=
  match v1alpha1.LabelSelector (v1alpha1.Target (v1alpha1.Spec prs)) with
  | Some ls => metav1.LabelSelectorAsSelector ls
  | None => Some metav1.Everything
  end.

Lemma shouldIncludePod_true pod prs :
  shouldIncludePod pod prs = true ->
  corev1.Phase pod = corev1.PodRunning
  /\ metav1.OwnerReferences (corev1.PodMeta pod) <> []
  /\ Exists (fun container =>
               corev1.Requests (corev1.Resources container) <> ∅
               \/ corev1.Limits (corev1.Resources container) <> ∅)
       (corev1.Containers pod)
  /\ (v1alpha1.IncludeWorkloadTypes (v1alpha1.Target (v1alpha1.Spec prs)) <> [] ->
      In (getWorkloadType pod)
         (v1alpha1.IncludeWorkloadTypes (v1alpha1.Target (v1alpha1.Spec prs)))).
Proof.
  unfold shouldIncludePod.
  destruct (bool_decide (corev1.Phase pod = corev1.PodRunning)) eqn:Hph;
    [|discriminate]. apply bool_decide_eq_true in Hph. simpl negb. cbv iota.
  destruct (Z.eqb_spec (len (metav1.OwnerReferences (corev1.PodMeta pod))) 0) as [Hz|Hz];
    [discriminate|]. cbv zeta.
  set (types := v1alpha1.IncludeWorkloadTypes _).
  destruct ((0 <? len types)%Z && negb (existsb _ types)) eqn:Hty; [discriminate|].
  intros Hres. split; [exact Hph|]. split; [|split].
  - intros E. rewrite E in Hz. apply Hz. reflexivity.
  - apply List.Exists_exists. apply existsb_exists in Hres as (c & Hc & Hres).
    exists c. split; [exact Hc|].
    apply orb_true_iff in Hres as [Hres|Hres]; [left | right];
      apply Z.ltb_lt in Hres; intros E; rewrite E, map_size_empty in Hres; lia.
  - intros Hne. apply andb_false_iff in Hty as [Hty|Hty].
    + apply Z.ltb_ge in Hty. destruct types; [contradiction|]. unfold len in Hty.
      simpl in Hty. lia.
    + apply negb_false_iff, existsb_exists in Hty as (t & Ht & Heq).
      apply bool_decide_eq_true in Heq. rewrite Heq. exact Ht.
Qed.

(** X18. Every pod discovery returns is a pod of the cluster that is
    running, has an owner, has a container with a request or a limit,
    carries labels matching the label selector of the target, and is of one
    of the included workload types when the target lists any. *)
Theorem discoverTargetPods_sound (prs : v1alpha1.PodRightSizing) (w : Cluster)
    (targetPods : list corev1.Pod) :
  (discoverTargetPods prs w).1 = Ok targetPods ->
  exists selector,
    podSelector prs = Some selector
    /\ Forall (fun pod =>
                 In pod (pods w)
                 /\ metav1.Matches selector (metav1.Labels (corev1.PodMeta pod)) = true
                 /\ corev1.Phase pod = corev1.PodRunning
                 /\ metav1.OwnerReferences (corev1.PodMeta pod) <> []
                 /\ Exists (fun container =>
                              corev1.Requests (corev1.Resources container) <> ∅
                              \/ corev1.Limits (corev1.Resources container) <> ∅)
                      (corev1.Containers pod)
                 /\ (v1alpha1.IncludeWorkloadTypes (v1alpha1.Target (v1alpha1.Spec prs))
                     <> [] ->
                     In (getWorkloadType pod)
                        (v1alpha1.IncludeWorkloadTypes
                           (v1alpha1.Target (v1alpha1.Spec prs)))))
         targetPods.
Proof.
  intros Hd.
  assert (H : exists selector,
             podSelector prs = Some selector
             /\ Forall (eligible (pods w) selector prs) targetPods).
  { revert Hd. unfold discoverTargetPods, podSelector.
    destruct (match v1alpha1.LabelSelector _ with Some _ => _ | None => _ end)
      as [selector|]; [|monad; discriminate].
    intros Hd. exists selector. split; [reflexivity|]. revert Hd.
    destruct (v1alpha1.NamespaceSelector _) as [nsSel|].
    - destruct (metav1.LabelSelectorAsSelector nsSel) as [namespaceSelector|];
        [|monad; discriminate].
      monad. unfold ListNamespacesMatching, served.
      destruct (faults w ListNamespaces); simpl; [discriminate|].
      set (w1 := logged _ w). change (pods w) with (pods w1).
      apply listTargetPods_eligible. constructor.
    - destruct (negb _); apply listTargetPods_eligible; constructor. }
  destruct H as (selector & Hsel & Hall). exists selector. split; [exact Hsel|].
  eapply List.Forall_impl; [|exact Hall].
  intros pod (Hin & Hm & Hinc).
  destruct (shouldIncludePod_true pod prs Hinc) as (H1 & H2 & H3 & H4). auto 10.
Qed.

Lemma discoverTargetPods_sound_witness :
  exists selector,
    podSelector (policy "shop" true) = Some selector
    /\ Forall (fun pod =>
                 In pod (pods (shop (policy "shop" true)))
                 /\ metav1.Matches selector (metav1.Labels (corev1.PodMeta pod)) = true
                 /\ corev1.Phase pod = corev1.PodRunning)
         [web0; db0].
Proof.
  destruct (discoverTargetPods_sound (policy "shop" true) (shop (policy "shop" true))
              [web0; db0]) as (selector & Hsel & Hall).
  - vm_compute. reflexivity.
  - exists selector. split; [exact Hsel|].
    eapply List.Forall_impl; [|exact Hall]. intros pod (H1 & H2 & H3 & _). auto.
Defined.

(** X19. When the target names a namespace or selects namespaces by label,
    no pod that discovery returns lives in an excluded namespace. *)
Theorem discoverTargetPods_excludes (prs : v1alpha1.PodRightSizing) (w : Cluster)
    (targetPods : list corev1.Pod) :
  v1alpha1.TargetNamespace (v1alpha1.Target (v1alpha1.Spec prs)) <> ""
  \/ v1alpha1.NamespaceSelector (v1alpha1.Target (v1alpha1.Spec prs)) <> None ->
  Forall (fun ns => metav1.Name (corev1.NamespaceMeta ns) <> "") (namespaces w) ->
  (discoverTargetPods prs w).1 = Ok targetPods ->
  Forall (fun pod =>
            isNamespaceExcluded (metav1.Namespace (corev1.PodMeta pod))
              (v1alpha1.ExcludeNamespaces (v1alpha1.Target (v1alpha1.Spec prs)))
            = false)
    targetPods.
Proof. apply discoverTargetPods_named_excludes. Qed.

(** A policy that selects the namespaces labelled [team=shop] and excludes
    [kube-system], over a cluster whose two namespaces both carry the
    label. *)
Definition byTeam : v1alpha1.PodRightSizing :=
  v1alpha1.mkPodRightSizing (meta "ops" "rightsize" [] [])
    (v1alpha1.mkPodRightSizingSpec
       (v1alpha1.mkTargetSpec "" None
          (Some (metav1.mkLabelSelector [("team", "shop")] []))
          ["kube-system"] [])
       "168h" (v1alpha1.mkUpdatePolicy v1alpha1.UpdateStrategyGradual)
       v1alpha1.noThresholds true)
    (v1alpha1.mkPodRightSizingStatus v1alpha1.PhaseUnset "" None None 0 0 []).

Definition teamCluster : Cluster :=
  mkCluster {[ rightsize := byTeam ]}
    [corev1.mkNamespace (meta "" "shop" [("team", "shop")] []);
     corev1.mkNamespace (meta "" "kube-system" [("team", "shop")] [])]
    [web0; db0; dns0] [] ∅ 1000 (fun _ => None) [].

Lemma discoverTargetPods_excludes_witness :
  podKeys (discoverTargetPods byTeam teamCluster).1
  = Some [("shop", "web-0"); ("shop", "db-0")]
  /\ Forall (fun pod =>
               isNamespaceExcluded (metav1.Namespace (corev1.PodMeta pod))
                 ["kube-system"] = false)
       [web0; db0].
Proof.
  split; [vm_compute; reflexivity|].
  apply (discoverTargetPods_excludes byTeam teamCluster [web0; db0]).
  - right. discriminate.
  - repeat constructor; discriminate.
  - vm_compute. reflexivity.
Defined.

(** ** Grouping *)

(** All the pods of the groups, group after group. *)
Definition grouped {A} (groups : gmap string (list A)) : list A :=
  concat (map snd (map_to_list groups)).

Lemma grouped_insert {A} (groups : gmap string (list A)) (key : string) (x : A) :
  grouped (<[key := default [] (groups !! key) ++ [x]]> groups) ≡ₚ grouped groups ++ [x].
Proof.
  unfold grouped. destruct (groups !! key) as [l|] eqn:E; simpl.
  - rewrite <- insert_delete_eq.
    rewrite (map_to_list_insert (delete key groups) key (l ++ [x]))
      by apply lookup_delete_eq.
    rewrite <- (map_to_list_delete groups key l E). simpl.
    rewrite <- !app_assoc. apply Permutation_app_head, Permutation_app_comm.
  - rewrite (map_to_list_insert groups key [x] E). simpl.
    apply Permutation_cons_append.
Qed.

(** The key [groupPods] files a pod under, given the workload name found
    for it. *)
Definition filedUnder (key : string) (pod : corev1.Pod) : Prop :=
  exists workloadName,
    key = workloadKey (metav1.Namespace (corev1.PodMeta pod)) (getWorkloadType pod)
            workloadName.

(** What holds of the groups once the pods [done] are filed. *)
Definition filed (groups : gmap string (list corev1.Pod)) (done : list corev1.Pod)
  : Prop :=
  grouped groups ≡ₚ done
  /\ forall key group,
      groups !! key = Some group ->
      group <> [] /\ sublist group done /\ Forall (filedUnder key) group.

Lemma filed_step groups done pod workloadName :
  filed groups done ->
  filed (<[workloadKey (metav1.Namespace (corev1.PodMeta pod)) (getWorkloadType pod)
             workloadName
           := default [] (groups !!
                workloadKey (metav1.Namespace (corev1.PodMeta pod)) (getWorkloadType pod)
                  workloadName) ++ [pod]]> groups)
        (done ++ [pod]).
Proof.
  intros [Hperm Hgroups].
  set (key := workloadKey _ _ workloadName). split.
  - rewrite grouped_insert. apply Permutation_app_tail, Hperm.
  - intros key' group Hl. apply lookup_insert_Some in Hl as [[<- <-]|[Hne Hl]].
    + split; [intros E; apply app_eq_nil in E as [_ E]; discriminate|].
      destruct (groups !! key) as [l|] eqn:E; simpl.
      * destruct (Hgroups key l E) as (_ & Hsub & Hall).
        split; [apply sublist_app; [exact Hsub | reflexivity]|].
        apply Forall_app. split; [exact Hall|]. constructor; [|constructor].
        exists workloadName. reflexivity.
      * split; [apply sublist_inserts_l; reflexivity|].
        constructor; [|constructor]. exists workloadName. reflexivity.
    + destruct (Hgroups key' group Hl) as (H1 & H2 & H3).
      split; [exact H1|]. split; [apply sublist_inserts_r, H2 | exact H3].
Qed.

Lemma groupPods_filed pods groups done w :
  filed groups done -> filed (groupPods pods groups w).1 (done ++ pods).
Proof.
  revert groups done w. induction pods as [|pod pods IH]; intros groups done w Hf; simpl.
  - monad. simpl. rewrite app_nil_r. exact Hf.
  - monad. destruct (getWorkloadName pod w) as [workloadName w1].
    rewrite (cons_middle pod done pods), app_assoc.
    apply IH, filed_step, Hf.
Qed.

(** X20. Grouping loses and duplicates no pod: the groups taken together
    are the pods grouped, each once; no group is empty; within a group the
    pods keep the order of discovery; and every pod is filed under a key
    made of its own namespace and workload type. *)
Theorem groupPodsByWorkload_partition (targetPods : list corev1.Pod) (w : Cluster) :
  let groups := (groupPodsByWorkload targetPods w).1 in
  concat (map snd (map_to_list groups)) ≡ₚ targetPods
  /\ forall key group,
      groups !! key = Some group ->
      group <> []
      /\ sublist group targetPods
      /\ Forall (fun pod =>
                   exists workloadName,
                     key = workloadKey (metav1.Namespace (corev1.PodMeta pod))
                             (getWorkloadType pod) workloadName)
           group.
Proof.
  cbv zeta. unfold groupPodsByWorkload.
  apply (groupPods_filed targetPods ∅ [] w).
  split; [reflexivity|]. intros key group Hl. rewrite lookup_empty in Hl. discriminate.
Qed.

(** ** Comparing and writing resources *)

(** Two optional quantities denote the same number, or are both absent. *)
Definition sameQuantity (x y : option resource.Quantity) : Prop :=
  match x, y with
  | Some p, Some q =>
      (resource.AsApproximateFloat64 p == resource.AsApproximateFloat64 q)%Q
  | None, None => True
  | _, _ => False
  end.

Lemma resourceListEqual_iff (a b : corev1.ResourceList) :
  resourceListEqual a b = true <-> forall name, sameQuantity (a !! name) (b !! name).
Proof.
  unfold resourceListEqual. rewrite andb_true_iff, Z.eqb_eq, forallb_forall. split.
  - intros [Hsize Hall].
    assert (Hin : forall k x, a !! k = Some x ->
              exists y, b !! k = Some y /\ resource.Equal x y = true).
    { intros k x Hk. specialize (Hall (k, x)). simpl in Hall.
      assert (Hentry : In (k, x) (map_to_list a))
        by (apply list_elem_of_In, elem_of_map_to_list, Hk).
      destruct (b !! k) as [y|].
      - exists y. split; [reflexivity | apply Hall, Hentry].
      - specialize (Hall Hentry). discriminate. }
    assert (Hdom : dom a = dom b).
    { apply set_subseteq_size_eq.
      - intros k Hk. apply elem_of_dom in Hk as [x Hk].
        destruct (Hin k x Hk) as (y & Hy & _). apply elem_of_dom. exists y. exact Hy.
      - rewrite !size_dom. lia. }
    intros k. unfold sameQuantity. destruct (a !! k) as [x|] eqn:Ea.
    + destruct (Hin k x Ea) as (y & -> & He). apply Qeq_bool_iff, He.
    + apply not_elem_of_dom in Ea. rewrite Hdom in Ea. apply not_elem_of_dom in Ea.
      rewrite Ea. exact I.
  - intros H. split.
    + f_equal. rewrite <- !size_dom. f_equal. apply set_eq. intros k.
      rewrite !elem_of_dom. specialize (H k). unfold sameQuantity in H.
      destruct (a !! k), (b !! k); split; intros [? ?]; try done; eauto.
    + intros [k x] Hk. apply list_elem_of_In, elem_of_map_to_list in Hk. simpl.
      specialize (H k). rewrite Hk in H. unfold sameQuantity in H.
      destruct (b !! k) as [y|]; [|contradiction]. apply Qeq_bool_iff, H.
Qed.

(** X21. Two resource requirements compare as equal exactly when their
    requests, and their limits, name the same resources with quantities that
    denote the same numbers, whatever the scale they are written on; so the
    comparison is reflexive, symmetric and transitive. *)
Theorem resourcesEqual_iff (a b c : corev1.ResourceRequirements) :
  (resourcesEqual a b = true
   <-> forall name,
         sameQuantity (corev1.Requests a !! name) (corev1.Requests b !! name)
         /\ sameQuantity (corev1.Limits a !! name) (corev1.Limits b !! name))
  /\ resourcesEqual a a = true
  /\ resourcesEqual a b = resourcesEqual b a
  /\ (resourcesEqual a b = true -> resourcesEqual b c = true ->
      resourcesEqual a c = true).
Proof.
  assert (Hiff : forall a b,
            resourcesEqual a b = true
            <-> forall name,
                  sameQuantity (corev1.Requests a !! name) (corev1.Requests b !! name)
                  /\ sameQuantity (corev1.Limits a !! name) (corev1.Limits b !! name)).
  { intros x y. unfold resourcesEqual.
    rewrite andb_true_iff, !resourceListEqual_iff. split.
    - intros [H1 H2] name. split; [apply H1 | apply H2].
    - intros H. split; intros name; apply (H name). }
  assert (Hrefl : forall x, sameQuantity x x)
    by (intros [x|]; simpl; [reflexivity | exact I]).
  assert (Hsym : forall x y, sameQuantity x y -> sameQuantity y x)
    by (intros [x|] [y|]; simpl; try tauto; intros H; symmetry; exact H).
  assert (Htrans : forall x y z, sameQuantity x y -> sameQuantity y z -> sameQuantity x z).
  { intros [x|] [y|] [z|]; simpl; try tauto. intros H1 H2. rewrite H1. exact H2. }
  split; [apply Hiff|]. split; [|split].
  - apply (proj2 (Hiff _ _)). intros name. split; apply Hrefl.
  - destruct (resourcesEqual a b) eqn:E1, (resourcesEqual b a) eqn:E2; try reflexivity.
    + pose proof (proj1 (Hiff _ _) E1) as H. rewrite <- E2. symmetry.
      apply (proj2 (Hiff _ _)). intros name.
      destruct (H name). split; apply Hsym; assumption.
    + pose proof (proj1 (Hiff _ _) E2) as H. rewrite <- E1.
      apply (proj2 (Hiff _ _)). intros name.
      destruct (H name). split; apply Hsym; assumption.
  - intros H1 H2. apply (proj2 (Hiff _ _)).
    pose proof (proj1 (Hiff _ _) H1) as G1. pose proof (proj1 (Hiff _ _) H2) as G2.
    intros name. destruct (G1 name), (G2 name). split; eapply Htrans; eassumption.
Qed.

Lemma resourcesEqual_refl (a : corev1.ResourceRequirements) : resourcesEqual a a = true.
Proof.
  unfold resourcesEqual. rewrite andb_true_iff, !resourceListEqual_iff.
  split; intros name; (destruct (_ !! name); simpl; [reflexivity | exact I]).
Qed.

(** The containers after [updateContainerResources] all carry resources
    equal to the ones asked for, under their old names. *)
Lemma updateContainerResources_result containers resources :
  Forall (fun container => resourcesEqual (corev1.Resources container) resources = true)
    (updateContainerResources containers resources).1
  /\ map corev1.ContainerName (updateContainerResources containers resources).1
     = map corev1.ContainerName containers
  /\ ((updateContainerResources containers resources).2 = false ->
      (updateContainerResources containers resources).1 = containers).
Proof.
  unfold updateContainerResources. simpl. induction containers as [|c cs (IH1 & IH2 & IH3)].
  - repeat split; constructor.
  - simpl. destruct (resourcesEqual (corev1.Resources c) resources) eqn:E; simpl.
    + split; [constructor; assumption|]. split; [f_equal; exact IH2|].
      intros H. f_equal. apply IH3, H.
    + split; [constructor; [apply resourcesEqual_refl | exact IH1]|].
      split; [f_equal; exact IH2 | discriminate].
Qed.

Lemma updateContainerResources_settled containers resources :
  Forall (fun container => resourcesEqual (corev1.Resources container) resources = true)
    containers ->
  (updateContainerResources containers resources).2 = false.
Proof.
  unfold updateContainerResources. simpl. induction 1 as [|c cs Hc _ IH]; simpl.
  - reflexivity.
  - rewrite Hc. exact IH.
Qed.

(** X22. An update of a workload that the server serves leaves every
    container of the stored template, under its old name, with resources
    equal to the recommended ones; an update repeated on that state finds
    nothing to change: it fetches the workload, writes nothing and counts
    no update. *)
Theorem updateWorkload_converges (kind namespace name : string)
    (resources : corev1.ResourceRequirements) (w : Cluster) (obj : appsv1.Workload) :
  workloads w !! (kind, (namespace, name)) = Some obj ->
  keyOf (appsv1.WorkloadMeta obj) = (namespace, name) ->
  faults w (GetWorkload kind (namespace, name)) = None ->
  faults w (UpdateWorkload kind (namespace, name)) = None ->
  let once := updateWorkload kind namespace name resources w in
  once.1.2 = None
  /\ (exists obj',
        workloads once.2 !! (kind, (namespace, name)) = Some obj'
        /\ Forall (fun container =>
                     resourcesEqual (corev1.Resources container) resources = true)
             (appsv1.TemplateContainers obj')
        /\ map corev1.ContainerName (appsv1.TemplateContainers obj')
           = map corev1.ContainerName (appsv1.TemplateContainers obj))
  /\ updateWorkload kind namespace name resources once.2
     = ((0%Z, None), logged (mkEvent (GetWorkload kind (namespace, name)) None) once.2).
Proof.
  intros Hl Hk Hfg Hfu. cbv zeta.
  change (workloads w !! (@pair string NamespacedName kind (namespace, name))
          = Some obj) in Hl.
  assert (Hsettled : forall w1 obj1,
            workloads w1 !! (kind, (namespace, name)) = Some obj1 ->
            faults w1 (GetWorkload kind (namespace, name)) = None ->
            Forall (fun container =>
                      resourcesEqual (corev1.Resources container) resources = true)
              (appsv1.TemplateContainers obj1) ->
            updateWorkload kind namespace name resources w1
            = ((0%Z, None),
               logged (mkEvent (GetWorkload kind (namespace, name)) None) w1)).
  { intros w1 obj1 Hl1 Hf1 Hall. unfold updateWorkload, GetWorkloadNamed, served. monad.
    change (workloads w1 !! (@pair string NamespacedName kind (namespace, name))
            = Some obj1) in Hl1.
    rewrite Hf1, Hl1. cbv beta iota zeta.
    pose proof (updateContainerResources_settled _ resources Hall) as Hs.
    destruct (updateContainerResources (appsv1.TemplateContainers obj1) resources)
      as [containers updated]. simpl in Hs. subst updated. reflexivity. }
  destruct (updateContainerResources_result (appsv1.TemplateContainers obj) resources)
    as (Hall & Hnames & Hsame).
  remember (updateWorkload kind namespace name resources w) as once eqn:Ho.
  unfold updateWorkload, GetWorkloadNamed, served in Ho. monad. rewrite Hfg, Hl in Ho.
  cbv beta iota zeta in Ho.
  destruct (updateContainerResources (appsv1.TemplateContainers obj) resources)
    as [containers updated] eqn:Hu. simpl in Hall, Hnames, Hsame.
  destruct updated; cbv beta iota delta [negb] in Ho.
  - unfold UpdateWorkloadNamed, served in Ho. simpl in Ho. rewrite Hk, Hfu in Ho.
    simpl in Ho. rewrite Hl in Ho. simpl in Ho. subst once. simpl.
    split; [reflexivity|]. split.
    + eexists. split; [apply lookup_insert_eq|]. split; assumption.
    + eapply Hsettled; [simpl; apply lookup_insert_eq | exact Hfg | exact Hall].
  - subst once. simpl. split; [reflexivity|]. rewrite (Hsame eq_refl) in Hall. split.
    + exists obj. split; [exact Hl|]. split; [exact Hall | reflexivity].
    + eapply Hsettled; [exact Hl | exact Hfg | exact Hall].
Qed.

Lemma updateWorkload_converges_witness :
  let w := shop (policy "shop" false) in
  let wanted :=
    corev1.mkResourceRequirements
      {[ corev1.ResourceCPU := resource.NewMilliQuantity 618 ]}
      {[ corev1.ResourceCPU := resource.NewMilliQuantity 494 ]} in
  let once := updateWorkload "Deployment" "shop" "web" wanted w in
  once.1 = (1%Z, None)
  /\ updateWorkload "Deployment" "shop" "web" wanted once.2
     = ((0%Z, None),
        logged (mkEvent (GetWorkload "Deployment" ("shop", "web")) None) once.2).
Proof.
  cbv zeta. split; [vm_compute; reflexivity|].
  apply (updateWorkload_converges "Deployment" "shop" "web" _
           (shop (policy "shop" false))
           (appsv1.mkWorkload (meta "shop" "web" [] []) [corev1.mkContainer "main" sized])).
  - vm_compute. reflexivity.
  - reflexivity.
  - reflexivity.
  - reflexivity.
Defined.

(** ** From workload keys to writes *)

(** X9. A workload key splits back into the namespace, the workload type
    and the workload name it was built from, provided the namespace and the
    type contain no slash; the name may contain any. *)
Theorem workloadKey_round_trip (namespace workloadType workloadName : string) :
  slashFree namespace -> slashFree workloadType ->
  splitWorkloadKey (workloadKey namespace workloadType workloadName)
  = [namespace; workloadType; workloadName].
Proof. apply splitWorkloadKey_workloadKey. Qed.

Lemma workloadKey_round_trip_witness :
  slashFree "shop" /\ slashFree "Deployment"
  /\ splitWorkloadKey (workloadKey "shop" "Deployment" "web/blue")
     = ["shop"; "Deployment"; "web/blue"].
Proof.
  assert (Hn : slashFree "shop") by (simpl; repeat split; discriminate).
  assert (Ht : slashFree "Deployment") by (simpl; repeat split; discriminate).
  split; [exact Hn|]. split; [exact Ht|].
  exact (workloadKey_round_trip "shop" "Deployment" "web/blue" Hn Ht).
Defined.

(** X23. Unless the strategy is manual, the recommendations filed under a
    workload key lead to one update of the workload the key names, with the
    resources recommended for the first pod of the list; the recommendations
    for the other pods are not averaged in. A key of another workload type
    than Deployment, StatefulSet or DaemonSet leads to no call at all. *)
Theorem applyWorkloadRecommendations_first (prs : v1alpha1.PodRightSizing)
    (namespace workloadType workloadName : string)
    (first : v1alpha1.PodRecommendation) (others : list v1alpha1.PodRecommendation) :
  v1alpha1.Strategy (v1alpha1.Policy (v1alpha1.Spec prs))
  <> v1alpha1.UpdateStrategyManual ->
  slashFree namespace -> slashFree workloadType ->
  applyWorkloadRecommendations prs (workloadKey namespace workloadType workloadName)
    (first :: others)
  = if metav1.eqs workloadType "Deployment" || metav1.eqs workloadType "StatefulSet"
       || metav1.eqs workloadType "DaemonSet"
    then updateWorkload workloadType namespace workloadName
           (v1alpha1.RecommendedResources first)
    else mret (0%Z, None).
Proof.
  intros Hs Hn Ht. unfold applyWorkloadRecommendations.
  rewrite bool_decide_eq_false_2 by exact Hs.
  change (len (first :: others) =? 0)%Z with (Z.pos (Pos.of_succ_nat (length others)) =? 0)%Z.
  cbv beta iota delta [Z.eqb].
  rewrite (splitWorkloadKey_workloadKey namespace workloadType workloadName Hn Ht).
  unfold calculateAverageRecommendation, updateDeployment, updateStatefulSet,
    updateDaemonSet, WorkloadTypeDeployment, WorkloadTypeStatefulSet,
    WorkloadTypeDaemonSet.
  unfold metav1.eqs.
  destruct (bool_decide_reflect (workloadType = "Deployment")) as [->|_];
    [reflexivity|].
  destruct (bool_decide_reflect (workloadType = "StatefulSet")) as [->|_];
    [reflexivity|].
  destruct (bool_decide_reflect (workloadType = "DaemonSet")) as [->|_]; reflexivity.
Qed.

(** Two recommendations for the pods of the StatefulSet [db] that differ. *)
Definition forDb (pod : string) (milli : Z) : v1alpha1.PodRecommendation :=
  v1alpha1.mkPodRecommendation
    (v1alpha1.mkPodReference pod "shop" "StatefulSet" "db")
    (corev1.mkResourceRequirements ∅ ∅)
    (corev1.mkResourceRequirements
       {[ corev1.ResourceCPU := resource.NewMilliQuantity milli ]} ∅)
    "" 90 false.

Lemma applyWorkloadRecommendations_first_witness :
  applyWorkloadRecommendations (policy "shop" false)
    (workloadKey "shop" "StatefulSet" "db") [forDb "db-0" 100; forDb "db-1" 900]
  = updateWorkload "StatefulSet" "shop" "db"
      (v1alpha1.RecommendedResources (forDb "db-0" 100)).
Proof.
  apply (applyWorkloadRecommendations_first (policy "shop" false) "shop" "StatefulSet"
           "db" (forDb "db-0" 100) [forDb "db-1" 900]).
  - discriminate.
  - simpl. repeat split; discriminate.
  - simpl. repeat split; discriminate.
Defined.

(** A workload write that the server accepted. *)
Definition acceptedWrite (e : Event) : bool :=
  match call e, failure e with
  | UpdateWorkload _ _, None => true
  | _, _ => false
  end.

(** The count a computation returns is the number of workload writes the
    server accepted while it ran, and is zero when it returns an error. *)
Definition tallies (m : M (Z * option error)) : Prop :=
  forall w, exists events,
    trace (m w).2 = trace w ++ events
    /\ (m w).1.1 = len (List.filter acceptedWrite events)
    /\ ((m w).1.2 <> None -> (m w).1.1 = 0%Z).

Lemma tallies_ret : tallies (mret (0%Z, None)).
Proof.
  intros w. exists []. monad. simpl. rewrite app_nil_r.
  split; [reflexivity|]. split; [reflexivity|]. intros _. reflexivity.
Qed.

Lemma tallies_updateWorkload kind namespace name resources :
  tallies (updateWorkload kind namespace name resources).
Proof.
  intros w. unfold updateWorkload, GetWorkloadNamed, served. monad.
  destruct (faults w (GetWorkload kind (namespace, name))) as [e|].
  - eexists [_]. simpl. split; [reflexivity|]. split; [reflexivity|]. reflexivity.
  - destruct (workloads w !! _) as [obj|]; cbv beta iota zeta.
    + destruct (updateContainerResources (appsv1.TemplateContainers obj) resources)
        as [containers updated].
      destruct updated; cbv beta iota delta [negb].
      * unfold UpdateWorkloadNamed, served. simpl.
        destruct (faults w (UpdateWorkload kind _)) as [e|]; simpl.
        -- eexists [_; _]. rewrite <- app_assoc. simpl.
           split; [reflexivity|]. split; [reflexivity|]. reflexivity.
        -- destruct (workloads w !! _) as [stored|]; simpl;
             (eexists [_; _]; rewrite <- app_assoc; simpl;
              split; [reflexivity|]; split; [reflexivity|]);
             intros H; try reflexivity; contradiction.
      * eexists [_]. simpl. split; [reflexivity|]. split; [reflexivity|]. reflexivity.
    + eexists [_]. simpl. split; [reflexivity|]. split; [reflexivity|]. reflexivity.
Qed.

Lemma tallies_applyWorkloadRecommendations prs key recommendations :
  tallies (applyWorkloadRecommendations prs key recommendations).
Proof.
  unfold applyWorkloadRecommendations.
  destruct (bool_decide _); [apply tallies_ret|].
  destruct (_ =? _)%Z; [apply tallies_ret|].
  destruct (splitWorkloadKey key) as [|namespace [|workloadType [|workloadName [|]]]];
    try (intros w; exists []; monad; simpl; rewrite app_nil_r;
         split; [reflexivity|]; split; [reflexivity|]; intros _; reflexivity).
  destruct (metav1.eqs workloadType "Deployment"); [apply tallies_updateWorkload|].
  destruct (metav1.eqs workloadType "StatefulSet"); [apply tallies_updateWorkload|].
  destruct (metav1.eqs workloadType "DaemonSet"); [apply tallies_updateWorkload|].
  apply tallies_ret.
Qed.

Lemma applyEach_tally prs groups updatedCount w :
  exists events,
    trace (applyEach prs groups updatedCount w).2 = trace w ++ events
    /\ (applyEach prs groups updatedCount w).1
       = (updatedCount + len (List.filter acceptedWrite events))%Z.
Proof.
  revert updatedCount w.
  induction groups as [|[key workloadRecs] groups IH]; intros updatedCount w; simpl.
  - exists []. monad. simpl. rewrite app_nil_r. split; [reflexivity|].
    unfold len. simpl. lia.
  - monad.
    destruct (tallies_applyWorkloadRecommendations prs key workloadRecs w)
      as (ev1 & Ht1 & Hc1 & He1).
    destruct (applyWorkloadRecommendations prs key workloadRecs w)
      as [[updated err] w1]. simpl in Ht1, Hc1, He1.
    destruct err as [err|].
    + destruct (IH updatedCount w1) as (ev2 & Ht2 & Hc2).
      exists (ev1 ++ ev2). rewrite Ht2, Ht1, app_assoc. split; [reflexivity|].
      rewrite Hc2, List.filter_app. unfold len. rewrite length_app.
      specialize (He1 ltac:(discriminate)). unfold len in Hc1. lia.
    + destruct (IH (updatedCount + updated)%Z w1) as (ev2 & Ht2 & Hc2).
      exists (ev1 ++ ev2). rewrite Ht2, Ht1, app_assoc. split; [reflexivity|].
      rewrite Hc2, List.filter_app. unfold len. rewrite length_app.
      unfold len in Hc1. lia.
Qed.

(** X24. The number of updates that applying the recommendations reports is
    the number of workload writes the server accepted while they were
    applied: it counts workloads, not pods, and is at most the number of
    distinct workload keys among the recommendations. *)
Theorem applyRecommendations_counts_writes (prs : v1alpha1.PodRightSizing)
    (recommendations : list v1alpha1.PodRecommendation) (w : Cluster) :
  exists events,
    trace (applyRecommendations prs recommendations w).2 = trace w ++ events
    /\ (applyRecommendations prs recommendations w).1
       = len (List.filter acceptedWrite events)
    /\ ((applyRecommendations prs recommendations w).1
        <= Z.of_nat (size (groupRecommendations recommendations))
        <= len recommendations)%Z.
Proof.
  unfold applyRecommendations.
  destruct (applyEach_tally prs (map_to_list (groupRecommendations recommendations)) 0 w)
    as (events & Ht & Hc).
  exists events. split; [exact Ht|]. split; [rewrite Hc; lia|].
  pose proof (applyEach_count prs
                (map_to_list (groupRecommendations recommendations)) 0 w) as H.
  pose proof (groupRecommendations_size recommendations) as Hs.
  unfold len in *. rewrite length_map_to_list in H. lia.
Qed.

(** ** Recommendations for one workload *)

Section Workload.

Variable Sqrt : Q -> Q.
Variable ParseDuration : string -> option Z.

(** The window the metrics are asked for: the analysis window of the policy
    or, when it does not parse, seven days. *)
Definition windowOf (prs : v1alpha1.PodRightSizing) : Z :=
  match ParseDuration (v1alpha1.AnalysisWindow (v1alpha1.Spec prs)) with
  | Some d => d
  | None => (7 * 24 * Hour)%Z
  end.

(** X25. The recommendations generated for a workload key come from the
    metrics the provider returns for the namespace, name and type the key
    is made of, over the analysis window or seven days; they are made for a
    sub-sequence of the pods measured, and each carries the type and the
    name of the workload, is not marked as applied, and shows as current
    resources those of the first target pod of the same name, if any. *)
Theorem generateWorkloadRecommendations_sound (r : PodRightSizingReconciler)
    (prs : v1alpha1.PodRightSizing) (namespace workloadType workloadName : string)
    (targetPods : list corev1.Pod) (recs : list v1alpha1.PodRecommendation) :
  slashFree namespace -> slashFree workloadType ->
  generateWorkloadRecommendations Sqrt ParseDuration r prs
    (workloadKey namespace workloadType workloadName) targetPods = Ok recs ->
  exists workloadMetrics,
    MetricsClient r namespace workloadName workloadType (windowOf prs)
    = Ok workloadMetrics
    /\ sublist (map (fun rec => v1alpha1.Name (v1alpha1.PodRef rec)) recs)
         (map metrics.PodName (metrics.Pods workloadMetrics))
    /\ Forall (fun rec =>
                 v1alpha1.WorkloadType (v1alpha1.PodRef rec) = workloadType
                 /\ v1alpha1.WorkloadName (v1alpha1.PodRef rec) = workloadName
                 /\ v1alpha1.Applied rec = false
                 /\ forall pod,
                      List.find (fun pod => metav1.eqs (metav1.Name (corev1.PodMeta pod))
                                              (v1alpha1.Name (v1alpha1.PodRef rec)))
                        targetPods = Some pod ->
                      v1alpha1.CurrentResources rec = getCurrentResources pod)
         recs.
Proof.
  intros Hn Ht. unfold generateWorkloadRecommendations.
  rewrite (splitWorkloadKey_workloadKey namespace workloadType workloadName Hn Ht).
  fold (windowOf prs).
  destruct (MetricsClient r namespace workloadName workloadType (windowOf prs))
    as [workloadMetrics|message]; [|discriminate].
  destruct (_ =? _)%Z; [discriminate|].
  destruct (analyzer.GenerateRecommendations _ _ _ _) as [engineRecs|e] eqn:Hg;
    [|discriminate].
  intros [= <-]. exists workloadMetrics. split; [reflexivity|].
  destruct (engine_extra.recommendations_subsequence _ _ _ _ _ Hg)
    as [Hsub Happ].
  split.
  - rewrite map_map. simpl.
    assert (E : map (fun rec => v1alpha1.Name (v1alpha1.PodRef rec)) engineRecs
                = map fst (map engine_extra.recommendedFor engineRecs))
      by (rewrite map_map; reflexivity).
    assert (E' : map metrics.PodName (metrics.Pods workloadMetrics)
                 = map fst (map engine_extra.measured (metrics.Pods workloadMetrics)))
      by (rewrite map_map; reflexivity).
    rewrite E, E'. clear E E'. induction Hsub; simpl; [constructor | apply sublist_skip; assumption | apply sublist_cons; assumption].
  - apply Forall_map. eapply List.Forall_impl; [|exact Happ].
    intros rec Hrec. simpl. repeat split; [exact Hrec|].
    intros pod Hfind. unfold enhance. simpl. rewrite Hfind. reflexivity.
Qed.

End Workload.

Lemma generateWorkloadRecommendations_sound_witness :
  exists recs,
    generateWorkloadRecommendations Float64.Sqrt time.ParseDuration operator
      (policy "shop" true) (workloadKey "shop" "Deployment" "web") [web0; db0] = Ok recs
    /\ Forall (fun rec =>
                 v1alpha1.WorkloadType (v1alpha1.PodRef rec) = "Deployment"
                 /\ v1alpha1.WorkloadName (v1alpha1.PodRef rec) = "web")
         recs.
Proof.
  let v := eval vm_compute in
      (generateWorkloadRecommendations Float64.Sqrt time.ParseDuration operator
         (policy "shop" true) (workloadKey "shop" "Deployment" "web") [web0; db0]) in
  match v with
  | Ok ?recs =>
      exists recs;
      assert (Hg : generateWorkloadRecommendations Float64.Sqrt time.ParseDuration
                     operator (policy "shop" true)
                     (workloadKey "shop" "Deployment" "web") [web0; db0] = Ok recs)
        by (vm_compute; reflexivity)
  end.
  split; [exact Hg|].
  destruct (generateWorkloadRecommendations_sound Float64.Sqrt time.ParseDuration
              operator (policy "shop" true) "shop" "Deployment" "web" [web0; db0] _
              ltac:(simpl; repeat split; discriminate)
              ltac:(simpl; repeat split; discriminate) Hg)
    as (workloadMetrics & _ & _ & Hall).
  eapply List.Forall_impl; [|exact Hall]. intros rec (H1 & H2 & _). auto.
Defined.

End controller_extra.
